(** * Distributor-quarter risk analytics: a shallow embedding in Rocq

    This development embeds the analytics core of the inventory backend
    (app/utils/thresholds.py, app/utils/distributor_quarter_transform.py,
    app/routers/risk.py, app/routers/alerts.py, app/routers/correlation.py)
    and proves the properties its specification states about it.

    Numbers.  The pandas columns hold binary floating point numbers.  They
    are modelled as exact rationals [Q]; a missing value (NaN after
    [pd.to_numeric(errors="coerce")] or an empty CSV cell) is [None] in an
    [option Q].  Results that floating point division can turn into an
    infinity or NaN are values of [ext] below.  Rounding to two decimals
    ([Series.round(2)], [np.round], Python's [round(x, 2)]) is round half to
    even on the exact value. *)

From Stdlib Require Import ZArith QArith Qround Qabs List String Ascii Bool Lia.
From Stdlib Require Import Sorting.Permutation Sorting.Sorted.
From Stdlib Require Import Structures.OrdersEx Lqa.
From Stdlib Require DecimalZ.
Import ListNotations.

Open Scope Z_scope.

(* ================================================================= *)
(** ** Floating point values: finite, infinite or NaN *)

Inductive ext : Type :=
| Fin (q : Q)
| PInf
| NInf
| NaN.

(** [pd.isna] *)
Definition isna (x : ext) : bool :=
  match x with NaN => true | _ => false end.

Definition Qltb (a b : Q) : bool := negb (Qle_bool b a).

(** IEEE division of two finite numbers. *)
Definition ediv (a b : Q) : ext :=
  if Qeq_bool b 0 then
    match Qcompare a 0 with Eq => NaN | Gt => PInf | Lt => NInf end
  else Fin (a / b).

(** [x - c] for a finite [c]. *)
Definition ext_subq (x : ext) (c : Q) : ext :=
  match x with Fin q => Fin (q - c) | e => e end.

(** [x * c] for a finite [c]. *)
Definition ext_mulq (x : ext) (c : Q) : ext :=
  match x with
  | Fin q => Fin (q * c)
  | PInf => match Qcompare c 0 with Gt => PInf | Lt => NInf | Eq => NaN end
  | NInf => match Qcompare c 0 with Gt => NInf | Lt => PInf | Eq => NaN end
  | NaN => NaN
  end.

(** [x >= c], [x > c] and [x < c] against a finite bound; NaN compares
    false. *)
Definition ext_geq (x : ext) (c : Q) : bool :=
  match x with Fin q => Qle_bool c q | PInf => true | _ => false end.

Definition ext_gtq (x : ext) (c : Q) : bool :=
  match x with Fin q => Qltb c q | PInf => true | _ => false end.

Definition ext_ltq (x : ext) (c : Q) : bool :=
  match x with Fin q => Qltb q c | NInf => true | _ => false end.

(** Round half to even to an integer. *)
Definition Z_round_half_even (x : Q) : Z :=
  let f := Qfloor x in
  match Qcompare (x - inject_Z f) (1 # 2) with
  | Lt => f
  | Gt => f + 1
  | Eq => if Z.even f then f else f + 1
  end.

(** [round(x, 2)]; the result is kept in lowest terms so that equal
    rounded values are equal terms. *)
Definition round2 (x : Q) : Q := Qred (Z_round_half_even (x * 100) # 100).

Definition ext_round2 (x : ext) : ext :=
  match x with Fin q => Fin (round2 q) | e => e end.

(* ================================================================= *)
(** ** app/utils/thresholds.py *)

Inductive Status : Type :=
| HighRisk
| Risk
| Good
| VeryGood
| NotClassified.

Definition status_str (s : Status) : string :=
  match s with
  | HighRisk => "High Risk"
  | Risk => "Risk"
  | Good => "Good"
  | VeryGood => "Very Good"
  | NotClassified => "Not Classified"
  end.

(** [distributor_status(pct_from_limit, pct_change)] *)
Definition distributor_status (pct_from_limit pct_change : ext) : Status :=
  if negb (isna pct_from_limit) then
    if ext_geq pct_from_limit 120 then HighRisk
    else if ext_geq pct_from_limit 100 then Risk
    else if ext_ltq pct_from_limit 80 then VeryGood
    else Good
  else if negb (isna pct_change) then
    if ext_gtq pct_change 10 then HighRisk
    else if ext_gtq pct_change 0 then Risk
    else if ext_ltq pct_change (-10) then VeryGood
    else Good
  else NotClassified.

(** [waste_trend_arrow(delta)] for a defined delta. *)
Definition waste_trend_arrow (delta : Q) : string :=
  if Qltb 0 delta then "⬆️ 🔴"
  else if Qltb delta 0 then "⬇️ 🟢"
  else "➖".

(* ================================================================= *)
(** ** Generic helpers: lexicographic comparison and a stable sort *)

(** Lexicographic combination of two comparisons. *)
Definition lex (c1 c2 : comparison) : comparison :=
  match c1 with Eq => c2 | c => c end.

Definition str_compare : string -> string -> comparison := String_as_OT.compare.

Section StableSort.
Context {A : Type} (cmp : A -> A -> comparison).

(** Insert [x] after every element that is not greater than it. *)
Fixpoint insert_by (x : A) (l : list A) : list A :=
  match l with
  | [] => [x]
  | y :: ys => match cmp x y with Lt => x :: l | _ => y :: insert_by x ys end
  end.

(** A stable sort: elements with equal keys keep their input order. *)
Definition sort_by (l : list A) : list A :=
  fold_left (fun acc x => insert_by x acc) l [].
End StableSort.

(** [dict.get] on an association list, first binding wins. *)
Fixpoint assoc_get {K V : Type} (eqb : K -> K -> bool) (k : K) (m : list (K * V))
  : option V :=
  match m with
  | [] => None
  | (k', v) :: m' => if eqb k k' then Some v else assoc_get eqb k m'
  end.

(** Remove later duplicates, keeping first occurrences. *)
Fixpoint dedup_go {A : Type} (eqb : A -> A -> bool) (seen l : list A) : list A :=
  match l with
  | [] => []
  | x :: xs =>
      if existsb (eqb x) seen then dedup_go eqb seen xs
      else x :: dedup_go eqb (x :: seen) xs
  end.

Definition dedup_by {A : Type} (eqb : A -> A -> bool) (l : list A) : list A :=
  dedup_go eqb [] l.

(** [Series.sum()]: missing values are skipped, an empty sum is 0. *)
Definition sum_skipna (l : list (option Q)) : Q :=
  fold_left (fun acc o => match o with Some q => acc + q | None => acc end)%Q l 0%Q.

(* ================================================================= *)
(** ** The uploaded table (after [prepare_time_columns]) *)

(** One row of [request.app.state.df].  [year_only] is missing when the
    month label did not parse; [quarter] is the label ["Q1"] to ["Q4"]
    built from the month.  The last two fields record whether the
    [Distributor ID] and [year_only] cells hold floats: an integer column
    with a missing value is a float64 column ([read_csv], [dt.year] of a
    column with [NaT]), whose values [str] prints as ["7.0"]. *)
Record Raw : Type := mkRaw {
  dist_id : option Z;
  us_state : option string;
  year_only : option Z;
  quarter : string;
  deliveries_qty : option Q;
  returns_qty : option Q;
  allowance_qty : option Q;
  waste_qty : option Q;
  dist_id_is_float : bool;
  year_only_is_float : bool
}.

(* ================================================================= *)
(** ** app/utils/distributor_quarter_transform.py *)

(** Group key [("Distributor ID", "US States", "year_only", "quarter")]. *)
Definition GKey : Type := (Z * string * Z * string)%type.

Definition gkey_of (r : Raw) : option GKey :=
  match dist_id r, us_state r, year_only r with
  | Some d, Some s, Some y => Some (d, s, y, quarter r)
  | _, _, _ => None
  end.

Definition gkey_eqb (a b : GKey) : bool :=
  let '(d1, s1, y1, q1) := a in let '(d2, s2, y2, q2) := b in
  Z.eqb d1 d2 && String.eqb s1 s2 && Z.eqb y1 y2 && String.eqb q1 q2.

(** [groupby(sort=True)] orders the groups by their key. *)
Definition gkey_compare (a b : GKey) : comparison :=
  let '(d1, s1, y1, q1) := a in let '(d2, s2, y2, q2) := b in
  lex (Z.compare d1 d2) (lex (str_compare s1 s2)
    (lex (Z.compare y1 y2) (str_compare q1 q2))).

(** The rows of [idp_level_B] after [.agg(...)] and [.round(2)]. *)
Record Agg : Type := mkAgg {
  a_dist : Z;
  a_state : string;
  a_year : Z;
  a_quarter : string;
  a_total_deliveries : Q;
  a_total_returns : Q;
  a_total_waste_allowance : Q;
  a_total_waste : Q
}.

(** Rows with a missing key value are dropped by [groupby]. *)
Definition group_keys (rows : list Raw) : list GKey :=
  sort_by gkey_compare
    (dedup_by gkey_eqb
       (flat_map (fun r => match gkey_of r with Some k => [k] | None => [] end) rows)).

Definition group_sum (rows : list Raw) (k : GKey) (f : Raw -> option Q) : Q :=
  round2 (sum_skipna
    (map f (filter (fun r => match gkey_of r with
                             | Some k' => gkey_eqb k k'
                             | None => false end) rows))).

Definition aggregate (rows : list Raw) : list Agg :=
  map (fun k => let '(d, s, y, q) := k in
         mkAgg d s y q
           (group_sum rows k deliveries_qty)
           (group_sum rows k returns_qty)
           (group_sum rows k allowance_qty)
           (group_sum rows k waste_qty))
      (group_keys rows).

(** [np.where(cond, x, y)], element-wise over three equally long columns. *)
Fixpoint np_where {A : Type} (c : list bool) (x y : list A) : list A :=
  match c, x, y with
  | b :: c', u :: x', v :: y' => (if b then u else v) :: np_where c' x' y'
  | _, _, _ => []
  end.

(** The condition column [(limit == 0) | (spoil == 0)]. *)
Definition limit_conds (g : list Agg) : list bool :=
  map (fun a => Qeq_bool (a_total_waste_allowance a) 0
                || Qeq_bool (a_total_waste a) 0) g.

(** The column [((spoil - limit) / limit) * 100]: numpy evaluates it for
    every row before [np.where] selects. *)
Definition limit_quotients (g : list Agg) : list ext :=
  map (fun a => ext_mulq (ediv (a_total_waste a - a_total_waste_allowance a)
                               (a_total_waste_allowance a)) 100) g.

Definition pct_from_limit_col (g : list Agg) : list ext :=
  map ext_round2
    (np_where (limit_conds g) (map (fun _ => Fin 0) g) (limit_quotients g)).

(** [pct_from_limit] of one aggregate row. *)
Definition pfl_of (a : Agg) : ext :=
  ext_round2 (if Qeq_bool (a_total_waste_allowance a) 0 || Qeq_bool (a_total_waste a) 0
              then Fin 0
              else ext_mulq (ediv (a_total_waste a - a_total_waste_allowance a)
                                  (a_total_waste_allowance a)) 100).

(** [sort_values(["Distributor ID", "year_only", "quarter"])]. *)
Definition dyq_compare (x y : Agg * ext) : comparison :=
  let a := fst x in let b := fst y in
  lex (Z.compare (a_dist a) (a_dist b))
    (lex (Z.compare (a_year a) (a_year b)) (str_compare (a_quarter a) (a_quarter b))).

(** [x / prev - 1] of [pct_change()], times 100, rounded. *)
Definition pct_change_val (prev cur : Q) : ext :=
  ext_round2 (ext_mulq (ext_subq (ediv cur prev) 1) 100).

(** [groupby("Distributor ID")["total_waste"].pct_change() * 100], rounded:
    each row is compared with the previous row of the same distributor in
    the current order; [seen] holds the last waste seen per distributor. *)
Fixpoint pct_change_go (seen : list (Z * Q)) (rows : list (Agg * ext))
  : list (Agg * ext * ext) :=
  match rows with
  | [] => []
  | (a, p) :: rest =>
      let c := match assoc_get Z.eqb (a_dist a) seen with
               | Some prev => pct_change_val prev (a_total_waste a)
               | None => NaN
               end in
      (a, p, c) :: pct_change_go ((a_dist a, a_total_waste a) :: seen) rest
  end.

(** A row of [data_dist_quarter]. *)
Record DQRow : Type := mkDQ {
  dq_dist : Z;
  dq_state : string;
  dq_year : Z;
  dq_quarter : string;
  total_deliveries : Q;
  total_returns : Q;
  total_waste_allowance : Q;
  total_waste : Q;
  pct_from_limit : ext;
  pct_change_Wastes_from_last_quarter : ext;
  dq_status : Status;
  dq_dist_is_float : bool;
  dq_year_is_float : bool
}.

(** The rows [groupby] keeps: those with a key. *)
Definition keyed_rows (rows : list Raw) : list Raw :=
  filter (fun r => match gkey_of r with Some _ => true | None => false end) rows.

(** The key columns of the grouped table keep the type of the key cells
    they are built from: float64 when these are floats. *)
Definition dist_col_float (rows : list Raw) : bool :=
  existsb dist_id_is_float (keyed_rows rows).

Definition year_col_float (rows : list Raw) : bool :=
  existsb year_only_is_float (keyed_rows rows).

Definition finish_row (fd fy : bool) (x : Agg * ext * ext) : DQRow :=
  let '(a, p, c) := x in
  mkDQ (a_dist a) (a_state a) (a_year a) (a_quarter a)
    (a_total_deliveries a) (a_total_returns a)
    (a_total_waste_allowance a) (a_total_waste a) p c
    (distributor_status p c) fd fy.

Definition build_distributor_quarter_df (rows : list Raw) : list DQRow :=
  let g := aggregate rows in
  let withp := combine g (pct_from_limit_col g) in
  let sorted := sort_by dyq_compare withp in
  map (finish_row (dist_col_float rows) (year_col_float rows)) (pct_change_go [] sorted).

(* ================================================================= *)
(** ** The classification rule as the specification words it *)

(** Tier 1: [>=120 -> HighRisk; 100 <= p < 120 -> Risk; < 80 -> VeryGood;
    otherwise Good]. *)
Definition spec_tier1 (p : Q) : Status :=
  if Qle_bool 120 p then HighRisk
  else if Qle_bool 100 p && Qltb p 120 then Risk
  else if Qltb p 80 then VeryGood
  else Good.

(** Tier 2: [>10 -> HighRisk; >0 -> Risk; < -10 -> VeryGood; otherwise
    Good]. *)
Definition spec_tier2 (c : Q) : Status :=
  if Qltb 10 c then HighRisk
  else if Qltb 0 c then Risk
  else if Qltb c (-10) then VeryGood
  else Good.

(** The two tiers with their precedence; an infinite value sits above or
    below every threshold. *)
Definition spec_status (p c : ext) : Status :=
  match p with
  | Fin q => spec_tier1 q
  | PInf => HighRisk
  | NInf => VeryGood
  | NaN =>
      match c with
      | Fin q => spec_tier2 q
      | PInf => HighRisk
      | NInf => VeryGood
      | NaN => NotClassified
      end
  end.

Definition all_statuses : list Status := [HighRisk; Risk; Good; VeryGood; NotClassified].

(** A row whose summed allowance is zero (its waste is not). *)
Definition ex_zero_allowance : list Raw :=
  [mkRaw (Some 101) (Some "TX"%string) (Some 2023) "Q1"
         (Some 10%Q) (Some 1%Q) (Some 0%Q) (Some 5%Q) false false].

(* ================================================================= *)
(** ** Printing integers ([str(int)], [astype(str)]) *)

Fixpoint str_of_uint (u : Decimal.uint) : string :=
  match u with
  | Decimal.Nil => EmptyString
  | Decimal.D0 u => String "0" (str_of_uint u)
  | Decimal.D1 u => String "1" (str_of_uint u)
  | Decimal.D2 u => String "2" (str_of_uint u)
  | Decimal.D3 u => String "3" (str_of_uint u)
  | Decimal.D4 u => String "4" (str_of_uint u)
  | Decimal.D5 u => String "5" (str_of_uint u)
  | Decimal.D6 u => String "6" (str_of_uint u)
  | Decimal.D7 u => String "7" (str_of_uint u)
  | Decimal.D8 u => String "8" (str_of_uint u)
  | Decimal.D9 u => String "9" (str_of_uint u)
  end.

(** [str(z)]: decimal digits, a leading ["-"] for negative numbers. *)
Definition Z_to_str (z : Z) : string :=
  match Z.to_int z with
  | Decimal.Pos u => str_of_uint u
  | Decimal.Neg u => String "-" (str_of_uint u)
  end.

(** [float(a)] for [a >= 0]: the nearest double, ties to the even
    significand; [None] when it rounds to [2^1024] or beyond (infinity). *)
Definition round_to_double (a : Z) : option Z :=
  let n := Z.log2 a + 1 in
  if Z.leb n 53 then Some a
  else
    let s := n - 53 in
    let q := Z.shiftr a s in
    let r := a - Z.shiftl q s in
    let h := Z.shiftl 1 (s - 1) in
    let q' := if Z.ltb h r || (Z.eqb r h && Z.odd q) then q + 1 else q in
    let v := Z.shiftl q' s in
    if Z.leb (2 ^ 1024) v then None else Some v.

(** Of the two [k]-digit numbers [c1 * 10^p] and [c2 * 10^p] around [v],
    the ones that read back as [v]: the nearer one, the even one on a tie. *)
Definition pick_candidate (v p c1 c2 : Z) : option Z :=
  let ok c := match round_to_double (c * 10 ^ p) with Some w => Z.eqb w v | None => false end in
  match ok c1, ok c2 with
  | true, true =>
      let d1 := v - c1 * 10 ^ p in let d2 := c2 * 10 ^ p - v in
      if Z.ltb d1 d2 then Some c1 else if Z.ltb d2 d1 then Some c2
      else if Z.even c1 then Some c1 else Some c2
  | true, false => Some c1
  | false, true => Some c2
  | false, false => None
  end.

(** The shortest digits of [repr]: the first number of significant digits
    [k] (1 to 17) for which a [k]-digit [c * 10^p] reads back as [v]. *)
Fixpoint shortest_go (v nd : Z) (ks : list Z) : Z * Z :=
  match ks with
  | [] => (v, 0)
  | k :: ks' =>
      let p := nd - k in
      let c1 := v / 10 ^ p in
      match pick_candidate v p c1 (c1 + 1) with
      | Some c => (c, p)
      | None => shortest_go v nd ks'
      end
  end.

Fixpoint strip_zeros_rev (l : list ascii) : list ascii :=
  match l with
  | "0"%char :: l' => strip_zeros_rev l'
  | _ => l
  end.

(** [repr] of a double holding the integer [v >= 0]: its digits and
    [".0"] below [10^16], the form [d.ddde+XX] from [10^16] on. *)
Definition repr_int_double (v : Z) : string :=
  if Z.ltb v (10 ^ 16) then (Z_to_str v ++ ".0")%string
  else
    let nd := Z.of_nat (String.length (Z_to_str v)) in
    let '(c, p) := shortest_go v nd (map Z.of_nat (seq 1 17)) in
    let ds := list_ascii_of_string (Z_to_str c) in
    let e := Z.of_nat (List.length ds) - 1 + p in
    match rev (strip_zeros_rev (rev ds)) with
    | [] => "0"%string
    | d :: rest =>
        (String d (match rest with
                   | [] => EmptyString
                   | _ => String "." (string_of_list_ascii rest)
                   end) ++ "e+" ++ Z_to_str e)%string
    end.

(** [str(float(z))] of an integer value held in a float64 cell. *)
Definition py_float_str (z : Z) : string :=
  match z with
  | Z0 => "0.0"%string
  | Zpos p => match round_to_double (Zpos p) with
              | Some v => repr_int_double v
              | None => "inf"%string
              end
  | Zneg p => match round_to_double (Zpos p) with
              | Some v => String "-" (repr_int_double v)
              | None => "-inf"%string
              end
  end.

(** [str] of a cell holding the integer [z], as a float or as an integer. *)
Definition cell_str (is_float : bool) (z : Z) : string :=
  if is_float then py_float_str z else Z_to_str z.

(* ================================================================= *)
(** ** app/routers/risk.py: distributor trend *)

(** The exceptions a request handler ends with. *)
Inductive api_error : Type :=
| HTTPException (status_code : Z) (detail : string)
| ValueError
| KeyError.

(** One element of the ["trend"] list of the response. *)
Record TrendEntry : Type := mkTrend {
  te_quarter : string;
  te_waste : Q;
  te_pct_change : option ext;   (* [None] is serialized as [null] *)
  te_status : Status
}.

(** [sort_values(["year_only", "quarter"])] on the table rows. *)
Definition yq_compare (r1 r2 : DQRow) : comparison :=
  lex (Z.compare (dq_year r1) (dq_year r2)) (str_compare (dq_quarter r1) (dq_quarter r2)).

(** [df["Distributor ID"].astype(str)] on one row. *)
Definition dq_id_str (row : DQRow) : string :=
  cell_str (dq_dist_is_float row) (dq_dist row).

Definition trend_entry (row : DQRow) : TrendEntry :=
  mkTrend (cell_str (dq_year_is_float row) (dq_year row) ++ " " ++ dq_quarter row)
          (round2 (total_waste row))
          (if isna (pct_change_Wastes_from_last_quarter row) then None
           else Some (ext_round2 (pct_change_Wastes_from_last_quarter row)))
          (dq_status row).

(** An infinite float, which [json.dumps(..., allow_nan=False)] refuses. *)
Definition ext_is_inf (x : ext) : bool :=
  match x with PInf | NInf => true | _ => false end.

Definition te_is_inf (e : TrendEntry) : bool :=
  match te_pct_change e with Some x => ext_is_inf x | None => false end.

(** [distributor_trend(request, distributor_id)] over the stored table;
    rendering the response raises [ValueError] on an infinite change. *)
Definition distributor_trend (dq : list DQRow) (distributor_id : string)
  : api_error + (string * list TrendEntry) :=
  let df := filter (fun r => String.eqb (dq_id_str r) distributor_id) dq in
  match df with
  | [] => inl (HTTPException 404 "No data found for selected distributor")
  | _ =>
      let trend := map trend_entry (sort_by yq_compare df) in
      if existsb te_is_inf trend then inl ValueError
      else inr (distributor_id, trend)
  end.

(** The order of the built table: distributor, year, quarter. *)
Definition dq_compare (r1 r2 : DQRow) : comparison :=
  lex (Z.compare (dq_dist r1) (dq_dist r2)) (yq_compare r1 r2).


(** A comparison function that is antisymmetric, whose [Eq] is a
    congruence and whose [Lt] is transitive. *)
Definition cmp_good {A : Type} (cmp : A -> A -> comparison) : Prop :=
  (forall x y, cmp y x = CompOpp (cmp x y)) /\
  (forall x y z, cmp x y = Eq -> cmp x z = cmp y z) /\
  (forall x y z, cmp x y = Lt -> cmp y z = Lt -> cmp x z = Lt).

Definition cmp_le {A : Type} (cmp : A -> A -> comparison) (x y : A) : Prop :=
  cmp x y <> Gt.

(** The rows of one distributor, in table order. *)
Definition dist_rows (dq : list DQRow) (d : Z) : list DQRow :=
  filter (fun r => Z.eqb (dq_dist r) d) dq.

(** A distributor whose first quarter has zero waste. *)
Definition ex_zero_prior : list Raw :=
  [mkRaw (Some 7) (Some "TX"%string) (Some 2023) "Q1" (Some 100%Q) (Some 1%Q) (Some 10%Q) (Some 0%Q) false false;
   mkRaw (Some 7) (Some "TX"%string) (Some 2023) "Q2" (Some 100%Q) (Some 1%Q) (Some 10%Q) (Some 5%Q) false false].

(* ================================================================= *)
(** ** Python string built-ins used by the routers *)

(** The whitespace of [str.split()] and [int()] among the one-byte
    characters: tab, line feed, vertical tab, form feed, carriage return,
    the separators [\x1c] to [\x1f] and the space.  Strings are UTF-8
    bytes here; the multi-byte Unicode spaces are not recognized. *)
Definition is_space (c : ascii) : bool :=
  existsb (Nat.eqb (nat_of_ascii c)) [32; 9; 10; 11; 12; 13; 28; 29; 30; 31]%nat.

(** The text is ASCII ([s.isascii()]): on it the one-byte model of the
    built-ins above is exact. *)
Definition is_ascii_str (s : string) : bool :=
  forallb (fun c => Nat.ltb (nat_of_ascii c) 128) (list_ascii_of_string s).

(** [s.split()]: split on runs of whitespace, no empty parts. *)
Fixpoint split_ws_go (cur : string) (s : string) : list string :=
  match s with
  | EmptyString => match cur with EmptyString => [] | _ => [cur] end
  | String c rest =>
      if is_space c then
        match cur with
        | EmptyString => split_ws_go EmptyString rest
        | _ => cur :: split_ws_go EmptyString rest
        end
      else split_ws_go (cur ++ String c EmptyString) rest
  end.

Definition py_split (s : string) : list string := split_ws_go EmptyString s.

Definition digit_val (c : ascii) : option Z :=
  let n := nat_of_ascii c in
  if (48 <=? n)%nat && (n <=? 57)%nat then Some (Z.of_nat n - 48) else None.

(** Digits with single underscores between them, as [int()] accepts them;
    [last_us] records that the previous character was an underscore. *)
Fixpoint digits_go (acc : Z) (last_us : bool) (s : string) : option Z :=
  match s with
  | EmptyString => if last_us then None else Some acc
  | String c rest =>
      if Ascii.eqb c "_" then (if last_us then None else digits_go acc true rest)
      else match digit_val c with
           | Some v => digits_go (acc * 10 + v) false rest
           | None => None
           end
  end.

Definition parse_digits (s : string) : option Z :=
  match s with
  | EmptyString => None
  | String c _ => if Ascii.eqb c "_" then None else digits_go 0 false s
  end.

(** Leading and trailing whitespace removed ([s.strip()]). *)
Fixpoint lstrip (s : string) : string :=
  match s with
  | String c rest => if is_space c then lstrip rest else s
  | EmptyString => EmptyString
  end.

Definition rev_string (s : string) : string :=
  string_of_list_ascii (rev (list_ascii_of_string s)).

Definition py_strip (s : string) : string := rev_string (lstrip (rev_string (lstrip s))).

(** [int(s)] on a string: [None] where Python raises [ValueError]. *)
Definition py_int (s : string) : option Z :=
  match py_strip s with
  | String c rest =>
      if Ascii.eqb c "-" then option_map Z.opp (parse_digits rest)
      else if Ascii.eqb c "+" then parse_digits rest
      else parse_digits (String c rest)
  | EmptyString => None
  end.

(** [s.replace(old, new)]: every non-overlapping occurrence, left to
    right; an empty [old] inserts [new] around every character. *)
Fixpoint replace_go (fuel : nat) (old new s : string) : string :=
  match fuel with
  | O => s
  | S fuel' =>
      match s with
      | EmptyString => EmptyString
      | String c rest =>
          if String.prefix old s then
            new ++ replace_go fuel' old new (substring (length old) (length s) s)
          else String c (replace_go fuel' old new rest)
      end
  end.

Fixpoint interleave (new s : string) : string :=
  match s with
  | EmptyString => new
  | String c rest => new ++ String c (interleave new rest)
  end.

Definition py_replace (s old new : string) : string :=
  match old with
  | EmptyString => interleave new s
  | _ => replace_go (length s) old new s
  end.

(* ================================================================= *)
(** ** app/routers/risk.py: quarter comparison *)

(** [parse_quarter(q_label)]: ["2022 Q2"] gives [(2022, "Q2")]; the
    unpacking [y, q = ...] and [int(y)] raise [ValueError]. *)
Definition parse_quarter (q_label : string) : option (Z * string) :=
  match py_split q_label with
  | [y; q] =>
      match py_int y with
      | Some yi => Some (yi, py_replace q y EmptyString)
      | None => None
      end
  | _ => None
  end.

(** One element of the ["comparison"] list. *)
Record QCEntry : Type := mkQCEntry {
  qc_distributor_id : Z;
  total_waste_q1 : Q;
  total_waste_q2 : Q;
  delta : Q;
  trend : string;
  status_change : string
}.

(** The response; [qc_header] holds [state], [quarter_a], [quarter_b],
    which the early [{"comparison": []}] answers leave out. *)
Record QCResponse : Type := mkQCResponse {
  qc_header : option (string * string * string);
  qc_comparison : list QCEntry
}.

Definition qc_empty : QCResponse := mkQCResponse None [].

Definition arrow_sep : string := " → ".

(** [dq[(dq["year_only"] == y) & (dq["quarter"] == q)]] followed by
    [df[df["Distributor ID"].astype(str).isin(distributors)]]. *)
Definition qc_subset (dq : list DQRow) (yq : Z * string) (distributors : list string)
  : list DQRow :=
  filter (fun r => existsb (String.eqb (dq_id_str r)) distributors)
    (filter (fun r => Z.eqb (dq_year r) (fst yq) && String.eqb (dq_quarter r) (snd yq)) dq).

(** [df_q1.merge(df_q2, on="Distributor ID", how="outer")]: the keys of
    both sides in sorted order; for each key the pairs of matching rows, a
    missing side giving [None]. *)
Definition outer_merge (l1 l2 : list DQRow) : list (Z * option DQRow * option DQRow) :=
  let keys := sort_by Z.compare (dedup_by Z.eqb (map dq_dist l1 ++ map dq_dist l2)) in
  flat_map (fun k =>
    let a := filter (fun r => Z.eqb (dq_dist r) k) l1 in
    let b := filter (fun r => Z.eqb (dq_dist r) k) l2 in
    match a, b with
    | [], _ => map (fun y => (k, None, Some y)) b
    | _, [] => map (fun x => (k, Some x, None)) a
    | _, _ => flat_map (fun x => map (fun y => (k, Some x, Some y)) b) a
    end) keys.

Definition opt_waste (o : option DQRow) : option Q := option_map total_waste o.

Definition merged_entry (m : Z * option DQRow * option DQRow) : QCEntry :=
  let '(k, o1, o2) := m in
  let d := (match opt_waste o2 with Some w => w | None => 0 end
            - match opt_waste o1 with Some w => w | None => 0 end)%Q in
  let st o := match o with Some r => status_str (dq_status r) | None => "Unknown"%string end in
  mkQCEntry k
    (match opt_waste o1 with Some w => round2 w | None => 0%Q end)
    (match opt_waste o2 with Some w => round2 w | None => 0%Q end)
    (round2 d) (waste_trend_arrow d) (st o1 ++ arrow_sep ++ st o2).

(** [dq[dq["US States"] == state]] *)
Definition state_rows (dq : list DQRow) (state : string) : list DQRow :=
  filter (fun r => String.eqb (dq_state r) state) dq.

(** [distributors = [distributor_1]], extended by a non-empty
    [distributor_2]. *)
Definition qc_distributors (distributor_1 : string) (distributor_2 : option string)
  : list string :=
  distributor_1 :: match distributor_2 with
                   | Some d2 => if String.eqb d2 EmptyString then [] else [d2]
                   | None => []
                   end.

(** [quarter_comparison(request, state, quarter_a, quarter_b,
    distributor_1, distributor_2)] over the stored table. *)
Definition quarter_comparison (dq : list DQRow) (state quarter_a quarter_b distributor_1 : string)
  (distributor_2 : option string) : api_error + QCResponse :=
  let dqs := state_rows dq state in
  match dqs with
  | [] => inl (HTTPException 404 "No data for selected state")
  | _ =>
    match parse_quarter quarter_a, parse_quarter quarter_b with
    | Some p1, Some p2 =>
      let distributors := qc_distributors distributor_1 distributor_2 in
      let df_q1 := qc_subset dqs p1 distributors in
      let df_q2 := qc_subset dqs p2 distributors in
      if String.eqb quarter_a quarter_b then
        match df_q1 with
        | [] => inr qc_empty
        | base :: _ =>
            inr (mkQCResponse (Some (state, quarter_a, quarter_b))
                   [mkQCEntry (dq_dist base) (round2 (total_waste base))
                      (round2 (total_waste base)) 0 "➖"
                      (status_str (dq_status base) ++ arrow_sep ++ status_str (dq_status base))])
        end
      else
        match outer_merge df_q1 df_q2 with
        | [] => inr qc_empty
        | merged => inr (mkQCResponse (Some (state, quarter_a, quarter_b))
                           (map merged_entry merged))
        end
    | _, _ => inl ValueError
    end
  end.

(** Distributors 1 and 2 both have a row for Texas in 2022 Q1. *)
Definition ex_two_distributors : list Raw :=
  [mkRaw (Some 1) (Some "TX"%string) (Some 2022) "Q1" (Some 100%Q) (Some 5%Q) (Some 10%Q) (Some 8%Q) false false;
   mkRaw (Some 2) (Some "TX"%string) (Some 2022) "Q1" (Some 200%Q) (Some 9%Q) (Some 10%Q) (Some 13%Q) false false].

(** A file where one row has no distributor id: the id column is read
    as float64 and prints ["7.0"]. *)
Definition ex_float_ids : list Raw :=
  [mkRaw (Some 7) (Some "TX"%string) (Some 2023) "Q1" (Some 100%Q) (Some 5%Q) (Some 10%Q) (Some 8%Q) true false;
   mkRaw (Some 7) (Some "TX"%string) (Some 2023) "Q2" (Some 100%Q) (Some 6%Q) (Some 10%Q) (Some 12%Q) true false;
   mkRaw None (Some "TX"%string) (Some 2023) "Q2" (Some 100%Q) (Some 6%Q) (Some 10%Q) (Some 12%Q) true false].

(* ================================================================= *)
(** ** app/routers/alerts.py *)

Inductive Severity : Type := HIGH | MEDIUM | LOW.

Definition severity_str (s : Severity) : string :=
  match s with HIGH => "HIGH" | MEDIUM => "MEDIUM" | LOW => "LOW" end.

(** [priority = {"HIGH": 3, "MEDIUM": 2, "LOW": 1}] *)
Definition priority (s : Severity) : Z :=
  match s with HIGH => 3 | MEDIUM => 2 | LOW => 1 end.

Definition severity_eqb (a b : Severity) : bool := Z.eqb (priority a) (priority b).

Record Alert : Type := mkAlert {
  severity : Severity;
  title : string;
  description : string;
  distributor_id : Z;
  alert_state : string;
  category : string;
  time_ref : string
}.

(** [s.upper()] on ASCII letters. *)
Definition upper_ascii (c : ascii) : ascii :=
  let n := nat_of_ascii c in
  if (97 <=? n)%nat && (n <=? 122)%nat then ascii_of_nat (n - 32) else c.

(** [str.upper()] on ASCII text; the non-ASCII letters, which Python
    also maps (["ſ"] to ["S"], ["ß"] to ["SS"]), are left as they are. *)
Fixpoint py_upper (s : string) : string :=
  match s with
  | EmptyString => EmptyString
  | String c rest => String (upper_ascii c) (py_upper rest)
  end.

(** [f"{x:.1f}"] *)
Definition fmt1 (x : Q) : string :=
  let n := Z_round_half_even (x * 10) in
  let a := Z.abs n in
  (if Qltb x 0 then "-" else EmptyString) ++ Z_to_str (a / 10) ++ "." ++ Z_to_str (a mod 10).

(** A [(Distributor ID, US States)] group with two summed measures. *)
Record DSGroup : Type := mkDSGroup {
  g_dist : Z;
  g_state : string;
  g_x : Q;
  g_y : Q
}.

Definition ds_key_eqb (a b : Z * string) : bool :=
  Z.eqb (fst a) (fst b) && String.eqb (snd a) (snd b).

Definition ds_key_compare (a b : Z * string) : comparison :=
  lex (Z.compare (fst a) (fst b)) (str_compare (snd a) (snd b)).

(** [df.dropna(subset=["Distributor ID", "US States"])], keeping the key. *)
Definition ds_rows (df : list Raw) : list (Z * string * Raw) :=
  flat_map (fun r => match dist_id r, us_state r with
                     | Some d, Some s => [(d, s, r)]
                     | _, _ => []
                     end) df.

(** [df.groupby(["Distributor ID", "US States"]).agg(x=(fx, "sum"),
    y=(fy, "sum"))]. *)
Definition ds_groupby (rows : list (Z * string * Raw)) (fx fy : Raw -> option Q)
  : list DSGroup :=
  let keys := sort_by ds_key_compare (dedup_by ds_key_eqb (map fst rows)) in
  map (fun k =>
         let rs := map snd (filter (fun x => ds_key_eqb k (fst x)) rows) in
         mkDSGroup (fst k) (snd k) (sum_skipna (map fx rs)) (sum_skipna (map fy rs)))
      keys.

(** [over_allow]: waste and allowance per group, allowance > 0. *)
Definition over_allow (rows : list (Z * string * Raw)) : list DSGroup :=
  filter (fun g => Qltb 0 (g_y g)) (ds_groupby rows waste_qty allowance_qty).

Definition usage_pct (g : DSGroup) : Q := g_x g / g_y g.

(** [returns]: returns and deliveries per group, deliveries > 0. *)
Definition returns_groups (rows : list (Z * string * Raw)) : list DSGroup :=
  filter (fun g => Qltb 0 (g_y g)) (ds_groupby rows returns_qty deliveries_qty).

Definition return_pct (g : DSGroup) : Q := g_x g / g_y g.

(** The list [alerts] before the summary and the deduplication. *)
Definition alerts_of (df : list Raw) : list Alert :=
  let rows := ds_rows df in
  let oa := over_allow rows in
  map (fun g => mkAlert HIGH "Waste Threshold Exceeded"
                  ("Waste exceeded allowance by " ++ fmt1 ((usage_pct g - 1) * 100) ++ "%")
                  (g_dist g) (g_state g) "Stale Inventory" "Recent")
      (filter (fun g => Qltb 1 (usage_pct g)) oa) ++
  map (fun g => mkAlert MEDIUM "High Return Rate"
                  ("Returns at " ++ fmt1 (return_pct g * 100) ++ "% of deliveries")
                  (g_dist g) (g_state g) "Returns" "Recent")
      (filter (fun g => Qltb (8 # 100) (return_pct g)) (returns_groups rows)) ++
  map (fun g => mkAlert LOW "Good Inventory Control" "Waste well within allowed limits"
                  (g_dist g) (g_state g) "Positive Signal" "Recent")
      (filter (fun g => Qltb (usage_pct g) (6 # 10)) oa).

Record Summary : Type := mkSummary {
  s_high : nat;
  s_medium : nat;
  s_low : nat
}.

(** [groupby("severity")["distributor_id"].nunique()] for one severity. *)
Definition nunique_sev (al : list Alert) (s : Severity) : nat :=
  List.length (dedup_by Z.eqb
            (map distributor_id (filter (fun a => severity_eqb (severity a) s) al))).

Definition summary_of (al : list Alert) : Summary :=
  mkSummary (nunique_sev al HIGH) (nunique_sev al MEDIUM) (nunique_sev al LOW).

Definition summary_get (s : Summary) (v : Severity) : nat :=
  match v with HIGH => s_high s | MEDIUM => s_medium s | LOW => s_low s end.

(** [sort_values("priority", ascending=False)]; numpy's default sort is
    not stable, so the deduplication facts below hold for every ordering
    sorted by priority, this stable one included. *)
Definition priority_desc (a b : Alert) : comparison :=
  Z.compare (priority (severity b)) (priority (severity a)).

(** [drop_duplicates(subset=["distributor_id"])]: the first alert of each
    distributor is kept. *)
Fixpoint drop_dup_dist (seen : list Z) (l : list Alert) : list Alert :=
  match l with
  | [] => []
  | a :: rest =>
      if existsb (Z.eqb (distributor_id a)) seen then drop_dup_dist seen rest
      else a :: drop_dup_dist (distributor_id a :: seen) rest
  end.

Definition dedup_alerts (l : list Alert) : list Alert :=
  drop_dup_dist [] (sort_by priority_desc l).

(** [get_alerts(request, severity, distributor, state)]; an empty alert
    list ends in [KeyError] ([alerts_df] has no ["severity"] column). *)
Definition get_alerts (df : list Raw) (severity_f distributor_f state_f : string)
  : api_error + (Summary * list Alert) :=
  let sev := py_upper severity_f in
  let al := alerts_of df in
  match al with
  | [] => inl KeyError
  | _ =>
    let summary := summary_of al in
    let d1 := dedup_alerts al in
    let d2 := if String.eqb sev "ALL" then d1
              else filter (fun a => String.eqb (severity_str (severity a)) sev) d1 in
    let d3 := if String.eqb distributor_f "ALL" then Some d2
              else match py_int distributor_f with
                   | Some n => Some (filter (fun a => Z.eqb (distributor_id a) n) d2)
                   | None => None
                   end in
    match d3 with
    | None => inl ValueError
    | Some d3 =>
        let d4 := if String.eqb state_f "ALL" then d3
                  else filter (fun a => String.eqb (alert_state a) state_f) d3 in
        inr (summary, d4)
    end
  end.

(** Distributor 5 exceeds its allowance in Texas and has a high return
    rate in Ohio; distributor 6 stays well within its allowance. *)
Definition ex_alerts : list Raw :=
  [mkRaw (Some 5) (Some "TX"%string) (Some 2023) "Q1" (Some 1000%Q) (Some 10%Q) (Some 400%Q) (Some 1000%Q) false false;
   mkRaw (Some 5) (Some "OH"%string) (Some 2023) "Q1" (Some 1000%Q) (Some 90%Q) (Some 400%Q) (Some 300%Q) false false;
   mkRaw (Some 6) (Some "TX"%string) (Some 2023) "Q1" (Some 1000%Q) (Some 10%Q) (Some 400%Q) (Some 100%Q) false false].

(* ================================================================= *)
(** ** app/routers/correlation.py *)

(** The dtypes [select_dtypes(include=["int64", "float64"])] tells apart. *)
Inductive DType : Type := DInt64 | DFloat64 | DOther.

Record Column : Type := mkColumn {
  col_name : string;
  col_dtype : DType;
  col_values : list (option Q)
}.

Definition select_numeric (cols : list Column) : list Column :=
  filter (fun c => match col_dtype c with DInt64 | DFloat64 => true | DOther => false end) cols.

(** The accumulators of pandas' [nancorr] (pandas/_libs/algos.pyx), the
    kernel of [DataFrame.corr()]: Welford's method over the rows where
    both columns hold a value. *)
Record Welford : Type := mkWelford {
  nobs : Z;
  meanx : Q;
  meany : Q;
  ssqdmx : Q;
  ssqdmy : Q;
  covxy : Q
}.

Definition welford0 : Welford := mkWelford 0 0 0 0 0 0.

Definition welford_step (s : Welford) (vx vy : Q) : Welford :=
  let n := nobs s + 1 in
  let dx := (vx - meanx s)%Q in
  let dy := (vy - meany s)%Q in
  let mx := (meanx s + 1 / inject_Z n * dx)%Q in
  let my := (meany s + 1 / inject_Z n * dy)%Q in
  mkWelford n mx my
    (ssqdmx s + (vx - mx) * dx)%Q
    (ssqdmy s + (vy - my) * dy)%Q
    (covxy s + (vx - mx) * dy)%Q.

Definition welford_pair (s : Welford) (p : option Q * option Q) : Welford :=
  match p with
  | (Some vx, Some vy) => welford_step s vx vy
  | _ => s
  end.

Definition welford (x y : list (option Q)) : Welford :=
  fold_left welford_pair (combine x y) welford0.

(** [sqrt] on a non-negative rational, truncated after 20 decimal digits;
    it is exact on every square [s * s] of a non-negative [s]. *)
Definition sqrt_scale : positive := 100000000000000000000%positive.

Definition sqrtQ (x : Q) : Q :=
  Z.sqrt (Qnum x * Zpos (Qden x) * Zpos sqrt_scale * Zpos sqrt_scale)
    # (Qden x * sqrt_scale).

(** One entry of [nancorr(mat, minp=1)], for the columns [xi >= yi]; the
    quotient is clipped to [-1, 1]. *)
Definition nancorr_entry (x y : list (option Q)) : ext :=
  let s := welford x y in
  if nobs s <? 1 then NaN
  else
    let divisor := sqrtQ (ssqdmx s * ssqdmy s) in
    if Qeq_bool divisor 0 then NaN
    else
      let val := (covxy s / divisor)%Q in
      Fin (if Qltb 1 val then 1%Q else if Qltb val (-1) then (-1)%Q else val).

(** [nancorr] fills [result[xi, yi] = result[yi, xi]] for [yi <= xi]. *)
Definition nancorr (cols : list (list (option Q))) : list (list ext) :=
  let K := List.length cols in
  map (fun i =>
         map (fun j => nancorr_entry (nth (Nat.max i j) cols []) (nth (Nat.min i j) cols []))
             (seq 0 K))
      (seq 0 K).

(** [numeric_df.corr().round(2)] *)
Definition corr_round (cols : list (list (option Q))) : list (list ext) :=
  map (map ext_round2) (nancorr cols).

(** [matrix[i][j]] *)
Definition entry (m : list (list ext)) (i j : nat) : ext :=
  nth j (nth i m []) NaN.

Definition ext_abs (x : ext) : ext :=
  match x with Fin q => Fin (Qabs q) | PInf | NInf => PInf | NaN => NaN end.

Definition ext_leq (x : ext) (c : Q) : bool :=
  match x with Fin q => Qle_bool q c | NInf => true | _ => false end.

Definition is_finite (x : ext) : bool :=
  match x with Fin _ => true | _ => false end.

(** A row of [rel_df]: [f1], [f2], [value] and the column [abs]. *)
Record Rel : Type := mkRel {
  f1 : string;
  f2 : string;
  value : ext;
  abs_value : ext
}.

(** The double loop over [corr.columns], skipping [i == j]; the columns
    of an uploaded table have distinct names, so [corr.loc[i, j]] is the
    entry at the positions of [i] and [j]. *)
Definition relationships (names : list string) (m : list (list ext)) : list Rel :=
  flat_map (fun i =>
    flat_map (fun j =>
      let ni := nth i names EmptyString in
      let nj := nth j names EmptyString in
      if negb (String.eqb ni nj) then [mkRel ni nj (entry m i j) (ext_abs (entry m i j))]
      else [])
    (seq 0 (List.length names)))
  (seq 0 (List.length names)).

Definition head5 {A : Type} (l : list A) : list A := firstn 5 l.

Definition is_strong (r : Rel) : bool := ext_geq (abs_value r) (75 # 100).

Definition is_moderate (r : Rel) : bool :=
  ext_geq (abs_value r) (4 # 10) && ext_ltq (abs_value r) (75 # 100).

Definition is_inverse (r : Rel) : bool := ext_leq (value r) (-4 # 10).

Record CorrPayload : Type := mkCorrPayload {
  features : list string;
  matrix : list (list ext);
  strong : list Rel;
  moderate : list Rel;
  inverse : list Rel
}.

(** [correlation_analysis(request)].  The returned dict is rendered by
    Starlette's [JSONResponse], i.e. [json.dumps(..., allow_nan=False)],
    which raises [ValueError] on a NaN or an infinity anywhere in it; an
    empty [rel_df] has no ["value"] column ([KeyError]). *)
Definition correlation_analysis (cols : list Column) : api_error + CorrPayload :=
  let num := select_numeric cols in
  if (List.length num <? 2)%nat then inl (HTTPException 400 "Not enough numeric features")
  else
    let names := map col_name num in
    let corr := corr_round (map col_values num) in
    let rels := relationships names corr in
    match rels with
    | [] => inl KeyError
    | _ =>
      let p := mkCorrPayload names corr
                 (head5 (filter is_strong rels))
                 (head5 (filter is_moderate rels))
                 (head5 (filter is_inverse rels)) in
      if forallb (forallb is_finite) corr
         && forallb (fun r => is_finite (value r) && is_finite (abs_value r))
              (strong p ++ moderate p ++ inverse p)
      then inr p else inl ValueError
    end.

Definition qcol (l : list Z) : list (option Q) := map (fun z => Some (inject_Z z)) l.

(** Three numeric columns: [b] and [c] are equal, [a] has correlation 0.8
    with both. *)
Definition ex_corr_abc : list Column :=
  [mkColumn "a" DInt64 (qcol [1; 2; 3; 4]);
   mkColumn "b" DInt64 (qcol [1; 2; 4; 3]);
   mkColumn "c" DFloat64 (qcol [1; 2; 4; 3]);
   mkColumn "region" DOther (map (fun _ => None) [1; 2; 3; 4])].

(** Two numeric columns, the second one constant. *)
Definition ex_corr_const : list Column :=
  [mkColumn "a" DInt64 (qcol [1; 2; 3; 4]);
   mkColumn "k" DInt64 (qcol [5; 5; 5; 5])].

(** The values of a column that [nancorr]'s mask keeps. *)
Definition col_vals (x : list (option Q)) : list Q :=
  flat_map (fun o => match o with Some v => [v] | None => [] end) x.

(** The column holds two values that differ. *)
Definition has_spread (x : list (option Q)) : bool :=
  let vs := col_vals x in
  existsb (fun a => existsb (fun b => negb (Qeq_bool a b)) vs) vs.

(* ================================================================= *)
(** ** Severity order of the statuses *)

(** The statuses from the least to the most severe; [NotClassified]
    (both inputs missing) is ranked with [VeryGood]. *)
Definition status_rank (s : Status) : nat :=
  match s with
  | VeryGood | NotClassified => 0
  | Good => 1
  | Risk => 2
  | HighRisk => 3
  end%nat.

(* ================================================================= *)
(** ** app/utils/filters.py *)

Definition lower_ascii (c : ascii) : ascii :=
  let n := nat_of_ascii c in
  if (65 <=? n)%nat && (n <=? 90)%nat then ascii_of_nat (n + 32) else c.

(** The abbreviated month names of the C locale, lower-cased: [%b]
    matches them ignoring case. *)
Definition month_abbrs : list string :=
  ["jan"; "feb"; "mar"; "apr"; "may"; "jun";
   "jul"; "aug"; "sep"; "oct"; "nov"; "dec"]%string.

Fixpoint index_of (s : string) (l : list string) (i : Z) : option Z :=
  match l with
  | [] => None
  | x :: l' => if String.eqb s x then Some i else index_of s l' (i + 1)
  end.

(** [pd.to_datetime(label, format="%b-%y", errors="coerce")] on one cell,
    as [(year, month)]; [None] is [NaT].  The whole label must match:
    three letters naming a month (any case), ["-"], two digits; a two-digit
    year [yy] is [2000 + yy] up to 68 and [1900 + yy] above.  The model
    reads labels of ASCII characters; pandas turns the strings ["now"] and
    ["today"] into the current time before looking at the format, which
    the model, having no clock, leaves out. *)
Definition strptime_b_y (s : string) : option (Z * Z) :=
  match s with
  | String a (String b (String c (String h (String d1 (String d2 EmptyString))))) =>
      if Ascii.eqb h "-" then
        match index_of (String (lower_ascii a) (String (lower_ascii b)
                          (String (lower_ascii c) EmptyString))) month_abbrs 1,
              digit_val d1, digit_val d2 with
        | Some m, Some x, Some y =>
            let yy := 10 * x + y in
            Some (if yy <=? 68 then 2000 + yy else 1900 + yy, m)
        | _, _, _ => None
        end
      else None
  | _ => None
  end.

(** [prepare_time_columns] on one row, from its ["Months"] cell ([None]
    when the cell is not a string): [(year_only, month_only, quarter)].
    [quarter] is ["Q" + ((month - 1) // 3 + 1).astype("Int64").astype(str)],
    which reads ["Q<NA>"] when the label did not parse. *)
Definition prepare_time (months : option string) : option Z * option Z * string :=
  match match months with Some s => strptime_b_y s | None => None end with
  | Some (y, m) => (Some y, Some m, ("Q" ++ Z_to_str ((m - 1) / 3 + 1))%string)
  | None => (None, None, "Q<NA>"%string)
  end.

(** [dt.strftime("%b-%y")]: the label of a month, as the data carries it. *)
Definition cap_abbrs : list string :=
  ["Jan"; "Feb"; "Mar"; "Apr"; "May"; "Jun";
   "Jul"; "Aug"; "Sep"; "Oct"; "Nov"; "Dec"]%string.

Definition two_digits (n : Z) : string :=
  String (ascii_of_nat (48 + Z.to_nat (n / 10))) (String (ascii_of_nat (48 + Z.to_nat (n mod 10))) EmptyString).

Definition month_label (y m : Z) : string :=
  (nth (Z.to_nat (m - 1)) cap_abbrs EmptyString ++ "-" ++ two_digits (y mod 100))%string.

(* ================================================================= *)
(** ** app/routers/upload.py *)

(** A row of the uploaded file, before [prepare_time_columns]. *)
Record InRow : Type := mkInRow {
  in_dist : option Z;
  in_state : option string;
  in_months : option string;
  in_deliveries : option Q;
  in_returns : option Q;
  in_allowance : option Q;
  in_waste : option Q;
  in_dist_is_float : bool
}.

(** The row after [prepare_time_columns] ([month_only] is not read by
    any endpoint modelled here); [year_float] tells whether the column
    [year_only] is a float64 column. *)
Definition prepare_row (year_float : bool) (r : InRow) : Raw :=
  let '(y, _, q) := prepare_time (in_months r) in
  mkRaw (in_dist r) (in_state r) y q
    (in_deliveries r) (in_returns r) (in_allowance r) (in_waste r)
    (in_dist_is_float r) year_float.

(** [prepare_time_columns(df)]: [dt.year] gives a float64 column as soon
    as one month label did not parse ([NaT]). *)
Definition prepare_time_columns (rows : list InRow) : list Raw :=
  let year_float :=
    existsb (fun r => match prepare_time (in_months r) with
                      | (None, _, _) => true
                      | _ => false
                      end) rows in
  map (prepare_row year_float) rows.

(** Assigning a column that is not there appends it. *)
Definition add_col (cols : list string) (c : string) : list string :=
  if existsb (String.eqb c) cols then cols else cols ++ [c].

Definition prepare_cols (cols : list string) : list string :=
  fold_left add_col ["Month_Parsed"; "year_only"; "month_only"; "quarter"]%string cols.

Definition required_cols : list string :=
  ["Distributor ID"; "US States"; "year_only"; "quarter";
   "Deliveries_Quantity"; "Returns_Quantity";
   "Waste_Allowance_Quantity"; "Waste_Quantity_Sum"]%string.

(** [missing = [c for c in required_cols if c not in df.columns]] *)
Definition missing_cols (cols : list string) : list string :=
  filter (fun c => negb (existsb (String.eqb c) cols)) required_cols.

Fixpoint str_join (sep : string) (l : list string) : string :=
  match l with
  | [] => EmptyString
  | [x] => x
  | x :: l' => (x ++ sep ++ str_join sep l')%string
  end.

(** [str(list)] for strings without quotes or backslashes. *)
Definition py_list_repr (l : list string) : string :=
  ("[" ++ str_join ", " (map (fun s => "'" ++ s ++ "'") l) ++ "]")%string.

(** [request.app.state]: the table ([df]) with its columns, and
    [data_dist_quarter]; [None] where the attribute was never set. *)
Record AppState : Type := mkAppState {
  app_df : option (list string * list Raw);
  app_dq : option (list DQRow)
}.

(** [upload_dataset(request, file)] once the file is read, as the columns
    and rows of the table.  It returns the new state and the response:
    [message], [rows], [columns]. *)
Definition upload_dataset (st : AppState) (cols : list string) (rows : list InRow)
  : AppState * (api_error + (string * nat * list string)) :=
  if negb (existsb (String.eqb "Months") cols) then (st, inl KeyError)
  else
    let cols' := prepare_cols cols in
    let df := prepare_time_columns rows in
    match missing_cols cols' with
    | [] => (mkAppState (Some (cols', df)) (Some (build_distributor_quarter_df df)),
             inr ("Dataset uploaded successfully"%string, List.length rows, cols'))
    | ms => (mkAppState (Some (cols', df)) (app_dq st),
             inl (HTTPException 400
                    ("Distributor-quarter build failed: Missing required columns: "
                     ++ py_list_repr ms)))
    end.

(** [get_dq(request)] of app/routers/risk.py. *)
Definition get_dq (st : AppState) : api_error + list DQRow :=
  match app_dq st with
  | Some dq => inr dq
  | None => inl (HTTPException 400 "Distributor-quarter data not built")
  end.

(** The [/risk/distributor-trend] endpoint on the application state. *)
Definition distributor_trend_endpoint (st : AppState) (distributor_id : string)
  : api_error + (string * list TrendEntry) :=
  match get_dq st with
  | inl e => inl e
  | inr dq => distributor_trend dq distributor_id
  end.

(* ================================================================= *)
(** ** app/routers/inventory.py: the distributor status table *)

(** [Series.median()]: missing values skipped, [None] (NaN) when none is
    left; the mean of the two middle values for an even count. *)
Definition median (l : list (option Q)) : option Q :=
  let vs := sort_by Qcompare (col_vals l) in
  let n := List.length vs in
  match n with
  | O => None
  | _ => if Nat.odd n then Some (nth (n / 2) vs 0%Q)
         else Some ((nth (n / 2 - 1) vs 0%Q + nth (n / 2) vs 0%Q) / 2)%Q
  end.

(** [fillna(median)] on one cell. *)
Definition fill_med (o : option Q) (m : option Q) : option Q :=
  match o with Some q => Some q | None => m end.

(** [df.groupby("Distributor ID").agg(allowance=(..., "sum"),
    actual_waste=(..., "sum"))] after the median filling. *)
Definition inv_groups (df : list Raw) : list (Z * Q * Q) :=
  let ma := median (map allowance_qty df) in
  let mw := median (map waste_qty df) in
  let keyed := flat_map (fun r => match dist_id r with Some d => [(d, r)] | None => [] end) df in
  let keys := sort_by Z.compare (dedup_by Z.eqb (map fst keyed)) in
  map (fun d =>
         let rs := map snd (filter (fun x => Z.eqb (fst x) d) keyed) in
         (d, sum_skipna (map (fun r => fill_med (allowance_qty r) ma) rs),
             sum_skipna (map (fun r => fill_med (waste_qty r) mw) rs)))
      keys.

(** [dist["allowance"].replace(0, median_allowance)] on one value. *)
Definition repl0 (a : Q) (m : option Q) : ext :=
  if Qeq_bool a 0 then match m with Some q => Fin q | None => NaN end else Fin a.

(** A finite number divided by a float. *)
Definition ext_div (x : Q) (d : ext) : ext :=
  match d with
  | Fin q => ediv x q
  | PInf | NInf => Fin 0
  | NaN => NaN
  end.

Definition STATUS_MAP : list (string * string) :=
  [("High Risk", "Exceeded"); ("Risk", "At Risk"); ("Good", "OK");
   ("Very Good", "OK"); ("Not Classified", "OK")]%string.

(** One row of the response. *)
Record InvRow : Type := mkInvRow {
  inv_dist : string;
  inv_allowance : Q;
  inv_actual_waste : Q;
  inv_utilization : ext;
  inv_status : string
}.

(** [round(x, 1)] *)
Definition round1 (x : Q) : Q := Qred (Z_round_half_even (x * 10) # 10).

Definition ext_round1 (x : ext) : ext :=
  match x with Fin q => Fin (round1 q) | e => e end.

(** [utilization_pct] and [pct_from_limit] of a group. *)
Definition inv_util (ma : option Q) (g : Z * Q * Q) : ext :=
  let '(_, a, w) := g in ext_mulq (ext_div w (repl0 a ma)) 100.

Definition inv_pfl (ma : option Q) (g : Z * Q * Q) : ext :=
  let '(_, a, w) := g in ext_mulq (ext_div (w - a) (repl0 a ma)) 100.

(** [STATUS_MAP.get(distributor_status(x, np.nan), "OK")] *)
Definition inv_status_of (pfl : ext) : string :=
  match assoc_get String.eqb (status_str (distributor_status pfl NaN)) STATUS_MAP with
  | Some s => s
  | None => "OK"%string
  end.

(** The type of the grouped [Distributor ID] column: that of the key
    cells. *)
Definition inv_id_float (df : list Raw) : bool :=
  existsb dist_id_is_float (filter (fun r => match dist_id r with Some _ => true | None => false end) df).

(** One row of the response; [str] prints the id as its column holds it. *)
Definition inv_row (id_float : bool) (ma : option Q) (g : Z * Q * Q) : InvRow :=
  let '(d, a, w) := g in
  mkInvRow (cell_str id_float d) (round2 a) (round2 w) (ext_round1 (inv_util ma g))
    (inv_status_of (inv_pfl ma g)).

(** [sort_values(..., ascending=False)] on a float column: the largest
    first, NaN last. *)
Definition ext_desc_compare (x y : ext) : comparison :=
  match x, y with
  | NaN, NaN => Eq
  | NaN, _ => Gt
  | _, NaN => Lt
  | PInf, PInf => Eq
  | PInf, _ => Lt
  | _, PInf => Gt
  | NInf, NInf => Eq
  | NInf, _ => Gt
  | _, NInf => Lt
  | Fin a, Fin b => Qcompare b a
  end.

(** [distributor_status_table(request)] on the stored table.  The rows are
    sorted by utilization, largest first (numpy's sort is not stable; the
    facts below do not depend on the order of equal utilizations).  The
    response goes through [JSONResponse], whose [json.dumps(...,
    allow_nan=False)] raises [ValueError] on a NaN or an infinity. *)
Definition distributor_status_table (df : list Raw) : api_error + list InvRow :=
  let ma := median (map allowance_qty df) in
  let groups := sort_by (fun g h => ext_desc_compare (inv_util ma g) (inv_util ma h))
                        (inv_groups df) in
  let rows := map (inv_row (inv_id_float df) ma) groups in
  if forallb (fun r => is_finite (inv_utilization r)) rows then inr rows
  else inl ValueError.

(** [month_label] read back by [prepare_time] gives its year and month. *)
Definition label_roundtrip_ok (y m : Z) : bool :=
  match prepare_time (Some (month_label y m)) with
  | (Some y', Some m', q) =>
      Z.eqb y' y && Z.eqb m' m && String.eqb q ("Q" ++ Z_to_str ((m - 1) / 3 + 1))%string
  | _ => false
  end.

(* ================================================================= *)
(** ** app/routers/risk.py: [top_risky_distributors] *)

(** One entry of the [/risk/top-risky] response. *)
Record TopEntry : Type := mkTop {
  top_dist : Z;
  top_state : string;
  top_risk_pct : ext;
  top_status : string
}.

Definition top_entry (r : DQRow) : TopEntry :=
  mkTop (dq_dist r) (dq_state r) (ext_round1 (pct_from_limit r)) (status_str (dq_status r)).

(** [sort_values("pct_from_limit", ascending=False)]: largest first, NaN
    last. *)
Definition pfl_desc (r1 r2 : DQRow) : comparison :=
  ext_desc_compare (pct_from_limit r1) (pct_from_limit r2).

(** The response built from the table once sorted: [.head(5)]. *)
Definition top_risky_from (sorted : list DQRow) : list TopEntry :=
  map top_entry (firstn 5 sorted).

(** [top_risky_distributors(request)] on the stored table; numpy's sort
    is not stable, so the facts below are stated for every ordering by
    descending [pct_from_limit], this stable one included. *)
Definition top_risky_distributors (dq : list DQRow) : list TopEntry :=
  top_risky_from (sort_by pfl_desc dq).

(* ================================================================= *)
(** ** app/routers/risk.py: the distributor risk of [risk_overview] *)

(** IEEE addition. *)
Definition ext_add (x y : ext) : ext :=
  match x, y with
  | Fin a, Fin b => Fin (a + b)
  | NaN, _ | _, NaN => NaN
  | PInf, NInf | NInf, PInf => NaN
  | PInf, _ | _, PInf => PInf
  | NInf, _ | _, NInf => NInf
  end.

(** [Series.mean()]: NaN skipped, NaN when nothing is left. *)
Definition ext_mean (l : list ext) : ext :=
  let vs := filter (fun x => negb (isna x)) l in
  match vs with
  | [] => NaN
  | _ => ext_mulq (fold_left ext_add vs (Fin 0)) (1 # Pos.of_nat (List.length vs))
  end.

(** [Series.clip(lower=lo, upper=hi)]; NaN stays NaN. *)
Definition ext_clip (x : ext) (lo hi : Q) : ext :=
  match x with
  | Fin q => Fin (if Qltb q lo then lo else if Qltb hi q then hi else q)
  | PInf => Fin hi
  | NInf => Fin lo
  | NaN => NaN
  end.

(** A row of [dist_risk]. *)
Record RiskGroup : Type := mkRiskGroup {
  rg_dist : Z;
  rg_state : string;
  rg_total_waste : Q;
  rg_avg_pct_from_limit : ext
}.

(** [dq[dq["year_only"].isin(year)]] when [year] is a non-empty list
    (of integers, so ["All Years"] is never in it). *)
Definition year_filter (years : list Z) (dq : list DQRow) : list DQRow :=
  match years with
  | [] => dq
  | _ => filter (fun r => existsb (Z.eqb (dq_year r)) years) dq
  end.

(** [dq.groupby(["Distributor ID", "US States"]).agg(total_waste=("total_waste",
    "sum"), avg_pct_from_limit=("pct_from_limit", "mean"))]. *)
Definition dist_risk (dq : list DQRow) : list RiskGroup :=
  let keys := sort_by ds_key_compare
                (dedup_by ds_key_eqb (map (fun r => (dq_dist r, dq_state r)) dq)) in
  map (fun k =>
         let rs := filter (fun r => ds_key_eqb k (dq_dist r, dq_state r)) dq in
         mkRiskGroup (fst k) (snd k)
           (sum_skipna (map (fun r => Some (total_waste r)) rs))
           (ext_mean (map pct_from_limit rs)))
      keys.

(** [risk_pct = avg_pct_from_limit.clip(lower=0, upper=100).round(1)] *)
Definition risk_pct (g : RiskGroup) : ext :=
  ext_round1 (ext_clip (rg_avg_pct_from_limit g) 0 100).

(** [np.where(risk_pct >= 80, "High Risk", np.where(risk_pct >= 60, "Risk", "OK"))] *)
Definition overview_status (p : ext) : string :=
  if ext_geq p 80 then "High Risk"
  else if ext_geq p 60 then "Risk" else "OK".

(** One entry of [high_risk_distributors]. *)
Record HighRiskEntry : Type := mkHighRisk {
  hr_dist : Z;
  hr_state : string;
  hr_risk_pct : ext;
  hr_status : string
}.

Definition high_risk_entry (g : RiskGroup) : HighRiskEntry :=
  mkHighRisk (rg_dist g) (rg_state g) (risk_pct g) (overview_status (risk_pct g)).

(** [sort_values("risk_pct", ascending=False)] *)
Definition risk_pct_desc (g h : RiskGroup) : comparison :=
  ext_desc_compare (risk_pct g) (risk_pct h).

(** [high_risk_distributors] from [dist_risk] once sorted: [.head(5)]. *)
Definition high_risk_from (sorted : list RiskGroup) : list HighRiskEntry :=
  map high_risk_entry (firstn 5 sorted).

(** The [high_risk_distributors] field of [risk_overview(request, year,
    ...)] on the stored distributor-quarter table (only the year filter
    applies to it); numpy's sort is not stable, so the facts below are
    stated for every ordering by descending [risk_pct]. *)
Definition overview_high_risk (dq : list DQRow) (years : list Z) : list HighRiskEntry :=
  high_risk_from (sort_by risk_pct_desc (dist_risk (year_filter years dq))).

(* ================================================================= *)
(** ** app/routers/inventory.py: [inventory_overview] *)

(** [pd.to_numeric(..., errors="coerce").fillna(0)] on one cell. *)
Definition fill0 (o : option Q) : Q :=
  match o with Some q => q | None => 0%Q end.

Definition col_sum0 (f : Raw -> option Q) (rs : list Raw) : Q :=
  sum_skipna (map (fun r => Some (fill0 (f r))) rs).

(** [df.groupby("US States").agg(waste=..., allowance=...)]: the states
    (missing ones dropped, sorted) with their summed waste and allowance. *)
Definition state_risk (df : list Raw) : list (string * Q * Q) :=
  let keys := sort_by str_compare
                (dedup_by String.eqb (flat_map (fun r => match us_state r with
                                                         | Some s => [s] | None => [] end) df)) in
  map (fun s =>
         let rs := filter (fun r => match us_state r with
                                    | Some s' => String.eqb s' s | None => false end) df in
         (s, col_sum0 waste_qty rs, col_sum0 allowance_qty rs))
      keys.

(** [usage_pct = waste / allowance.replace(0, np.nan) * 100] *)
Definition state_usage (g : string * Q * Q) : ext :=
  let '(_, w, a) := g in
  ext_mulq (ext_div w (if Qeq_bool a 0 then NaN else Fin a)) 100.

Record InvOverview : Type := mkInvOverview {
  ov_total_waste : Q;
  ov_total_allowance : Q;
  ov_utilization_rate : Q;
  ov_high_risk_states : nat
}.

(** [inventory_overview(request)], the computed values of the response
    (the [change_pct] and [change] fields are constants). *)
Definition inventory_overview (df : list Raw) : InvOverview :=
  let total_waste := col_sum0 waste_qty df in
  let total_allowance := col_sum0 allowance_qty df in
  let utilization_pct :=
    if Qltb 0 total_allowance then (total_waste / total_allowance * 100)%Q else 0%Q in
  mkInvOverview (round2 total_waste) (round2 total_allowance) (round1 utilization_pct)
    (List.length (filter (fun g => ext_geq (state_usage g) 80) (state_risk df))).

(* ================================================================= *)
(** * Properties *)

(** ** The stable sort permutes its input *)

Section SortFacts.
Context {A : Type} (cmp : A -> A -> comparison).

Lemma insert_by_perm (x : A) (l : list A) : Permutation (insert_by cmp x l) (x :: l).
Proof.
  induction l as [|y ys IH]; simpl; [reflexivity|].
  destruct (cmp x y); try reflexivity;
    rewrite IH; apply perm_swap.
Qed.

Lemma sort_by_go_perm (l acc : list A) :
  Permutation (fold_left (fun acc x => insert_by cmp x acc) l acc) (l ++ acc).
Proof.
  revert acc; induction l as [|x xs IH]; intros acc; simpl; [reflexivity|].
  rewrite IH, insert_by_perm. symmetry. apply Permutation_middle.
Qed.

Lemma sort_by_perm (l : list A) : Permutation (sort_by cmp l) l.
Proof. unfold sort_by. rewrite sort_by_go_perm, app_nil_r. reflexivity. Qed.
End SortFacts.

(** ** Column operations *)

Lemma np_where_map {A B : Type} (f : A -> bool) (g h : A -> B) (l : list A) :
  np_where (map f l) (map g l) (map h l) = map (fun a => if f a then g a else h a) l.
Proof. induction l as [|a l IH]; simpl; [reflexivity|]. now rewrite IH. Qed.

Lemma combine_map_r {A B : Type} (f : A -> B) (l : list A) :
  combine l (map f l) = map (fun a => (a, f a)) l.
Proof. induction l as [|a l IH]; simpl; [reflexivity|]. now rewrite IH. Qed.

Lemma pct_from_limit_col_map (g : list Agg) : pct_from_limit_col g = map pfl_of g.
Proof.
  unfold pct_from_limit_col, limit_conds, limit_quotients, pfl_of.
  rewrite np_where_map, map_map. reflexivity.
Qed.

Lemma pct_change_go_in (seen : list (Z * Q)) (l : list (Agg * ext)) a p c :
  In (a, p, c) (pct_change_go seen l) -> In (a, p) l.
Proof.
  revert seen; induction l as [|[a' p'] l IH]; intros seen H; simpl in *; [contradiction|].
  destruct H as [H|H]; [inversion H; subst; now left | right; eapply IH; eauto].
Qed.

(** Every row of the built table carries [pfl_of] of its own totals. *)
Lemma build_row_pfl (rows : list Raw) (r : DQRow) :
  In r (build_distributor_quarter_df rows) ->
  exists a c, pct_from_limit r = pfl_of a /\
    dq_dist r = a_dist a /\ dq_state r = a_state a /\ dq_year r = a_year a /\
    dq_quarter r = a_quarter a /\
    total_waste r = a_total_waste a /\
    total_waste_allowance r = a_total_waste_allowance a /\
    pct_change_Wastes_from_last_quarter r = c /\
    dq_status r = distributor_status (pfl_of a) c.
Proof.
  unfold build_distributor_quarter_df. intros H.
  apply in_map_iff in H as [[[a p] c] [<- Hin]].
  apply pct_change_go_in in Hin.
  apply (Permutation_in _ (sort_by_perm _ _)) in Hin.
  rewrite pct_from_limit_col_map, combine_map_r in Hin.
  apply in_map_iff in Hin as [a' [Heq _]]. injection Heq as Ha Hp; subst a p.
  exists a', c; simpl; repeat split.
Qed.

Lemma pfl_of_value (a : Agg) :
  pfl_of a =
  if Qeq_bool (a_total_waste_allowance a) 0 || Qeq_bool (a_total_waste a) 0 then Fin 0
  else Fin (round2 (((a_total_waste a - a_total_waste_allowance a)
                     / a_total_waste_allowance a) * 100)).
Proof.
  unfold pfl_of.
  destruct (Qeq_bool (a_total_waste_allowance a) 0) eqn:E; simpl; [reflexivity|].
  destruct (Qeq_bool (a_total_waste a) 0); simpl; [reflexivity|].
  unfold ediv; rewrite E; reflexivity.
Qed.

(* ================================================================= *)
(** ** Claims about the distributor-quarter table and the classifier *)

(** C1 (as amended).  For every row of the table built by
    [build_distributor_quarter_df], [pct_from_limit] is 0 when the rounded
    total allowance or the rounded total waste is 0, and otherwise the
    rounded value of [((waste - allowance) / allowance) * 100]; in both cases
    it is a finite number. *)
Theorem pct_from_limit_rule (rows : list Raw) (r : DQRow)
  (Hin : In r (build_distributor_quarter_df rows)) :
  pct_from_limit r =
  if Qeq_bool (total_waste_allowance r) 0 || Qeq_bool (total_waste r) 0 then Fin 0
  else Fin (round2 (((total_waste r - total_waste_allowance r)
                     / total_waste_allowance r) * 100)).
Proof.
  destruct (build_row_pfl rows r Hin) as (a & c & Hp & _ & _ & _ & _ & Hw & Hl & _).
  rewrite Hp, Hw, Hl. apply pfl_of_value.
Qed.

Lemma pct_from_limit_rule_witness :
  In (hd (mkDQ 0 EmptyString 0 EmptyString 0 0 0 0 NaN NaN NotClassified false false)
          (build_distributor_quarter_df ex_zero_allowance))
     (build_distributor_quarter_df ex_zero_allowance) /\
  pct_from_limit (hd (mkDQ 0 EmptyString 0 EmptyString 0 0 0 0 NaN NaN NotClassified false false)
          (build_distributor_quarter_df ex_zero_allowance)) = Fin 0.
Proof.
  split; [vm_compute; left; reflexivity|].
  rewrite (pct_from_limit_rule ex_zero_allowance); [vm_compute; reflexivity|].
  vm_compute; left; reflexivity.
Defined.

(** C1 counterexample.  The claim says the division is never performed
    when the allowance is zero.  numpy evaluates the whole quotient column
    [((spoil - limit) / limit) * 100] before [np.where] selects, so for a
    group whose allowance is 0 the division by 0 is evaluated (giving an
    infinity) and then discarded. *)
Lemma pct_from_limit_divides_by_zero :
  map a_total_waste_allowance (aggregate ex_zero_allowance) = [0%Q] /\
  limit_quotients (aggregate ex_zero_allowance) = [PInf] /\
  map pct_from_limit (build_distributor_quarter_df ex_zero_allowance) = [Fin 0].
Proof. vm_compute. repeat split. Qed.

(** C2.  [distributor_status] follows the two-tier rule: when
    [pct_from_limit] is defined (not NaN) only tier 1 decides, regardless of
    [pct_change]; otherwise tier 2 decides on a defined [pct_change]; only
    when both are NaN the result is NotClassified.  The result is always
    one of the five statuses. *)
Theorem distributor_status_two_tier (p c : ext) :
  distributor_status p c = spec_status p c /\ In (distributor_status p c) all_statuses.
Proof.
  split.
  - unfold distributor_status, spec_status.
    destruct p as [q| | |]; simpl.
    + unfold spec_tier1, Qltb.
      destruct (Qle_bool 120 q) eqn:E1; [reflexivity|].
      destruct (Qle_bool 100 q) eqn:E2; simpl; [reflexivity|].
      reflexivity.
    + reflexivity.
    + reflexivity.
    + destruct c as [q| | |]; reflexivity.
  - unfold all_statuses; destruct (distributor_status p c); simpl; tauto.
Qed.

(** C10.  Every row of the built table has a defined [pct_from_limit], so
    its status is decided by tier 1 alone: it is the same whatever the
    trend value, and it is never NotClassified. *)
Theorem dq_status_tier1_only (rows : list Raw) (r : DQRow)
  (Hin : In r (build_distributor_quarter_df rows)) :
  isna (pct_from_limit r) = false /\
  (forall c, dq_status r = distributor_status (pct_from_limit r) c) /\
  dq_status r <> NotClassified.
Proof.
  destruct (build_row_pfl rows r Hin) as (a & c & Hp & _ & _ & _ & _ & _ & _ & _ & Hs).
  assert (Hf : exists q, pfl_of a = Fin q).
  { rewrite pfl_of_value. destruct (_ || _); eauto. }
  destruct Hf as [q Hq].
  rewrite Hs, Hp, Hq. split; [reflexivity|split; [reflexivity|]].
  unfold distributor_status; simpl.
  repeat match goal with |- context [if ?b then _ else _] => destruct b end;
    discriminate.
Qed.

Lemma dq_status_tier1_only_witness :
  In (hd (mkDQ 0 EmptyString 0 EmptyString 0 0 0 0 NaN NaN NotClassified false false)
          (build_distributor_quarter_df ex_zero_allowance))
     (build_distributor_quarter_df ex_zero_allowance) /\
  dq_status (hd (mkDQ 0 EmptyString 0 EmptyString 0 0 0 0 NaN NaN NotClassified false false)
          (build_distributor_quarter_df ex_zero_allowance)) <> NotClassified.
Proof.
  split; [vm_compute; left; reflexivity|].
  apply (dq_status_tier1_only ex_zero_allowance). vm_compute; left; reflexivity.
Defined.

(* ================================================================= *)
(** ** Orders: comparison functions and strongly sorted lists *)

Lemma cmp_good_Z {A : Type} (f : A -> Z) : cmp_good (fun x y => Z.compare (f x) (f y)).
Proof.
  split; [|split].
  - intros x y. apply Z.compare_antisym.
  - intros x y z H. apply Z.compare_eq_iff in H. now rewrite H.
  - intros x y z H1 H2. rewrite Z.compare_lt_iff in *. lia.
Qed.

Lemma str_compare_antisym (a b : string) : str_compare b a = CompOpp (str_compare a b).
Proof.
  unfold str_compare.
  pose proof String_as_OT.lt_strorder as [Hirr Htr].
  destruct (String_as_OT.compare_spec a b) as [H|H|H];
    destruct (String_as_OT.compare_spec b a) as [H'|H'|H']; simpl; try reflexivity;
    exfalso; unfold String_as_OT.eq in *; subst;
    first [ now apply (Hirr b) | now apply (Hirr a)
          | apply (Hirr a); eapply Htr; eassumption ].
Qed.

Lemma cmp_good_str {A : Type} (f : A -> string) :
  cmp_good (fun x y => str_compare (f x) (f y)).
Proof.
  pose proof String_as_OT.lt_strorder as [Hirr Htr].
  split; [|split].
  - intros x y. apply str_compare_antisym.
  - intros x y z H. unfold str_compare in *.
    destruct (String_as_OT.compare_spec (f x) (f y)) as [E|E|E]; try discriminate.
    now rewrite E.
  - intros x y z H1 H2. unfold str_compare in *.
    destruct (String_as_OT.compare_spec (f x) (f y)) as [E|E|E]; try discriminate.
    destruct (String_as_OT.compare_spec (f y) (f z)) as [E'|E'|E']; try discriminate.
    destruct (String_as_OT.compare_spec (f x) (f z)) as [E''|E''|E'']; try reflexivity;
      exfalso.
    + rewrite E'' in E. apply (Hirr (f z)). eapply Htr; eassumption.
    + apply (Hirr (f x)). eapply Htr; [eassumption|]. eapply Htr; eassumption.
Qed.

Lemma cmp_good_lex {A : Type} (c1 c2 : A -> A -> comparison) :
  cmp_good c1 -> cmp_good c2 -> cmp_good (fun x y => lex (c1 x y) (c2 x y)).
Proof.
  intros [A1 [E1 T1]] [A2 [E2 T2]]. split; [|split].
  - intros x y; cbv beta. rewrite (A1 x y), (A2 x y). unfold lex.
    destruct (c1 x y); reflexivity.
  - intros x y z; cbv beta. unfold lex. destruct (c1 x y) eqn:H; try discriminate.
    intros H2. rewrite (E1 _ _ z H), (E2 _ _ z H2). reflexivity.
  - intros x y z; cbv beta. unfold lex.
    destruct (c1 x y) eqn:Hxy; try discriminate; destruct (c1 y z) eqn:Hyz; try discriminate.
    + rewrite (E1 _ _ z Hxy), Hyz. apply T2.
    + rewrite (E1 _ _ z Hxy), Hyz. reflexivity.
    + intros _ _. rewrite (A1 z x). rewrite <- (E1 _ _ x Hyz), <- (A1 y x), Hxy. reflexivity.
    + intros _ _. rewrite (T1 _ _ _ Hxy Hyz). reflexivity.
Qed.

Section SortedFacts.
Context {A : Type} (cmp : A -> A -> comparison) (Hg : cmp_good cmp).

Lemma cmp_le_trans (x y z : A) : cmp_le cmp x y -> cmp_le cmp y z -> cmp_le cmp x z.
Proof.
  destruct Hg as [Ha [He Ht]]. unfold cmp_le.
  intros H1 H2.
  destruct (cmp x y) eqn:Hxy; try congruence;
    destruct (cmp y z) eqn:Hyz; try congruence.
  - rewrite (He _ _ z Hxy), Hyz. discriminate.
  - rewrite (He _ _ z Hxy), Hyz. discriminate.
  - rewrite (Ha z x), <- (He _ _ x Hyz), <- (Ha y x), Hxy. discriminate.
  - rewrite (Ht _ _ _ Hxy Hyz). discriminate.
Qed.

Lemma cmp_le_flip (x y : A) : cmp x y <> Lt -> cmp_le cmp y x.
Proof.
  destruct Hg as [Ha _]. unfold cmp_le. rewrite (Ha y x).
  destruct (cmp y x); simpl; congruence.
Qed.

Lemma insert_by_sorted (x : A) (l : list A) :
  StronglySorted (cmp_le cmp) l -> StronglySorted (cmp_le cmp) (insert_by cmp x l).
Proof.
  induction l as [|y ys IH]; intros Hs; simpl.
  - constructor; constructor.
  - apply StronglySorted_inv in Hs as [Hs Hf].
    destruct (cmp x y) eqn:Hxy.
    + constructor; [apply IH, Hs|].
      apply Forall_forall; intros z Hz.
      apply (Permutation_in _ (insert_by_perm cmp x ys)) in Hz as [<-|Hz].
      * apply cmp_le_flip. congruence.
      * rewrite Forall_forall in Hf. now apply Hf.
    + constructor; [constructor; assumption|].
      constructor; [unfold cmp_le; congruence|].
      rewrite Forall_forall in *. intros z Hz.
      apply (cmp_le_trans x y z); [unfold cmp_le; congruence|]. now apply Hf.
    + constructor; [apply IH, Hs|].
      apply Forall_forall; intros z Hz.
      apply (Permutation_in _ (insert_by_perm cmp x ys)) in Hz as [<-|Hz].
      * apply cmp_le_flip. congruence.
      * rewrite Forall_forall in Hf. now apply Hf.
Qed.

Lemma sort_by_sorted (l : list A) : StronglySorted (cmp_le cmp) (sort_by cmp l).
Proof.
  unfold sort_by.
  assert (G : forall acc, StronglySorted (cmp_le cmp) acc ->
            StronglySorted (cmp_le cmp) (fold_left (fun acc x => insert_by cmp x acc) l acc)).
  { induction l as [|x xs IH]; intros acc Hacc; simpl; [assumption|].
    apply IH, insert_by_sorted, Hacc. }
  apply G. constructor.
Qed.

Lemma insert_by_last (x : A) (acc : list A) :
  Forall (fun y => cmp_le cmp y x) acc -> insert_by cmp x acc = acc ++ [x].
Proof.
  destruct Hg as [Ha _].
  induction acc as [|y ys IH]; intros Hf; simpl; [reflexivity|].
  inversion Hf as [|? ? Hyx Hys]; subst.
  destruct (cmp x y) eqn:Hxy.
  - now rewrite IH.
  - exfalso. apply Hyx. rewrite (Ha x y), Hxy. reflexivity.
  - now rewrite IH.
Qed.

Lemma sorted_app_cons_forall (acc l : list A) (x : A) :
  StronglySorted (cmp_le cmp) (acc ++ x :: l) -> Forall (fun y => cmp_le cmp y x) acc.
Proof.
  induction acc as [|y ys IH]; intros Hs; simpl in *; [constructor|].
  apply StronglySorted_inv in Hs as [Hs Hf]. constructor; [|now apply IH].
  rewrite Forall_forall in Hf. apply Hf, in_or_app. right; now left.
Qed.

(** The stable sort leaves an already sorted list unchanged. *)
Lemma sort_by_sorted_id (l : list A) :
  StronglySorted (cmp_le cmp) l -> sort_by cmp l = l.
Proof.
  unfold sort_by.
  assert (G : forall l acc, StronglySorted (cmp_le cmp) (acc ++ l) ->
            fold_left (fun acc x => insert_by cmp x acc) l acc = acc ++ l).
  { induction l0 as [|x xs IH]; intros acc Hs; simpl; [now rewrite app_nil_r|].
    rewrite insert_by_last by (eapply sorted_app_cons_forall; eassumption).
    rewrite IH; [now rewrite <- app_assoc|]. now rewrite <- app_assoc. }
  intros Hs. apply (G l []). exact Hs.
Qed.
End SortedFacts.

Lemma StronglySorted_map {A B : Type} (R : B -> B -> Prop) (f : A -> B) (l : list A) :
  StronglySorted (fun x y => R (f x) (f y)) l -> StronglySorted R (map f l).
Proof.
  induction l as [|a l IH]; intros Hs; simpl; [constructor|].
  apply StronglySorted_inv in Hs as [Hs Hf]. constructor; [now apply IH|].
  apply Forall_map. exact Hf.
Qed.

Lemma StronglySorted_map_inv {A B : Type} (R : B -> B -> Prop) (f : A -> B) (l : list A) :
  StronglySorted R (map f l) -> StronglySorted (fun x y => R (f x) (f y)) l.
Proof.
  induction l as [|a l IH]; intros Hs; simpl in *; [constructor|].
  apply StronglySorted_inv in Hs as [Hs Hf]. constructor; [now apply IH|].
  rewrite Forall_map in Hf. exact Hf.
Qed.

Lemma StronglySorted_impl {A : Type} (R R' : A -> A -> Prop) (l : list A) :
  (forall x y, R x y -> R' x y) -> StronglySorted R l -> StronglySorted R' l.
Proof.
  intros Himp. induction l as [|a l IH]; intros Hs; [constructor|].
  apply StronglySorted_inv in Hs as [Hs Hf]. constructor; [now apply IH|].
  eapply Forall_impl; [|exact Hf]. exact (Himp a).
Qed.

(** Filtering keeps a list sorted, also for a relation that only holds
    between the elements the filter keeps. *)
Lemma StronglySorted_filter {A : Type} (R R' : A -> A -> Prop) (f : A -> bool) (l : list A) :
  (forall x y, f x = true -> f y = true -> R x y -> R' x y) ->
  StronglySorted R l -> StronglySorted R' (filter f l).
Proof.
  intros Himp. induction l as [|a l IH]; intros Hs; simpl; [constructor|].
  apply StronglySorted_inv in Hs as [Hs Hf].
  destruct (f a) eqn:Ha; [|now apply IH].
  constructor; [now apply IH|].
  apply Forall_forall. intros y Hy. apply filter_In in Hy as [Hy Hfy].
  apply Himp; try assumption. rewrite Forall_forall in Hf. now apply Hf.
Qed.

(* ================================================================= *)
(** ** Printing integers is injective *)

Lemma str_of_uint_inj (u v : Decimal.uint) : str_of_uint u = str_of_uint v -> u = v.
Proof.
  revert v; induction u; destruct v; simpl; intros H; try discriminate; try reflexivity;
    injection H as H; f_equal; auto.
Qed.

Lemma Z_to_str_inj (a b : Z) : Z_to_str a = Z_to_str b -> a = b.
Proof.
  unfold Z_to_str. intros H.
  rewrite <- (DecimalZ.of_to a), <- (DecimalZ.of_to b). f_equal.
  destruct (Z.to_int a) as [u|u], (Z.to_int b) as [v|v].
  - now rewrite (str_of_uint_inj u v H).
  - destruct u; discriminate.
  - destruct v; discriminate.
  - injection H as H. now rewrite (str_of_uint_inj u v H).
Qed.

Lemma str_of_uint_no_dot (u : Decimal.uint) :
  ~ In "."%char (list_ascii_of_string (str_of_uint u)).
Proof. induction u; cbn; [tauto|..]; intros [H|H]; try discriminate H; tauto. Qed.

Lemma Z_to_str_no_dot (z : Z) : ~ In "."%char (list_ascii_of_string (Z_to_str z)).
Proof.
  unfold Z_to_str. destruct (Z.to_int z) as [u|u]; [apply str_of_uint_no_dot|].
  cbn. intros [H|H]; [discriminate H|exact (str_of_uint_no_dot u H)].
Qed.

Lemma list_ascii_of_string_app' (a b : string) :
  list_ascii_of_string (a ++ b) = list_ascii_of_string a ++ list_ascii_of_string b.
Proof. induction a as [|c a IH]; cbn; [reflexivity|now rewrite IH]. Qed.

Lemma round_to_double_small (a : Z) : 0 <= a < 2 ^ 53 -> round_to_double a = Some a.
Proof.
  intros H. unfold round_to_double.
  destruct (Z.eqb_spec a 0) as [->|Ha]; [reflexivity|].
  assert (Hl : Z.log2 a < 53) by (apply Z.log2_lt_pow2; lia).
  now replace (Z.log2 a + 1 <=? 53) with true by (symmetry; apply Z.leb_le; lia).
Qed.

(** Below [2^53] a float64 cell prints its integer followed by [".0"]. *)
Lemma py_float_str_small (z : Z) : Z.abs z < 2 ^ 53 -> py_float_str z = (Z_to_str z ++ ".0")%string.
Proof.
  intros H. destruct z as [|p|p]; [reflexivity| |];
    cbn [py_float_str]; rewrite round_to_double_small by (cbn [Z.abs] in H; lia);
    unfold repr_int_double;
    (replace (Z.pos p <? 10 ^ 16) with true by (symmetry; apply Z.ltb_lt; cbn [Z.abs] in H; lia));
    reflexivity.
Qed.

(** Integer and float cells below [2^53] print differently unless they
    hold the same value. *)
Lemma cell_str_inj (b1 b2 : bool) (z1 z2 : Z) :
  (b1 = true -> Z.abs z1 < 2 ^ 53) -> (b2 = true -> Z.abs z2 < 2 ^ 53) ->
  cell_str b1 z1 = cell_str b2 z2 -> z1 = z2.
Proof.
  intros H1 H2. unfold cell_str.
  assert (Hdot : forall x y, (Z_to_str x ++ ".0")%string <> Z_to_str y).
  { intros x y E. apply (Z_to_str_no_dot y). rewrite <- E, list_ascii_of_string_app'.
    apply in_or_app. right. now left. }
  destruct b1, b2;
    [rewrite (py_float_str_small z1 (H1 eq_refl)), (py_float_str_small z2 (H2 eq_refl))
    |rewrite (py_float_str_small z1 (H1 eq_refl))
    |rewrite (py_float_str_small z2 (H2 eq_refl))
    |]; intros E.
  - apply Z_to_str_inj.
    apply (f_equal list_ascii_of_string) in E. rewrite !list_ascii_of_string_app' in E.
    apply app_inv_tail in E.
    rewrite <- (string_of_list_ascii_of_string (Z_to_str z1)), E.
    apply string_of_list_ascii_of_string.
  - exfalso. exact (Hdot _ _ E).
  - exfalso. exact (Hdot _ _ (eq_sym E)).
  - now apply Z_to_str_inj.
Qed.

(* ================================================================= *)
(** ** Quarter-over-quarter change, one distributor at a time *)

Lemma pct_change_go_fst (seen : list (Z * Q)) (l : list (Agg * ext)) :
  map fst (pct_change_go seen l) = l.
Proof.
  revert seen; induction l as [|[a p] l IH]; intros seen; simpl; [reflexivity|].
  now rewrite IH.
Qed.






Lemma dq_compare_finish (fd fy : bool) (x y : Agg * ext * ext) :
  dq_compare (finish_row fd fy x) (finish_row fd fy y) = dyq_compare (fst x) (fst y).
Proof. destruct x as [[a p] c], y as [[b q] e]. reflexivity. Qed.

Lemma dyq_compare_good : cmp_good dyq_compare.
Proof.
  apply (cmp_good_lex (fun x y => Z.compare (a_dist (fst x)) (a_dist (fst y)))
           (fun x y => lex (Z.compare (a_year (fst x)) (a_year (fst y)))
                         (str_compare (a_quarter (fst x)) (a_quarter (fst y))))).
  - apply (cmp_good_Z (fun x => a_dist (fst x))).
  - apply cmp_good_lex; [apply (cmp_good_Z (fun x => a_year (fst x)))
                        | apply (cmp_good_str (fun x => a_quarter (fst x)))].
Qed.

Lemma yq_compare_good : cmp_good yq_compare.
Proof.
  apply (cmp_good_lex (fun x y => Z.compare (dq_year x) (dq_year y))
                      (fun x y => str_compare (dq_quarter x) (dq_quarter y))).
  - apply cmp_good_Z.
  - apply cmp_good_str.
Qed.


Lemma build_sorted (rows : list Raw) :
  StronglySorted (cmp_le dq_compare) (build_distributor_quarter_df rows).
Proof.
  unfold build_distributor_quarter_df.
  apply StronglySorted_map.
  apply (StronglySorted_impl (fun x y => cmp_le dyq_compare (fst x) (fst y))).
  - intros x y. unfold cmp_le. now rewrite dq_compare_finish.
  - apply (StronglySorted_map_inv (cmp_le dyq_compare) fst).
    rewrite pct_change_go_fst. apply sort_by_sorted, dyq_compare_good.
Qed.

Lemma Z_to_str_eqb (a d : Z) : String.eqb (Z_to_str a) (Z_to_str d) = Z.eqb a d.
Proof.
  destruct (String.eqb_spec (Z_to_str a) (Z_to_str d)) as [H|H].
  - apply Z_to_str_inj in H. subst. now rewrite Z.eqb_refl.
  - destruct (Z.eqb_spec a d) as [->|]; [now exfalso|reflexivity].
Qed.

Lemma build_flags (rows : list Raw) (r : DQRow) :
  In r (build_distributor_quarter_df rows) ->
  dq_dist_is_float r = dist_col_float rows /\ dq_year_is_float r = year_col_float rows.
Proof.
  unfold build_distributor_quarter_df. intros H.
  apply in_map_iff in H as [[[a p] c] [<- _]]. now split.
Qed.

(** On a built table whose float ids are below [2^53], two rows print the
    same id exactly when they hold the same one. *)
Lemma dq_id_str_eqb (rows : list Raw)
  (Hb : forall r, In r (build_distributor_quarter_df rows) ->
          dq_dist_is_float r = true -> Z.abs (dq_dist r) < 2 ^ 53)
  (r1 r2 : DQRow) :
  In r1 (build_distributor_quarter_df rows) -> In r2 (build_distributor_quarter_df rows) ->
  String.eqb (dq_id_str r1) (dq_id_str r2) = Z.eqb (dq_dist r1) (dq_dist r2).
Proof.
  intros H1 H2. unfold dq_id_str.
  destruct (String.eqb_spec (cell_str (dq_dist_is_float r1) (dq_dist r1))
                            (cell_str (dq_dist_is_float r2) (dq_dist r2))) as [E|E].
  - apply cell_str_inj in E; [|now apply Hb|now apply Hb]. symmetry. now apply Z.eqb_eq.
  - destruct (Z.eqb_spec (dq_dist r1) (dq_dist r2)) as [Ed|]; [|reflexivity].
    exfalso. apply E. rewrite Ed, (proj1 (build_flags rows r1 H1)), (proj1 (build_flags rows r2 H2)).
    reflexivity.
Qed.

Lemma te_is_inf_entry (r : DQRow) :
  te_is_inf (trend_entry r) = ext_is_inf (pct_change_Wastes_from_last_quarter r).
Proof. unfold te_is_inf, trend_entry. now destruct (pct_change_Wastes_from_last_quarter r). Qed.




(* ================================================================= *)
(** ** Claims about the quarter comparison *)

(** C4 (code defect).  With identical quarter labels and two selected
    distributors that both have a row in that quarter, the response holds
    a single entry, built from the first matching row of the table; the
    second distributor is missing. *)
Theorem quarter_same_label_single_entry :
  map dq_dist (build_distributor_quarter_df ex_two_distributors) = [1; 2] /\
  map dq_quarter (build_distributor_quarter_df ex_two_distributors) = ["Q1"; "Q1"]%string /\
  quarter_comparison (build_distributor_quarter_df ex_two_distributors)
    "TX" "2022 Q1" "2022 Q1" "1" (Some "2"%string) =
  inr (mkQCResponse (Some ("TX", "2022 Q1", "2022 Q1")%string)
         [mkQCEntry 1 8 8 0 "➖" "Very Good → Very Good"]).
Proof. vm_compute. repeat split. Qed.

(** C5.  A state filter that matches no row fails with a 404; with two
    distinct (and parseable) quarter labels, an empty outer join of the two
    quarter subsets gives the empty comparison instead of an error. *)
Theorem quarter_comparison_errors (dq : list DQRow) (state qa qb d1 : string)
  (d2 : option string) :
  (state_rows dq state = [] ->
   quarter_comparison dq state qa qb d1 d2 =
   inl (HTTPException 404 "No data for selected state")) /\
  (forall p1 p2,
   state_rows dq state <> [] -> String.eqb qa qb = false ->
   parse_quarter qa = Some p1 -> parse_quarter qb = Some p2 ->
   outer_merge (qc_subset (state_rows dq state) p1 (qc_distributors d1 d2))
               (qc_subset (state_rows dq state) p2 (qc_distributors d1 d2)) = [] ->
   quarter_comparison dq state qa qb d1 d2 = inr qc_empty).
Proof.
  split.
  - intros H. unfold quarter_comparison. now rewrite H.
  - intros p1 p2 Hne Hq H1 H2 Hm. unfold quarter_comparison.
    destruct (state_rows dq state) as [|r rest] eqn:Hs; [now exfalso|].
    rewrite H1, H2, Hq. cbv zeta. rewrite Hm. reflexivity.
Qed.

(* ================================================================= *)
(** ** Alert deduplication and summary *)

Lemma priority_desc_good : cmp_good priority_desc.
Proof.
  unfold priority_desc. split; [|split].
  - intros x y. apply Z.compare_antisym.
  - intros x y z H. apply Z.compare_eq_iff in H. now rewrite H.
  - intros x y z H1 H2. rewrite Z.compare_lt_iff in *. lia.
Qed.

Lemma cmp_le_priority_desc (a b : Alert) :
  cmp_le priority_desc a b <-> priority (severity b) <= priority (severity a).
Proof.
  unfold cmp_le, priority_desc. rewrite Z.compare_le_iff. reflexivity.
Qed.

Lemma drop_dup_dist_filter (d : Z) (l : list Alert) (seen : list Z) :
  filter (fun x => Z.eqb (distributor_id x) d) (drop_dup_dist seen l) =
  if existsb (Z.eqb d) seen then []
  else match find (fun x => Z.eqb (distributor_id x) d) l with
       | Some a => [a]
       | None => []
       end.
Proof.
  revert seen; induction l as [|x l IH]; intros seen; simpl.
  - now destruct (existsb (Z.eqb d) seen).
  - destruct (Z.eqb (distributor_id x) d) eqn:Hxd.
    + apply Z.eqb_eq in Hxd. rewrite Hxd.
      destruct (existsb (Z.eqb d) seen) eqn:Hs.
      * now rewrite IH, Hs.
      * simpl. rewrite ?Z.eqb_refl, IH. simpl. rewrite ?Hxd, ?Z.eqb_refl. reflexivity.
    + destruct (existsb (Z.eqb (distributor_id x)) seen) eqn:Hs.
      * apply IH.
      * simpl. rewrite Hxd, IH. simpl.
        rewrite Z.eqb_sym, Hxd. reflexivity.
Qed.

Lemma find_first_max {A : Type} (R : A -> A -> Prop) (f : A -> bool) (l : list A) (a : A) :
  StronglySorted R l -> find f l = Some a ->
  forall b, In b l -> f b = true -> b = a \/ R a b.
Proof.
  induction l as [|x l IH]; intros Hs Hfind b Hb Hfb; [destruct Hb|].
  apply StronglySorted_inv in Hs as [Hs Hf]. simpl in Hfind.
  destruct (f x) eqn:Hfx.
  - injection Hfind as <-. destruct Hb as [<-|Hb]; [now left|].
    right. rewrite Forall_forall in Hf. now apply Hf.
  - destruct Hb as [<-|Hb]; [congruence|]. now apply IH.
Qed.

Lemma drop_dup_dist_In (seen : list Z) (l : list Alert) (a : Alert) :
  In a (drop_dup_dist seen l) -> In a l.
Proof.
  revert seen; induction l as [|x l IH]; intros seen; simpl; [auto|].
  destruct (existsb (Z.eqb (distributor_id x)) seen).
  - intros H. right. eapply IH. exact H.
  - intros [H|H]; [now left|]. right. eapply IH. exact H.
Qed.

Lemma drop_dup_dist_nodup (seen : list Z) (l : list Alert) :
  NoDup (map distributor_id (drop_dup_dist seen l)) /\
  (forall a, In a (drop_dup_dist seen l) -> ~ In (distributor_id a) seen).
Proof.
  revert seen; induction l as [|x l IH]; intros seen; simpl.
  - split; [constructor|]. intros a [].
  - destruct (existsb (Z.eqb (distributor_id x)) seen) eqn:Hs; [apply IH|].
    destruct (IH (distributor_id x :: seen)) as [Hn Hs'].
    split.
    + simpl. constructor; [|exact Hn].
      intros Hin. apply in_map_iff in Hin as [y [Hy Hin]].
      apply (Hs' y Hin). rewrite Hy. now left.
    + intros a [<-|Ha].
      * intros Hin. assert (existsb (Z.eqb (distributor_id x)) seen = true) as E.
        { apply existsb_exists. exists (distributor_id x). now rewrite Z.eqb_refl. }
        congruence.
      * intros Hin. apply (Hs' a Ha). now right.
Qed.

Lemma NoDup_map_filter {A B : Type} (g : A -> B) (f : A -> bool) (l : list A) :
  NoDup (map g l) -> NoDup (map g (filter f l)).
Proof.
  induction l as [|x l IH]; simpl; intros H; [constructor|].
  apply NoDup_cons_iff in H as [Hx Hl].
  destruct (f x); simpl; [|now apply IH].
  constructor; [|now apply IH].
  intros Hin. apply Hx. apply in_map_iff in Hin as [y [Hy Hin]].
  apply filter_In in Hin as [Hin _]. rewrite <- Hy. now apply in_map.
Qed.

Lemma dedup_go_In {A : Type} (eqb : A -> A -> bool) (Heqb : forall x y, eqb x y = true <-> x = y)
  (seen l : list A) (x : A) :
  In x l -> In x seen \/ In x (dedup_go eqb seen l).
Proof.
  revert seen; induction l as [|y l IH]; intros seen Hx; [destruct Hx|]. simpl.
  destruct (existsb (eqb y) seen) eqn:Hs.
  - destruct Hx as [<-|Hx]; [|now apply IH].
    left. apply existsb_exists in Hs as [z [Hz E]]. apply Heqb in E. now subst.
  - destruct Hx as [<-|Hx]; [right; now left|].
    destruct (IH (y :: seen) Hx) as [[<-|H]|H]; [right; now left|now left|right; now right].
Qed.

Lemma filter_filter_and {A : Type} (f g : A -> bool) (l : list A) :
  filter f (filter g l) = filter (fun x => g x && f x) l.
Proof.
  induction l as [|x l IH]; simpl; [reflexivity|].
  destruct (g x); simpl; [destruct (f x)|]; now rewrite IH.
Qed.

(** The alerts that [get_alerts] returns are among the deduplicated alerts. *)
Lemma get_alerts_out (df : list Raw) (sv ds st : string) (s : Summary) (out : list Alert) :
  get_alerts df sv ds st = inr (s, out) ->
  s = summary_of (alerts_of df) /\
  exists f, out = filter f (dedup_alerts (alerts_of df)).
Proof.
  unfold get_alerts. destruct (alerts_of df) as [|a0 al0] eqn:Hal; [discriminate|].
  rewrite <- Hal.
  set (d1 := dedup_alerts (alerts_of df)).
  set (fs := fun a : Alert => String.eqb (severity_str (severity a)) (py_upper sv)).
  set (fst' := fun a : Alert => String.eqb (alert_state a) st).
  assert (E2 : exists f2, (if String.eqb (py_upper sv) "ALL" then d1 else filter fs d1) = filter f2 d1).
  { destruct (String.eqb (py_upper sv) "ALL").
    - exists (fun _ => true). symmetry. apply forallb_filter_id, forallb_forall. auto.
    - now exists fs. }
  destruct E2 as [f2 E2]. rewrite E2.
  destruct (String.eqb ds "ALL").
  - destruct (String.eqb st "ALL"); intros H; injection H as <- <-; split; auto.
    + now exists f2.
    + exists (fun a => f2 a && fst' a). apply filter_filter_and.
  - destruct (py_int ds) as [n|]; [|discriminate].
    rewrite filter_filter_and.
    destruct (String.eqb st "ALL"); intros H; injection H as <- <-; split; auto.
    + eexists; reflexivity.
    + eexists. apply filter_filter_and.
Qed.

Lemma dedup_alerts_props (al : list Alert) :
  NoDup (map distributor_id (dedup_alerts al)) /\
  (forall a, In a (dedup_alerts al) -> In a al).
Proof.
  unfold dedup_alerts. split; [apply drop_dup_dist_nodup|].
  intros a Ha. apply drop_dup_dist_In in Ha.
  exact (Permutation_in _ (sort_by_perm _ _) Ha).
Qed.

Lemma count_le_nunique (al l : list Alert) (v : Severity) :
  NoDup (map distributor_id l) -> (forall a, In a l -> In a al) ->
  (List.length (filter (fun a => severity_eqb (severity a) v) l) <= nunique_sev al v)%nat.
Proof.
  intros Hn Hin. unfold nunique_sev.
  rewrite <- (length_map distributor_id).
  apply NoDup_incl_length; [now apply NoDup_map_filter|].
  intros x Hx. apply in_map_iff in Hx as [a [<- Ha]].
  apply filter_In in Ha as [Ha Hv].
  assert (Hm : In (distributor_id a)
                 (map distributor_id (filter (fun a => severity_eqb (severity a) v) al))).
  { apply in_map, filter_In. split; [now apply Hin|exact Hv]. }
  destruct (dedup_go_In Z.eqb Z.eqb_eq [] _ _ Hm) as [[]|H]. exact H.
Qed.

Lemma summary_get_of (al : list Alert) (v : Severity) :
  summary_get (summary_of al) v = nunique_sev al v.
Proof. now destruct v. Qed.

(** C6: after the deduplication (for the stable sort of the model and
    for every other ordering by descending priority, as numpy's
    unstable sort may give), each distributor with an alert keeps
    exactly one, and no alert of that distributor has a higher
    priority: its severity is the maximum-priority one. *)
Theorem dedup_one_alert_max_priority (df : list Raw) (l : list Alert) (d : Z)
  (Hperm : Permutation (alerts_of df) l)
  (Hsorted : StronglySorted (cmp_le priority_desc) l)
  (Hd : exists a0, In a0 (alerts_of df) /\ distributor_id a0 = d) :
  exists a, filter (fun x => Z.eqb (distributor_id x) d) (drop_dup_dist [] l) = [a] /\
    In a (alerts_of df) /\ distributor_id a = d /\
    (forall b, In b (alerts_of df) -> distributor_id b = d ->
       priority (severity b) <= priority (severity a)).
Proof.
  rewrite drop_dup_dist_filter. simpl.
  destruct Hd as [a0 [Ha0 Hd0]].
  assert (Ha0' : In a0 l) by exact (Permutation_in _ Hperm Ha0).
  destruct (find (fun x => Z.eqb (distributor_id x) d) l) as [a|] eqn:Hf.
  - apply find_some in Hf as Hf'. destruct Hf' as [Hal Had]. apply Z.eqb_eq in Had.
    exists a. split; [reflexivity|]. split; [|split; [exact Had|]].
    + exact (Permutation_in _ (Permutation_sym Hperm) Hal).
    + intros b Hb Hbd.
      apply (Permutation_in _ Hperm) in Hb.
      destruct (find_first_max _ _ _ _ Hsorted Hf b Hb (proj2 (Z.eqb_eq _ _) Hbd))
        as [->|Hle]; [lia|].
      now apply cmp_le_priority_desc.
  - apply (find_none _ _ Hf) in Ha0'. apply Z.eqb_neq in Ha0'. contradiction.
Qed.

Lemma dedup_one_alert_max_priority_witness :
  exists a, filter (fun x => Z.eqb (distributor_id x) 5)
              (drop_dup_dist [] (sort_by priority_desc (alerts_of ex_alerts))) = [a] /\
    In a (alerts_of ex_alerts) /\ distributor_id a = 5 /\
    (forall b, In b (alerts_of ex_alerts) -> distributor_id b = 5 ->
       priority (severity b) <= priority (severity a)).
Proof.
  apply (dedup_one_alert_max_priority ex_alerts
           (sort_by priority_desc (alerts_of ex_alerts)) 5).
  - vm_compute. apply Permutation_refl.
  - vm_compute. repeat constructor; discriminate.
  - eexists. split; [vm_compute; left; reflexivity|reflexivity].
Defined.

(** C7: the summary of every call of [get_alerts] that returns is the
    count of distinct distributors per severity over the alerts before
    the deduplication, the same for every choice of the three filters;
    each count bounds the number of alerts of that severity after the
    deduplication, and in the returned (filtered) list. *)
Theorem alert_summary_pre_dedup (df : list Raw) (sv ds st : string) (s : Summary)
  (out : list Alert) (H : get_alerts df sv ds st = inr (s, out)) :
  s = summary_of (alerts_of df) /\
  (forall v, summary_get s v = nunique_sev (alerts_of df) v) /\
  (forall v, List.length (filter (fun a => severity_eqb (severity a) v)
                            (dedup_alerts (alerts_of df))) <= summary_get s v)%nat /\
  (forall v, List.length (filter (fun a => severity_eqb (severity a) v) out)
               <= summary_get s v)%nat /\
  (forall sv' ds' st' s' out', get_alerts df sv' ds' st' = inr (s', out') -> s' = s).
Proof.
  destruct (get_alerts_out _ _ _ _ _ _ H) as [-> [f ->]].
  destruct (dedup_alerts_props (alerts_of df)) as [Hn Hin].
  split; [reflexivity|]. split; [apply summary_get_of|].
  split; [|split].
  - intros v. rewrite summary_get_of. now apply count_le_nunique.
  - intros v. rewrite summary_get_of. apply count_le_nunique.
    + now apply NoDup_map_filter.
    + intros a Ha. apply filter_In in Ha as [Ha _]. now apply Hin.
  - intros sv' ds' st' s' out' H'.
    now destruct (get_alerts_out _ _ _ _ _ _ H') as [-> _].
Qed.

Lemma alert_summary_pre_dedup_witness :
  exists s out, get_alerts ex_alerts "all" "5" "ALL" = inr (s, out) /\
  s = summary_of (alerts_of ex_alerts) /\
  (forall v, summary_get s v = nunique_sev (alerts_of ex_alerts) v) /\
  (forall v, List.length (filter (fun a => severity_eqb (severity a) v)
                            (dedup_alerts (alerts_of ex_alerts))) <= summary_get s v)%nat /\
  (forall v, List.length (filter (fun a => severity_eqb (severity a) v) out)
               <= summary_get s v)%nat /\
  (forall sv' ds' st' s' out', get_alerts ex_alerts sv' ds' st' = inr (s', out') -> s' = s).
Proof.
  eexists. eexists.
  assert (H : get_alerts ex_alerts "all" "5" "ALL" =
              inr (mkSummary 1 1 1,
                   filter (fun a => Z.eqb (distributor_id a) 5)
                          (dedup_alerts (alerts_of ex_alerts)))) by (vm_compute; reflexivity).
  split; [exact H|]. exact (alert_summary_pre_dedup _ _ _ _ _ _ H).
Defined.

(* ================================================================= *)
(** ** The correlation matrix *)

Lemma round2_Qeq (x y : Q) : (x == y)%Q -> round2 x = round2 y.
Proof.
  intros Hxy. unfold round2. f_equal. f_equal.
  assert (H100 : (x * 100 == y * 100)%Q) by (rewrite Hxy; reflexivity).
  unfold Z_round_half_even. rewrite (Qfloor_comp _ _ H100).
  assert (E : Qcompare (x * 100 - inject_Z (Qfloor (y * 100))) (1 # 2) =
              Qcompare (y * 100 - inject_Z (Qfloor (y * 100))) (1 # 2)).
  { apply Qcompare_comp; [rewrite H100|]; reflexivity. }
  now rewrite E.
Qed.

Lemma sqrtQ_square (s : Q) : (0 <= s)%Q -> (sqrtQ (s * s) == s)%Q.
Proof.
  destruct s as [n d]. intros Hs.
  assert (Hn : 0 <= n) by (unfold Qle in Hs; simpl in Hs; lia).
  unfold sqrtQ. simpl Qnum. simpl Qden.
  rewrite Pos2Z.inj_mul.
  replace (n * n * (Zpos d * Zpos d) * Zpos sqrt_scale * Zpos sqrt_scale)
    with ((n * Zpos d * Zpos sqrt_scale) * (n * Zpos d * Zpos sqrt_scale)) by ring.
  rewrite Z.sqrt_square by (apply Z.mul_nonneg_nonneg; [apply Z.mul_nonneg_nonneg|]; lia).
  unfold Qeq. simpl. rewrite !Pos2Z.inj_mul. ring.
Qed.

Lemma welford_combine_diag (x : list (option Q)) (s : Welford) :
  fold_left welford_pair (combine x x) s =
  fold_left (fun s v => welford_step s v v) (col_vals x) s.
Proof.
  revert s; induction x as [|[v|] x IH]; intros s; simpl; auto.
Qed.

Lemma welford_fold_diag (vs : list Q) (s : Welford) :
  meanx s = meany s -> ssqdmx s = ssqdmy s -> ssqdmy s = covxy s ->
  let t := fold_left (fun s v => welford_step s v v) vs s in
  meanx t = meany t /\ ssqdmx t = ssqdmy t /\ ssqdmy t = covxy t.
Proof.
  revert s; induction vs as [|v vs IH]; intros s H1 H2 H3; simpl; [auto|].
  apply IH; destruct s; simpl in *; subst; reflexivity.
Qed.

Lemma welford_inc_eq (m v : Q) (n : Z) :
  ((v - (m + 1 / inject_Z n * (v - m))) * (v - m) ==
   (v - m) * (v - m) * (1 - 1 / inject_Z n))%Q.
Proof. unfold Qdiv. ring. Qed.

Lemma one_minus_inv_nonneg (n : Z) : 1 <= n -> (0 <= 1 - 1 / inject_Z n)%Q.
Proof.
  intros Hn. assert (Hq : (1 <= inject_Z n)%Q) by (change (inject_Z 1 <= inject_Z n)%Q; rewrite <- Zle_Qle; exact Hn).
  assert ((1 / inject_Z n <= 1)%Q) by (apply Qle_shift_div_r; lra). lra.
Qed.

Lemma one_minus_inv_pos (n : Z) : 2 <= n -> (0 < 1 - 1 / inject_Z n)%Q.
Proof.
  intros Hn. assert (Hq : (2 <= inject_Z n)%Q) by (change (inject_Z 2 <= inject_Z n)%Q; rewrite <- Zle_Qle; exact Hn).
  assert ((1 / inject_Z n < 1)%Q) by (apply Qlt_shift_div_r; lra). lra.
Qed.

(** Welford's accumulators on one column: the count, and a sum of squared
    deviations that is non-negative and zero exactly when all the values
    are equal (then the mean is that value). *)
Lemma welford_single (vs : list Q) :
  let t := fold_left (fun s v => welford_step s v v) vs welford0 in
  nobs t = Z.of_nat (List.length vs) /\ (0 <= ssqdmx t)%Q /\
  ((ssqdmx t == 0)%Q <-> (forall a b, In a vs -> In b vs -> (a == b)%Q)) /\
  ((forall a b, In a vs -> In b vs -> (a == b)%Q) -> forall v, In v vs -> (meanx t == v)%Q).
Proof.
  induction vs as [|v vs IH] using rev_ind; simpl.
  - split; [reflexivity|]. split; [apply Qle_refl|].
    split; [split; [intros _ a b []|intros _; reflexivity]|]. intros _ v [].
  - rewrite fold_left_app. simpl.
    set (t := fold_left (fun s v => welford_step s v v) vs welford0) in *.
    destruct IH as [Hn [Hpos [Hiff Hmean]]].
    unfold welford_step. simpl.
    rewrite welford_inc_eq.
    set (m := meanx t). set (d := (v - m)%Q).
    assert (Hd2 : (0 <= d * d)%Q) by nra.
    assert (Hn1 : 1 <= nobs t + 1) by lia.
    pose proof (one_minus_inv_nonneg _ Hn1) as Hk.
    split; [rewrite Hn, length_app; simpl; lia|].
    split; [nra|].
    assert (Hin : forall a, In a (vs ++ [v]) <-> In a vs \/ a = v).
    { intros a. rewrite in_app_iff. simpl. intuition. }
    destruct vs as [|u vs'].
    + (* the first value *)
      assert (Ht : t = welford0) by reflexivity.
      subst m d. rewrite Ht. cbn [nobs meanx ssqdmx welford0].
      assert (E : (1 / inject_Z (0 + 1) == 1)%Q) by reflexivity.
      split.
      * split; [intros _ a b [<-|[]] [<-|[]]; reflexivity|].
        intros _. rewrite E. ring.
      * intros _ w [<-|[]]. rewrite E. ring.
    + assert (Hn2 : 2 <= nobs t + 1) by (rewrite Hn; simpl; lia).
      pose proof (one_minus_inv_pos _ Hn2) as Hk2.
      assert (Hall : (forall a b, In a (u :: vs') -> In b (u :: vs') -> (a == b)%Q) ->
                     (d == 0)%Q ->
                     forall a b, In a ((u :: vs') ++ [v]) -> In b ((u :: vs') ++ [v]) ->
                     (a == b)%Q).
      { intros Hvs Hd0 a b Ha Hb.
        assert (Hv : (v == m)%Q) by (subst d; lra).
        assert (Hm : forall w, In w (u :: vs') -> (m == w)%Q) by (intros w Hw; now apply Hmean).
        apply Hin in Ha, Hb.
        destruct Ha as [Ha|<-], Hb as [Hb|<-].
        - now apply Hvs.
        - specialize (Hm a Ha). lra.
        - specialize (Hm b Hb). lra.
        - reflexivity. }
      assert (Hsub : (forall a b, In a ((u :: vs') ++ [v]) -> In b ((u :: vs') ++ [v]) ->
                      (a == b)%Q) ->
                     (forall a b, In a (u :: vs') -> In b (u :: vs') -> (a == b)%Q) /\
                     (d == 0)%Q).
      { intros Hall'. split.
        - intros a b Ha Hb. apply Hall'; apply Hin; now left.
        - assert (Hu : (m == u)%Q) by (apply Hmean; [|now left];
            intros a b Ha Hb; apply Hall'; apply Hin; now left).
          assert (Hvu : (v == u)%Q) by (apply Hall'; apply Hin; [now right|left; now left]).
          subst d. lra. }
      split.
      * split.
        -- intros H0.
           assert (Hs0 : (ssqdmx t == 0)%Q) by nra.
           assert (Hz : (d * d * (1 - 1 / inject_Z (nobs t + 1)) == 0)%Q) by lra.
           apply Qmult_integral in Hz as [Hz|Hz]; [|lra].
           apply Qmult_integral in Hz as [Hz|Hz];
             (apply Hall; [now apply Hiff|exact Hz]).
        -- intros Hall'. destruct (Hsub Hall') as [Hvs Hd0].
           apply Hiff in Hvs. rewrite Hvs, Hd0. ring.
      * intros Hall' w Hw. destruct (Hsub Hall') as [Hvs Hd0].
        assert (E : (m + 1 / inject_Z (nobs t + 1) * d == m)%Q) by (rewrite Hd0; ring).
        rewrite E. apply Hin in Hw as [Hw|<-].
        -- now apply Hmean.
        -- subst d. lra.
Qed.

Lemma has_spread_false (x : list (option Q)) :
  has_spread x = false <->
  (forall a b, In a (col_vals x) -> In b (col_vals x) -> (a == b)%Q).
Proof.
  unfold has_spread. split.
  - intros H a b Ha Hb. destruct (Qeq_bool a b) eqn:E; [now apply Qeq_bool_iff|].
    assert (C : existsb (fun a => existsb (fun b => negb (Qeq_bool a b)) (col_vals x))
                  (col_vals x) = true).
    { apply existsb_exists. exists a. split; [exact Ha|].
      apply existsb_exists. exists b. now rewrite E. }
    congruence.
  - intros H. destruct (existsb _ _) eqn:E; [|reflexivity].
    apply existsb_exists in E as [a [Ha E]]. apply existsb_exists in E as [b [Hb E]].
    rewrite (proj2 (Qeq_bool_iff a b) (H a b Ha Hb)) in E. discriminate.
Qed.

Lemma Qeq_bool_compat (a b c : Q) : (a == b)%Q -> Qeq_bool a c = Qeq_bool b c.
Proof.
  intros H. destruct (Qeq_bool b c) eqn:E.
  - apply Qeq_bool_iff in E. apply Qeq_bool_iff. now rewrite H.
  - apply Qeq_bool_neq in E. apply not_true_iff_false. intros E'.
    apply Qeq_bool_iff in E'. apply E. now rewrite <- H.
Qed.

(** A diagonal entry: 1 when the column holds two different values, NaN
    when it holds fewer than two distinct values. *)
Lemma nancorr_entry_diag (x : list (option Q)) :
  ext_round2 (nancorr_entry x x) = if has_spread x then Fin 1 else NaN.
Proof.
  unfold nancorr_entry, welford. rewrite welford_combine_diag.
  destruct (welford_fold_diag (col_vals x) welford0 eq_refl eq_refl eq_refl) as [_ [D2 D3]].
  destruct (welford_single (col_vals x)) as [Hn [Hpos [Hiff _]]].
  set (t := fold_left (fun s v => welford_step s v v) (col_vals x) welford0) in *.
  rewrite <- D3, <- D2.
  destruct (Z.ltb_spec (nobs t) 1) as [Hlt|Hge].
  - assert (Hl : List.length (col_vals x) = 0%nat) by lia.
    apply length_zero_iff_nil in Hl. unfold has_spread. rewrite Hl. reflexivity.
  - set (s := ssqdmx t) in *.
    rewrite (Qeq_bool_compat _ _ _ (sqrtQ_square s Hpos)).
    destruct (Qeq_bool s 0) eqn:Hz.
    + apply Qeq_bool_iff in Hz. pose proof (proj1 Hiff Hz) as Hall.
      now rewrite (proj2 (has_spread_false x) Hall).
    + apply Qeq_bool_neq in Hz.
      assert (Hsp : has_spread x = true).
      { apply not_false_iff_true. intros Hf.
        exact (Hz (proj2 Hiff (proj1 (has_spread_false x) Hf))). }
      rewrite Hsp.
      assert (Ev : (s / sqrtQ (s * s) == 1)%Q).
      { rewrite (sqrtQ_square s Hpos). unfold Qdiv. now apply Qmult_inv_r. }
      assert (E1 : Qltb 1 (s / sqrtQ (s * s)) = false).
      { unfold Qltb. apply negb_false_iff, Qle_bool_iff. rewrite Ev. apply Qle_refl. }
      assert (E2 : Qltb (s / sqrtQ (s * s)) (-1) = false).
      { unfold Qltb. apply negb_false_iff, Qle_bool_iff. rewrite Ev. discriminate. }
      rewrite E1, E2. simpl. f_equal. now rewrite (round2_Qeq _ _ Ev).
Qed.

Lemma nth_map_lt {A B : Type} (f : A -> B) (l : list A) (d : B) (d' : A) (i : nat) :
  (i < List.length l)%nat -> nth i (map f l) d = f (nth i l d').
Proof.
  intros Hi. rewrite (nth_indep _ d (f d')) by (rewrite length_map; exact Hi).
  apply map_nth.
Qed.

Lemma corr_round_row (cols : list (list (option Q))) (i : nat) :
  (i < List.length cols)%nat ->
  nth i (corr_round cols) [] =
  map (fun j => ext_round2 (nancorr_entry (nth (Nat.max i j) cols []) (nth (Nat.min i j) cols [])))
      (seq 0 (List.length cols)).
Proof.
  intros Hi. unfold corr_round, nancorr. rewrite map_map.
  rewrite (nth_map_lt _ _ _ 0%nat) by (rewrite length_seq; exact Hi).
  rewrite seq_nth by exact Hi. simpl. apply map_map.
Qed.

Lemma corr_round_length (cols : list (list (option Q))) :
  List.length (corr_round cols) = List.length cols.
Proof. unfold corr_round, nancorr. now rewrite !length_map, length_seq. Qed.

Lemma corr_round_entry (cols : list (list (option Q))) (i j : nat) :
  (i < List.length cols)%nat -> (j < List.length cols)%nat ->
  entry (corr_round cols) i j =
  ext_round2 (nancorr_entry (nth (Nat.max i j) cols []) (nth (Nat.min i j) cols [])).
Proof.
  intros Hi Hj. unfold entry. rewrite corr_round_row by exact Hi.
  rewrite (nth_map_lt _ _ _ 0%nat) by (rewrite length_seq; exact Hj).
  now rewrite seq_nth by exact Hj.
Qed.

Lemma correlation_analysis_inr (cols : list Column) (p : CorrPayload) :
  correlation_analysis cols = inr p ->
  features p = map col_name (select_numeric cols) /\
  matrix p = corr_round (map col_values (select_numeric cols)) /\
  strong p = head5 (filter is_strong (relationships (features p) (matrix p))) /\
  moderate p = head5 (filter is_moderate (relationships (features p) (matrix p))) /\
  inverse p = head5 (filter is_inverse (relationships (features p) (matrix p))) /\
  forallb (forallb is_finite) (matrix p) = true.
Proof.
  unfold correlation_analysis.
  destruct (_ <? 2)%nat; [discriminate|].
  destruct (relationships _ _) as [|r rs] eqn:Er; [discriminate|].
  destruct (_ && _) eqn:Ef; [|discriminate].
  intros H. injection H as <-. simpl. rewrite Er.
  apply andb_prop in Ef as [Ef _]. auto 7.
Qed.

Lemma flat_map_nil {A B : Type} (g : A -> list B) (l : list A) :
  (forall x, In x l -> g x = []) -> flat_map g l = [].
Proof.
  induction l as [|x l IH]; intros H; simpl; [reflexivity|].
  rewrite H by (now left). apply IH. intros y Hy. apply H. now right.
Qed.

Lemma flat_map_single {A B : Type} (g : A -> list B) (l : list A) (a : A) :
  NoDup l -> In a l -> (forall x, In x l -> x <> a -> g x = []) -> flat_map g l = g a.
Proof.
  induction l as [|x l IH]; intros Hn Ha Hg; [destruct Ha|].
  apply NoDup_cons_iff in Hn as [Hx Hn]. simpl.
  destruct Ha as [<-|Ha].
  - rewrite flat_map_nil; [apply app_nil_r|].
    intros y Hy. apply Hg; [now right|]. intros ->. contradiction.
  - rewrite Hg by (now left || (intros ->; contradiction)).
    apply IH; auto. intros y Hy. apply Hg. now right.
Qed.

Lemma filter_flat_map {A B : Type} (f : B -> bool) (g : A -> list B) (l : list A) :
  filter f (flat_map g l) = flat_map (fun x => filter f (g x)) l.
Proof.
  induction l as [|x l IH]; simpl; [reflexivity|]. now rewrite filter_app, IH.
Qed.

(** For distinct names, the ordered pair of the features [i] and [j]
    occurs exactly once in the flattened relationship list. *)
Lemma relationships_pair (names : list string) (m : list (list ext)) (i j : nat) :
  NoDup names -> (i < List.length names)%nat -> (j < List.length names)%nat -> i <> j ->
  filter (fun r => String.eqb (f1 r) (nth i names EmptyString) &&
                   String.eqb (f2 r) (nth j names EmptyString))
         (relationships names m) =
  [mkRel (nth i names EmptyString) (nth j names EmptyString)
         (entry m i j) (ext_abs (entry m i j))].
Proof.
  intros Hn Hi Hj Hij.
  assert (Hinj : forall a b, (a < List.length names)%nat -> (b < List.length names)%nat ->
                 a <> b -> String.eqb (nth a names EmptyString) (nth b names EmptyString) = false).
  { intros a b Ha Hb Hab. apply String.eqb_neq. intros E.
    apply Hab. exact (proj1 (NoDup_nth names EmptyString) Hn a b Ha Hb E). }
  unfold relationships. rewrite filter_flat_map.
  rewrite (flat_map_single _ _ i).
  - rewrite filter_flat_map. rewrite (flat_map_single _ _ j).
    + rewrite (Hinj i j Hi Hj Hij). simpl. now rewrite !String.eqb_refl.
    + apply seq_NoDup.
    + apply in_seq. lia.
    + intros y Hy Hyj. apply in_seq in Hy.
      destruct (negb _); simpl; [|reflexivity].
      rewrite String.eqb_refl, (Hinj y j) by lia. reflexivity.
  - apply seq_NoDup.
  - apply in_seq. lia.
  - intros x Hx Hxi. apply in_seq in Hx. rewrite filter_flat_map.
    apply flat_map_nil. intros y Hy.
    destruct (negb _); simpl; [|reflexivity].
    rewrite (Hinj x i) by lia. reflexivity.
Qed.

(** C8 (counterexample): with columns [a], [b], [c] where [b] and [c]
    are equal and [a] has correlation 0.8 with both, the strong bucket
    holds the pair ([c], [a]) at 0.8 but not the pair ([c], [b]) at 1.0:
    it is not the five pairs of largest |r|. *)
Lemma strong_bucket_not_top5 :
  exists p, correlation_analysis ex_corr_abc = inr p /\
    In (mkRel "c" "a" (Fin (4 # 5)) (Fin (4 # 5))) (strong p) /\
    In (mkRel "c" "b" (Fin 1) (Fin 1)) (relationships (features p) (matrix p)) /\
    ~ In (mkRel "c" "b" (Fin 1) (Fin 1)) (strong p) /\
    List.length (strong p) = 5%nat.
Proof.
  eexists. split; [vm_compute; reflexivity|].
  vm_compute. split; [tauto|]. split; [tauto|]. split; [|reflexivity].
  intros H. repeat destruct H as [H|H]; try discriminate; exact H.
Qed.

(** C8 (amended): each bucket is the first five relationships, in the
    row-major order of the double loop, that satisfy its condition
    (|r| >= 0.75; 0.4 <= |r| < 0.75; r <= -0.4); and, for distinct
    feature names, every ordered pair of distinct features occurs
    exactly once in the flattened list, with the same value in both
    orientations. *)
Theorem relationship_buckets_first5 (cols : list Column) (p : CorrPayload)
  (Hnames : NoDup (map col_name (select_numeric cols)))
  (H : correlation_analysis cols = inr p) :
  let rels := relationships (features p) (matrix p) in
  strong p = head5 (filter is_strong rels) /\
  moderate p = head5 (filter is_moderate rels) /\
  inverse p = head5 (filter is_inverse rels) /\
  (forall i j, (i < List.length (features p))%nat -> (j < List.length (features p))%nat ->
     i <> j ->
     filter (fun r => String.eqb (f1 r) (nth i (features p) EmptyString) &&
                      String.eqb (f2 r) (nth j (features p) EmptyString)) rels =
       [mkRel (nth i (features p) EmptyString) (nth j (features p) EmptyString)
              (entry (matrix p) i j) (ext_abs (entry (matrix p) i j))] /\
     entry (matrix p) i j = entry (matrix p) j i).
Proof.
  destruct (correlation_analysis_inr _ _ H) as [Hf [Hm [Hs [Hmo [Hi _]]]]].
  intros rels. split; [exact Hs|]. split; [exact Hmo|]. split; [exact Hi|].
  intros i j Hi' Hj' Hij. split.
  - apply relationships_pair; try assumption. now rewrite Hf.
  - rewrite Hf, length_map in Hi', Hj'. rewrite Hm.
    rewrite !corr_round_entry by (rewrite length_map; assumption).
    now rewrite Nat.max_comm, Nat.min_comm.
Qed.

Lemma relationship_buckets_first5_witness :
  exists p, correlation_analysis ex_corr_abc = inr p /\
  NoDup (map col_name (select_numeric ex_corr_abc)) /\
  let rels := relationships (features p) (matrix p) in
  strong p = head5 (filter is_strong rels) /\
  moderate p = head5 (filter is_moderate rels) /\
  inverse p = head5 (filter is_inverse rels) /\
  (forall i j, (i < List.length (features p))%nat -> (j < List.length (features p))%nat ->
     i <> j ->
     filter (fun r => String.eqb (f1 r) (nth i (features p) EmptyString) &&
                      String.eqb (f2 r) (nth j (features p) EmptyString)) rels =
       [mkRel (nth i (features p) EmptyString) (nth j (features p) EmptyString)
              (entry (matrix p) i j) (ext_abs (entry (matrix p) i j))] /\
     entry (matrix p) i j = entry (matrix p) j i).
Proof.
  destruct (correlation_analysis ex_corr_abc) as [e|p] eqn:H;
    [vm_compute in H; discriminate|].
  assert (Hn : NoDup (map col_name (select_numeric ex_corr_abc))).
  { vm_compute. repeat constructor; simpl; intuition discriminate. }
  exists p. split; [reflexivity|]. split; [exact Hn|].
  exact (relationship_buckets_first5 ex_corr_abc p Hn H).
Defined.

(** C9 (counterexample): with a constant numeric column the diagonal
    entry of that column is NaN, not 1.0, and the endpoint fails when the
    payload is rendered. *)
Lemma corr_constant_column_diag_nan :
  entry (corr_round (map col_values (select_numeric ex_corr_const))) 1 1 = NaN /\
  entry (corr_round (map col_values (select_numeric ex_corr_const))) 0 0 = Fin 1 /\
  correlation_analysis ex_corr_const = inl ValueError.
Proof. vm_compute. auto. Qed.

(** C9 (amended): the rounded correlation matrix is symmetric; its
    diagonal entry is 1.0 for a column that holds two different values
    and NaN for a column with fewer than two distinct values; the
    endpoint returns a matrix only when no entry is NaN, so every
    returned matrix has 1.0 on its whole diagonal. *)
Theorem corr_matrix_symmetric_diag (cols : list Column) :
  let vals := map col_values (select_numeric cols) in
  let m := corr_round vals in
  (forall i j, (i < List.length vals)%nat -> (j < List.length vals)%nat ->
     entry m i j = entry m j i) /\
  (forall i, (i < List.length vals)%nat ->
     entry m i i = if has_spread (nth i vals []) then Fin 1 else NaN) /\
  (forall p, correlation_analysis cols = inr p ->
     matrix p = m /\ forall i, (i < List.length vals)%nat -> entry m i i = Fin 1).
Proof.
  intros vals m.
  assert (Hd : forall i, (i < List.length vals)%nat ->
                 entry m i i = if has_spread (nth i vals []) then Fin 1 else NaN).
  { intros i Hi. unfold m. rewrite corr_round_entry by exact Hi.
    rewrite Nat.max_id, Nat.min_id. apply nancorr_entry_diag. }
  split; [|split; [exact Hd|]].
  - intros i j Hi Hj. unfold m. rewrite !corr_round_entry by assumption.
    now rewrite Nat.max_comm, Nat.min_comm.
  - intros p Hp. destruct (correlation_analysis_inr _ _ Hp) as [_ [Hm [_ [_ [_ Hf]]]]].
    split; [exact Hm|]. intros i Hi.
    rewrite Hd by exact Hi. destruct (has_spread (nth i vals [])) eqn:Hs; [reflexivity|].
    exfalso. rewrite Hm in Hf. fold vals m in Hf.
    assert (Hrow : In (nth i m []) m).
    { apply nth_In. unfold m. now rewrite corr_round_length. }
    apply (proj1 (forallb_forall _ _) Hf) in Hrow.
    assert (Hent : In (entry m i i) (nth i m [])).
    { unfold entry. apply nth_In. unfold m. rewrite corr_round_row by exact Hi.
      now rewrite length_map, length_seq. }
    apply (proj1 (forallb_forall _ _) Hrow) in Hent.
    rewrite Hd, Hs in Hent by exact Hi. discriminate.
Qed.

(* ================================================================= *)
(** ** Printing and reading integers: [int(str(z)) == z] *)

Lemma digits_go_step (acc v : Z) (c : ascii) (rest : string) :
  Ascii.eqb c "_" = false -> digit_val c = Some v ->
  digits_go acc false (String c rest) = digits_go (acc * 10 + v) false rest.
Proof. intros H1 H2. simpl. now rewrite H1, H2. Qed.

Ltac digit_step :=
  erewrite digits_go_step by reflexivity;
  match goal with
  | |- context [Z.of_nat (nat_of_ascii ?c) - 48] =>
      let v := eval vm_compute in (Z.of_nat (nat_of_ascii c) - 48) in
      change (Z.of_nat (nat_of_ascii c) - 48) with v
  end.

Lemma digits_go_acc (l : Decimal.uint) (acc : positive) :
  digits_go (Zpos acc) false (str_of_uint l) = Some (Zpos (Pos.of_uint_acc l acc)).
Proof.
  revert acc; induction l as [|l IH|l IH|l IH|l IH|l IH|l IH|l IH|l IH|l IH|l IH];
    intros acc; [reflexivity|..]; cbn [str_of_uint Pos.of_uint_acc];
    digit_step; rewrite <- IH; f_equal; lia.
Qed.

Lemma digits_go_zero (l : Decimal.uint) :
  digits_go 0 false (str_of_uint l) = Some (Z.of_uint l).
Proof.
  induction l as [|l IH|l|l|l|l|l|l|l|l|l]; [reflexivity|..];
    cbn [str_of_uint]; digit_step;
    [exact IH|apply digits_go_acc..].
Qed.

Lemma parse_digits_str (u : Decimal.uint) :
  u <> Decimal.Nil -> parse_digits (str_of_uint u) = Some (Z.of_uint u).
Proof.
  intros Hu. destruct u; [contradiction|..];
    unfold parse_digits; rewrite <- digits_go_zero; reflexivity.
Qed.

Lemma str_app_assoc (a b c : string) : ((a ++ b) ++ c)%string = (a ++ b ++ c)%string.
Proof. induction a as [|x a IH]; simpl; [reflexivity|now rewrite IH]. Qed.

Lemma str_app_nil_r (a : string) : (a ++ EmptyString)%string = a.
Proof. induction a as [|x a IH]; simpl; [reflexivity|now rewrite IH]. Qed.

(** No character of the string is whitespace. *)
Lemma lstrip_id (s : string) :
  (forall c, In c (list_ascii_of_string s) -> is_space c = false) -> lstrip s = s.
Proof.
  destruct s as [|c s]; intros H; simpl; [reflexivity|].
  rewrite H by (now left). reflexivity.
Qed.

Lemma py_strip_id (s : string) :
  (forall c, In c (list_ascii_of_string s) -> is_space c = false) -> py_strip s = s.
Proof.
  intros H. unfold py_strip. rewrite (lstrip_id s H).
  unfold rev_string. rewrite lstrip_id.
  - rewrite list_ascii_of_string_of_list_ascii, rev_involutive.
    apply string_of_list_ascii_of_string.
  - rewrite list_ascii_of_string_of_list_ascii. intros c Hc.
    apply H. now apply in_rev.
Qed.

Lemma str_of_uint_digits (u : Decimal.uint) (c : ascii) :
  In c (list_ascii_of_string (str_of_uint u)) -> digit_val c <> None.
Proof.
  induction u; simpl; [intros []|..];
    intros [<-|H]; try discriminate; auto.
Qed.

Lemma Z_to_str_chars (z : Z) (c : ascii) :
  In c (list_ascii_of_string (Z_to_str z)) -> c = "-"%char \/ digit_val c <> None.
Proof.
  unfold Z_to_str. destruct (Z.to_int z) as [u|u]; simpl.
  - intros H. right. exact (str_of_uint_digits u c H).
  - intros [<-|H]; [now left|]. right. exact (str_of_uint_digits u c H).
Qed.

Lemma Z_to_str_no_space (z : Z) (c : ascii) :
  In c (list_ascii_of_string (Z_to_str z)) -> is_space c = false.
Proof.
  intros H. destruct (Z_to_str_chars z c H) as [->|Hd]; [reflexivity|].
  unfold digit_val in Hd. unfold is_space.
  destruct ((48 <=? nat_of_ascii c)%nat && (nat_of_ascii c <=? 57)%nat) eqn:E; [|congruence].
  apply andb_prop in E as [E1 E2]. apply Nat.leb_le in E1, E2.
  simpl. repeat (rewrite (proj2 (Nat.eqb_neq _ _)) by lia; simpl). reflexivity.
Qed.

Lemma Z_to_int_nonnil (z : Z) :
  match Z.to_int z with Decimal.Pos u | Decimal.Neg u => u <> Decimal.Nil end.
Proof.
  destruct z as [|p|p]; simpl; [discriminate|apply DecimalPos.Unsigned.to_uint_nonnil..].
Qed.

(** [int(str(z)) == z]. *)
Lemma py_int_Z_to_str (z : Z) : py_int (Z_to_str z) = Some z.
Proof.
  unfold py_int. rewrite py_strip_id by apply Z_to_str_no_space.
  pose proof (Z_to_int_nonnil z) as Hn.
  rewrite <- (DecimalZ.of_to z) at 2.
  unfold Z_to_str. destruct (Z.to_int z) as [u|u]; simpl.
  - destruct u; [contradiction|..]; simpl;
      rewrite <- parse_digits_str by discriminate; reflexivity.
  - rewrite parse_digits_str by exact Hn. reflexivity.
Qed.

Lemma Z_to_str_nonempty (z : Z) : Z_to_str z <> EmptyString.
Proof.
  pose proof (Z_to_int_nonnil z) as Hn. unfold Z_to_str.
  destruct (Z.to_int z) as [u|u]; [|discriminate].
  destruct u; [contradiction|discriminate..].
Qed.

(* ================================================================= *)
(** ** [s.split()], [s.replace(old, new)] on the quarter labels *)

Lemma str_length_app (a b : string) :
  String.length (a ++ b) = (String.length a + String.length b)%nat.
Proof. induction a as [|x a IH]; simpl; [reflexivity|now rewrite IH]. Qed.

Lemma split_ws_go_word (w rest cur : string) :
  (forall c, In c (list_ascii_of_string w) -> is_space c = false) ->
  split_ws_go cur (w ++ rest) = split_ws_go (cur ++ w) rest.
Proof.
  revert cur. induction w as [|c w IH]; intros cur H; simpl.
  - now rewrite str_app_nil_r.
  - rewrite (H c (or_introl eq_refl)). rewrite IH by (intros d Hd; apply H; now right).
    now rewrite str_app_assoc.
Qed.

Lemma py_split_two (a b : string) :
  (forall c, In c (list_ascii_of_string a) -> is_space c = false) ->
  (forall c, In c (list_ascii_of_string b) -> is_space c = false) ->
  a <> EmptyString -> b <> EmptyString ->
  py_split (a ++ " " ++ b) = [a; b].
Proof.
  intros Ha Hb Na Nb. unfold py_split.
  rewrite split_ws_go_word by exact Ha. simpl.
  destruct a as [|x a]; [contradiction|].
  rewrite <- (str_app_nil_r b) at 1.
  rewrite split_ws_go_word by exact Hb. simpl.
  destruct b; [contradiction|reflexivity].
Qed.

Lemma prefix_short (old s : string) :
  (String.length s < String.length old)%nat -> String.prefix old s = false.
Proof.
  revert s. induction old as [|a old IH]; intros s H; simpl in *; [lia|].
  destruct s as [|b s]; [reflexivity|]. simpl in *.
  destruct (ascii_dec a b); [apply IH; lia|reflexivity].
Qed.

Lemma prefix_app (old r : string) : String.prefix old (old ++ r) = true.
Proof.
  induction old as [|a old IH]; simpl; [now destruct r|].
  destruct (ascii_dec a a); [exact IH|congruence].
Qed.

Lemma substring_app (a r : string) (m : nat) :
  substring (String.length a) m (a ++ r) = substring 0 m r.
Proof. induction a as [|x a IH]; simpl; [reflexivity|exact IH]. Qed.

Lemma substring_all (r : string) (m : nat) :
  (String.length r <= m)%nat -> substring 0 m r = r.
Proof.
  revert m. induction r as [|x r IH]; intros m H; destruct m; simpl in *;
    try reflexivity; try lia.
  now rewrite IH by lia.
Qed.

Lemma replace_go_short (n : nat) (old new t : string) :
  (String.length t < String.length old)%nat -> replace_go n old new t = t.
Proof.
  revert n. induction t as [|c t IH]; intros n H; destruct n; cbn [replace_go]; try reflexivity.
  rewrite prefix_short by exact H. simpl in H. now rewrite IH by lia.
Qed.

Lemma replace_go_head (n : nat) (a : ascii) (o new : string) (c : ascii) (t : string) :
  a <> c -> (String.length t < String.length (String a o))%nat ->
  replace_go n (String a o) new (String c t) = String c t.
Proof.
  intros Hac Hl. destruct n; [reflexivity|]. cbn [replace_go prefix].
  destruct (ascii_dec a c); [contradiction|].
  now rewrite replace_go_short.
Qed.

Lemma replace_go_app (n : nat) (old new r : string) :
  old <> EmptyString ->
  replace_go (S n) old new (old ++ r) = (new ++ replace_go n old new r)%string.
Proof.
  intros Ho. destruct old as [|a o]; [contradiction|].
  change (String a o ++ r)%string with (String a (o ++ r)).
  cbn [replace_go].
  pose proof (prefix_app (String a o) r) as Hp.
  pose proof (substring_app (String a o) r) as Hs.
  change (String a o ++ r)%string with (String a (o ++ r)) in Hp, Hs.
  rewrite Hp, Hs.
  rewrite substring_all; [reflexivity|].
  simpl. rewrite str_length_app. lia.
Qed.

Lemma in_list_ascii_app (a b : string) (c : ascii) :
  In c (list_ascii_of_string (a ++ b)) ->
  In c (list_ascii_of_string a) \/ In c (list_ascii_of_string b).
Proof.
  induction a as [|x a IH]; simpl; [now right|].
  intros [<-|H]; [now left; left|]. destruct (IH H); [left; now right|now right].
Qed.

Lemma Z_to_str_head (y : Z) :
  exists a o, Z_to_str y = String a o /\ a <> "Q"%char.
Proof.
  pose proof (Z_to_str_nonempty y) as Hn. pose proof (Z_to_str_chars y) as Hc.
  destruct (Z_to_str y) as [|a o]; [contradiction|].
  exists a, o. split; [reflexivity|]. intros ->.
  destruct (Hc "Q"%char (or_introl eq_refl)) as [H|H]; [discriminate|].
  apply H. reflexivity.
Qed.

Lemma Q_label_no_space (t : string) :
  (forall c, In c (list_ascii_of_string t) -> is_space c = false) ->
  forall c, In c (list_ascii_of_string (String "Q" t)) -> is_space c = false.
Proof. intros Ht c [<-|H]; [reflexivity|exact (Ht c H)]. Qed.

(** [parse_quarter] accepts both label formats of the quarter comparison
    endpoint: ["<year> Q<k>"] and ["<year> <year>Q<k>"] give back the year
    and ["Q<k>"], whenever [<k>] is ASCII text without whitespace (the
    separators [\x1c] to [\x1f] count as whitespace) and is shorter than
    the printed year. *)
Theorem parse_quarter_label_formats (y : Z) (t : string) :
  is_ascii_str t = true ->
  (forall c, In c (list_ascii_of_string t) -> is_space c = false) ->
  (String.length t < String.length (Z_to_str y))%nat ->
  parse_quarter (Z_to_str y ++ " " ++ String "Q" t) = Some (y, String "Q" t) /\
  parse_quarter (Z_to_str y ++ " " ++ Z_to_str y ++ String "Q" t) = Some (y, String "Q" t).
Proof.
  intros _ Ht Hl.
  destruct (Z_to_str_head y) as (a & o & Ho & Ha).
  assert (Hl' : (String.length t < String.length (String a o))%nat) by now rewrite <- Ho.
  split; unfold parse_quarter.
  - rewrite py_split_two; [|apply Z_to_str_no_space|apply Q_label_no_space, Ht
                           |apply Z_to_str_nonempty|discriminate].
    rewrite py_int_Z_to_str. unfold py_replace. rewrite Ho.
    now rewrite replace_go_head.
  - rewrite py_split_two;
      [| apply Z_to_str_no_space
       | intros c Hc; destruct (in_list_ascii_app _ _ c Hc);
         [now apply (Z_to_str_no_space y)|now apply (Q_label_no_space t)]
       | apply Z_to_str_nonempty
       | rewrite Ho; discriminate].
    rewrite py_int_Z_to_str. unfold py_replace.
    assert (Hlen : String.length (Z_to_str y ++ String "Q" t)
                   = S (String.length o + S (String.length t))).
    { rewrite Ho. simpl. now rewrite str_length_app. }
    rewrite Hlen, Ho, replace_go_app by discriminate.
    now rewrite replace_go_head.
Qed.

Lemma parse_quarter_label_formats_witness :
  is_ascii_str "2" = true /\
  (forall c, In c (list_ascii_of_string "2") -> is_space c = false) /\
  (String.length "2" < String.length (Z_to_str 2022))%nat /\
  (parse_quarter (Z_to_str 2022 ++ " " ++ String "Q" "2") = Some (2022, String "Q" "2") /\
   parse_quarter (Z_to_str 2022 ++ " " ++ Z_to_str 2022 ++ String "Q" "2")
     = Some (2022, String "Q" "2")).
Proof.
  assert (H1 : forall c, In c (list_ascii_of_string "2") -> is_space c = false)
    by (intros c [<-|[]]; reflexivity).
  assert (H2 : (String.length "2" < String.length (Z_to_str 2022))%nat) by (vm_compute; lia).
  assert (H0 : is_ascii_str "2" = true) by reflexivity.
  split; [exact H0|split; [exact H1|split; [exact H2|]]].
  exact (parse_quarter_label_formats 2022 "2" H0 H1 H2).
Defined.

(* ================================================================= *)
(** ** [distributor_trend]: the lookup by the printed identifier *)

Lemma dist_rows_sorted (rows : list Raw) (d : Z) :
  StronglySorted (cmp_le yq_compare) (dist_rows (build_distributor_quarter_df rows) d).
Proof.
  unfold dist_rows. apply (StronglySorted_filter (cmp_le dq_compare)); [|apply build_sorted].
  intros x y Hx Hy. apply Z.eqb_eq in Hx, Hy.
  unfold cmp_le, dq_compare. rewrite Hx, Hy, Z.compare_refl. simpl. auto.
Qed.

Lemma existsb_map_ext {A B : Type} (f : A -> B) (p : B -> bool) (q : A -> bool) (l : list A) :
  (forall x, In x l -> p (f x) = q x) -> existsb p (map f l) = existsb q l.
Proof.
  induction l as [|x l IH]; intros H; cbn; [reflexivity|].
  rewrite H by now left. now rewrite IH by (intros y Hy; apply H; now right).
Qed.

Lemma float_ids_small_check (dq : list DQRow) :
  forallb (fun r => negb (dq_dist_is_float r) || (Z.abs (dq_dist r) <? 2 ^ 53)) dq = true ->
  forall r, In r dq -> dq_dist_is_float r = true -> Z.abs (dq_dist r) < 2 ^ 53.
Proof.
  intros H r Hr Hf. rewrite forallb_forall in H. specialize (H r Hr).
  rewrite Hf in H. cbn in H. now apply Z.ltb_lt.
Qed.

(** On the built table (its float ids below [2^53]), [distributor_trend]
    answers 404 exactly when no row's id, as [astype(str)] prints it,
    equals the requested string; a string that is the printed id of a row
    selects the rows of that distributor, in (year, quarter) order, and the
    response fails to render ([ValueError]) exactly when one of them has
    an infinite change. *)
Theorem distributor_trend_lookup (rows : list Raw) (s : string)
  (Hb : forall r, In r (build_distributor_quarter_df rows) ->
          dq_dist_is_float r = true -> Z.abs (dq_dist r) < 2 ^ 53) :
  (distributor_trend (build_distributor_quarter_df rows) s =
     inl (HTTPException 404 "No data found for selected distributor")
   <-> forall r, In r (build_distributor_quarter_df rows) -> dq_id_str r <> s) /\
  (forall r, In r (build_distributor_quarter_df rows) -> dq_id_str r = s ->
     distributor_trend (build_distributor_quarter_df rows) s =
       if existsb (fun r' => ext_is_inf (pct_change_Wastes_from_last_quarter r'))
                  (dist_rows (build_distributor_quarter_df rows) (dq_dist r))
       then inl ValueError
       else inr (s, map trend_entry (dist_rows (build_distributor_quarter_df rows) (dq_dist r)))).
Proof.
  set (dq := build_distributor_quarter_df rows) in *.
  split.
  - unfold distributor_trend.
    destruct (filter (fun r => String.eqb (dq_id_str r) s) dq) as [|r0 l] eqn:Hf.
    + split; [|reflexivity]. intros _ r Hr Hs.
      assert (Hin : In r (filter (fun r => String.eqb (dq_id_str r) s) dq))
        by (apply filter_In; split; [exact Hr|now apply String.eqb_eq]).
      rewrite Hf in Hin. destruct Hin.
    + assert (H0 : In r0 (filter (fun r => String.eqb (dq_id_str r) s) dq))
        by (rewrite Hf; now left).
      apply filter_In in H0 as [Hr0 Hs0]. apply String.eqb_eq in Hs0.
      split; [|intros H; exfalso; exact (H r0 Hr0 Hs0)].
      cbv zeta. destruct (existsb _ _); discriminate.
  - intros r Hr Hs. unfold distributor_trend.
    rewrite (filter_ext_in _ (fun r' => Z.eqb (dq_dist r') (dq_dist r)))
      by (intros x Hx; rewrite <- Hs; now apply (dq_id_str_eqb rows Hb)).
    fold (dist_rows dq (dq_dist r)).
    pose proof (dist_rows_sorted rows (dq_dist r)) as Hso. fold dq in Hso.
    rewrite (sort_by_sorted_id yq_compare yq_compare_good _ Hso).
    assert (Hin : In r (dist_rows dq (dq_dist r)))
      by (apply filter_In; split; [exact Hr|apply Z.eqb_refl]).
    destruct (dist_rows dq (dq_dist r)) as [|r1 l1]; [destruct Hin|].
    cbv zeta.
    rewrite (existsb_map_ext trend_entry te_is_inf
               (fun r' => ext_is_inf (pct_change_Wastes_from_last_quarter r')) (r1 :: l1))
      by (intros x _; apply te_is_inf_entry).
    reflexivity.
Qed.

Lemma distributor_trend_lookup_witness :
  (forall r, In r (build_distributor_quarter_df ex_float_ids) ->
     dq_dist_is_float r = true -> Z.abs (dq_dist r) < 2 ^ 53) /\
  distributor_trend (build_distributor_quarter_df ex_float_ids) "7"
    = inl (HTTPException 404 "No data found for selected distributor") /\
  (forall r, In r (build_distributor_quarter_df ex_float_ids) -> dq_id_str r = "7.0"%string ->
     distributor_trend (build_distributor_quarter_df ex_float_ids) "7.0" =
       if existsb (fun r' => ext_is_inf (pct_change_Wastes_from_last_quarter r'))
                  (dist_rows (build_distributor_quarter_df ex_float_ids) (dq_dist r))
       then inl ValueError
       else inr ("7.0"%string,
                 map trend_entry (dist_rows (build_distributor_quarter_df ex_float_ids) (dq_dist r)))).
Proof.
  assert (Hb : forall r, In r (build_distributor_quarter_df ex_float_ids) ->
                 dq_dist_is_float r = true -> Z.abs (dq_dist r) < 2 ^ 53)
    by (apply float_ids_small_check; vm_compute; reflexivity).
  split; [exact Hb|split].
  - apply (proj2 (proj1 (distributor_trend_lookup ex_float_ids "7" Hb))).
    intros r Hr. vm_compute in Hr.
    destruct Hr as [<-|[<-|[]]]; vm_compute; discriminate.
  - exact (proj2 (distributor_trend_lookup ex_float_ids "7.0" Hb)).
Defined.

(* ================================================================= *)
(** ** [get_alerts]: filters, errors and the severity spelling *)

Lemma filter_alerts_props (al l : list Alert) (p : Alert -> bool) (P : Alert -> Prop) :
  NoDup (map distributor_id l) -> (forall a, In a l -> In a al) ->
  (forall a, p a = true -> P a) ->
  NoDup (map distributor_id (filter p l)) /\
  (forall a, In a (filter p l) -> In a al /\ P a).
Proof.
  intros Hn Hin Hp. split; [now apply NoDup_map_filter|].
  intros a Ha. apply filter_In in Ha as [Ha Hpa]. split; [now apply Hin|now apply Hp].
Qed.

Ltac alert_filter_goal :=
  intros ?a ?Hp;
  repeat match goal with
         | H : _ && _ = true |- _ => apply andb_prop in H as [? ?]
         | H : String.eqb _ _ = true |- _ => apply String.eqb_eq in H
         | H : Z.eqb _ _ = true |- _ => apply Z.eqb_eq in H
         end;
  repeat split; first [now left | right; congruence].

(** Every alert that [get_alerts] returns is one of the alerts computed
    from the data and passes each requested filter (severity, distributor
    and state, ["ALL"] passing everything); no two returned alerts share a
    distributor; the summary counts the alerts before any filter. *)
Theorem get_alerts_response_filters (df : list Raw) (sv ds st : string)
  (s : Summary) (out : list Alert) :
  get_alerts df sv ds st = inr (s, out) ->
  s = summary_of (alerts_of df) /\
  NoDup (map distributor_id out) /\
  (forall a, In a out ->
     In a (alerts_of df) /\
     (py_upper sv = "ALL"%string \/ severity_str (severity a) = py_upper sv) /\
     (ds = "ALL"%string \/ py_int ds = Some (distributor_id a)) /\
     (st = "ALL"%string \/ alert_state a = st)).
Proof.
  intros H. destruct (get_alerts_out df sv ds st s out H) as [Hs _].
  unfold get_alerts in H.
  destruct (alerts_of df) as [|a0 al0] eqn:Hal; [discriminate|]. rewrite <- Hal in H |- *.
  destruct (dedup_alerts_props (alerts_of df)) as [Hn Hin].
  set (D := dedup_alerts (alerts_of df)) in *.
  set (P := fun a : Alert =>
     (py_upper sv = "ALL"%string \/ severity_str (severity a) = py_upper sv) /\
     (ds = "ALL"%string \/ py_int ds = Some (distributor_id a)) /\
     (st = "ALL"%string \/ alert_state a = st)).
  assert (Hgen : forall p, out = filter p D -> (forall a, p a = true -> P a) ->
            NoDup (map distributor_id out) /\
            (forall a, In a out -> In a (alerts_of df) /\ P a)).
  { intros p -> Hp. now apply filter_alerts_props. }
  split; [congruence|].
  destruct (String.eqb_spec (py_upper sv) "ALL"%string) as [E1|E1];
  destruct (String.eqb_spec ds "ALL"%string) as [E2|E2];
  try (destruct (py_int ds) as [n|] eqn:En; [|discriminate]);
  destruct (String.eqb_spec st "ALL"%string) as [E3|E3];
  injection H as _ <-; rewrite ?filter_filter_and in Hgen |- *;
  first [ apply (Hgen (fun _ => true));
          [symmetry; apply forallb_filter_id, forallb_forall; auto|]
        | apply (Hgen _ eq_refl) ];
  unfold P; alert_filter_goal.
Qed.

Lemma get_alerts_response_filters_witness :
  exists s out, get_alerts ex_alerts "high" "5" "TX" = inr (s, out) /\ out <> [] /\
  (s = summary_of (alerts_of ex_alerts) /\
   NoDup (map distributor_id out) /\
   (forall a, In a out ->
      In a (alerts_of ex_alerts) /\
      (py_upper "high" = "ALL"%string \/ severity_str (severity a) = py_upper "high") /\
      ("5"%string = "ALL"%string \/ py_int "5" = Some (distributor_id a)) /\
      ("TX"%string = "ALL"%string \/ alert_state a = "TX"%string))).
Proof.
  destruct (get_alerts ex_alerts "high" "5" "TX") as [e|[s out]] eqn:E;
    [vm_compute in E; discriminate|].
  exists s, out. split; [reflexivity|split].
  - vm_compute in E. injection E as _ <-. discriminate.
  - exact (get_alerts_response_filters ex_alerts "high" "5" "TX" s out E).
Defined.

Lemma upper_ascii_idem (c : ascii) : upper_ascii (upper_ascii c) = upper_ascii c.
Proof. destruct c as [[] [] [] [] [] [] [] []]; reflexivity. Qed.

Lemma py_upper_idem (s : string) : py_upper (py_upper s) = py_upper s.
Proof. induction s as [|c s IH]; simpl; [reflexivity|now rewrite upper_ascii_idem, IH]. Qed.

(** The severity filter of [get_alerts] ignores case: a severity and its
    upper-case spelling (["high"] and ["HIGH"]) give the same response. *)
Theorem get_alerts_severity_case (df : list Raw) (sv ds st : string) :
  get_alerts df (py_upper sv) ds st = get_alerts df sv ds st.
Proof. unfold get_alerts. now rewrite py_upper_idem. Qed.

(** The outcomes of [get_alerts]: with no alert at all it raises
    [KeyError]; otherwise a distributor filter that is neither ["ALL"] nor
    an integer for [int()] raises [ValueError], and every other request
    succeeds, in particular one naming a distributor by its printed id. *)
Theorem get_alerts_outcomes (df : list Raw) (sv ds st : string) :
  (alerts_of df = [] -> get_alerts df sv ds st = inl KeyError) /\
  (alerts_of df <> [] -> ds <> "ALL"%string -> py_int ds = None ->
     get_alerts df sv ds st = inl ValueError) /\
  (alerts_of df <> [] -> (ds = "ALL"%string \/ exists n, py_int ds = Some n) ->
     exists r, get_alerts df sv ds st = inr r) /\
  (alerts_of df <> [] -> forall d, exists r, get_alerts df sv (Z_to_str d) st = inr r).
Proof.
  assert (Hok : forall ds, alerts_of df <> [] -> (ds = "ALL"%string \/ exists n, py_int ds = Some n) ->
     exists r, get_alerts df sv ds st = inr r).
  { intros ds' Hne Hds. unfold get_alerts.
    destruct (alerts_of df) as [|a0 al0]; [contradiction|].
    destruct (String.eqb_spec ds' "ALL"%string) as [E|E].
    - eexists; reflexivity.
    - destruct Hds as [Hds|[n Hn]]; [contradiction|]. rewrite Hn. eexists; reflexivity. }
  split; [|split; [|split]].
  - intros H. unfold get_alerts. now rewrite H.
  - intros Hne Hds Hn. unfold get_alerts.
    destruct (alerts_of df) as [|a0 al0]; [contradiction|].
    destruct (String.eqb_spec ds "ALL"%string) as [E|E]; [contradiction|].
    now rewrite Hn.
  - apply Hok.
  - intros Hne d. apply Hok; [exact Hne|right]. exists d. apply py_int_Z_to_str.
Qed.

(* ================================================================= *)
(** ** [build_distributor_quarter_df]: the groups and their totals *)

Lemma gkey_eqb_spec (a b : GKey) : gkey_eqb a b = true <-> a = b.
Proof.
  destruct a as [[[d1 s1] y1] q1], b as [[[d2 s2] y2] q2]. simpl.
  rewrite !andb_true_iff, Z.eqb_eq, String.eqb_eq, Z.eqb_eq, String.eqb_eq.
  split; [intros [[[-> ->] ->] ->]; reflexivity|intros H; injection H as -> -> -> ->; tauto].
Qed.

Lemma dedup_go_spec {A : Type} (eqb : A -> A -> bool)
  (Heqb : forall x y, eqb x y = true <-> x = y) (seen l : list A) :
  NoDup (dedup_go eqb seen l) /\
  (forall x, In x (dedup_go eqb seen l) -> ~ In x seen /\ In x l).
Proof.
  revert seen; induction l as [|x l IH]; intros seen; simpl.
  - split; [constructor|intros _ []].
  - destruct (existsb (eqb x) seen) eqn:Hs.
    + destruct (IH seen) as [Hn Hi]. split; [exact Hn|].
      intros y Hy. destruct (Hi y Hy). split; [assumption|now right].
    + destruct (IH (x :: seen)) as [Hn Hi].
      assert (Hx : ~ In x seen).
      { intros Hin. assert (existsb (eqb x) seen = true) by
          (apply existsb_exists; exists x; split; [exact Hin|now apply Heqb]).
        congruence. }
      split.
      * constructor; [|exact Hn]. intros Hin. destruct (Hi x Hin) as [H _]. apply H. now left.
      * intros y [<-|Hy]; [split; [exact Hx|now left]|].
        destruct (Hi y Hy) as [H1 H2]. split; [intros H; apply H1; now right|now right].
Qed.

Lemma np_where_length {A : Type} (c : list bool) (x y : list A) :
  List.length (np_where c x y) = Nat.min (List.length c) (Nat.min (List.length x) (List.length y)).
Proof.
  revert x y; induction c as [|b c IH]; intros [|u x] [|v y]; simpl; try reflexivity.
  now rewrite IH.
Qed.

Lemma pct_from_limit_col_length (g : list Agg) :
  List.length (pct_from_limit_col g) = List.length g.
Proof.
  unfold pct_from_limit_col, limit_conds, limit_quotients.
  rewrite length_map, np_where_length, !length_map. lia.
Qed.

Lemma map_fst_combine {A B : Type} (l : list A) (l' : list B) :
  (List.length l <= List.length l')%nat -> map fst (combine l l') = l.
Proof.
  revert l'; induction l as [|a l IH]; intros [|b l'] H; simpl in *; try reflexivity; [lia|].
  rewrite IH by lia. reflexivity.
Qed.

Lemma build_aggs_perm (rows : list Raw) :
  Permutation
    (map (fun x => fst (fst x))
       (pct_change_go [] (sort_by dyq_compare
          (combine (aggregate rows) (pct_from_limit_col (aggregate rows))))))
    (aggregate rows).
Proof.
  set (L := combine (aggregate rows) (pct_from_limit_col (aggregate rows))).
  assert (HL : map fst L = aggregate rows)
    by (apply map_fst_combine; rewrite pct_from_limit_col_length; lia).
  assert (E : map (fun x : Agg * ext * ext => fst (fst x)) (pct_change_go [] (sort_by dyq_compare L))
              = map fst (map fst (pct_change_go [] (sort_by dyq_compare L))))
    by (now rewrite map_map).
  rewrite E, pct_change_go_fst, <- HL.
  apply Permutation_map, sort_by_perm.
Qed.

Lemma aggregate_keys (rows : list Raw) :
  map (fun a => (a_dist a, a_state a, a_year a, a_quarter a)) (aggregate rows) = group_keys rows.
Proof.
  unfold aggregate. rewrite map_map.
  rewrite <- (map_id (group_keys rows)) at 2. apply map_ext.
  intros [[[d s] y] q]. reflexivity.
Qed.

Lemma build_keys_perm (rows : list Raw) :
  Permutation (map (fun r => (dq_dist r, dq_state r, dq_year r, dq_quarter r))
                   (build_distributor_quarter_df rows))
              (group_keys rows).
Proof.
  unfold build_distributor_quarter_df.
  set (X := pct_change_go [] (sort_by dyq_compare
              (combine (aggregate rows) (pct_from_limit_col (aggregate rows))))).
  assert (E : map (fun r => (dq_dist r, dq_state r, dq_year r, dq_quarter r))
                (map (finish_row (dist_col_float rows) (year_col_float rows)) X)
              = map (fun a => (a_dist a, a_state a, a_year a, a_quarter a))
                    (map (fun x => fst (fst x)) X))
    by (rewrite !map_map; apply map_ext; intros [[a p] c]; reflexivity).
  rewrite E, <- aggregate_keys.
  apply Permutation_map, build_aggs_perm.
Qed.

Lemma group_keys_spec (rows : list Raw) :
  NoDup (group_keys rows) /\
  (forall k, In k (group_keys rows) <-> exists r, In r rows /\ gkey_of r = Some k).
Proof.
  unfold group_keys, dedup_by.
  set (l := flat_map (fun r => match gkey_of r with Some k => [k] | None => [] end) rows).
  assert (Hl : forall k, In k l <-> exists r, In r rows /\ gkey_of r = Some k).
  { intros k. unfold l. rewrite in_flat_map. split.
    - intros [r [Hr Hk]]. exists r. split; [exact Hr|].
      destruct (gkey_of r); [destruct Hk as [<-|[]]; reflexivity|destruct Hk].
    - intros [r [Hr Hk]]. exists r. split; [exact Hr|]. rewrite Hk. now left. }
  destruct (dedup_go_spec gkey_eqb gkey_eqb_spec [] l) as [Hn Hi].
  split.
  - eapply Permutation_NoDup; [symmetry; apply sort_by_perm|exact Hn].
  - intros k. rewrite <- Hl. split.
    + intros Hk. apply (Permutation_in _ (sort_by_perm _ _)) in Hk. now apply Hi.
    + intros Hk. apply (Permutation_in _ (Permutation_sym (sort_by_perm _ _))).
      destruct (dedup_go_In gkey_eqb gkey_eqb_spec [] l k Hk) as [[]|H]. exact H.
Qed.

(** The built table has exactly one row per group key: the keys
    (distributor, state, year, quarter) of its rows are pairwise distinct,
    and they are exactly the keys of the input rows that have all of them. *)
Theorem build_one_row_per_key (rows : list Raw) :
  NoDup (map (fun r => (dq_dist r, dq_state r, dq_year r, dq_quarter r))
             (build_distributor_quarter_df rows)) /\
  (forall k, In k (map (fun r => (dq_dist r, dq_state r, dq_year r, dq_quarter r))
                       (build_distributor_quarter_df rows))
             <-> exists r, In r rows /\ gkey_of r = Some k).
Proof.
  destruct (group_keys_spec rows) as [Hn Hi]. pose proof (build_keys_perm rows) as Hp.
  split.
  - eapply Permutation_NoDup; [symmetry; exact Hp|exact Hn].
  - intros k. rewrite <- Hi. split; apply Permutation_in; [exact Hp|now symmetry].
Qed.

Lemma build_row_agg (rows : list Raw) (x : DQRow) :
  In x (build_distributor_quarter_df rows) ->
  exists k p c, In k (group_keys rows) /\
    x = finish_row (dist_col_float rows) (year_col_float rows) (let '(d, s, y, q) := k in
                    mkAgg d s y q (group_sum rows k deliveries_qty)
                      (group_sum rows k returns_qty) (group_sum rows k allowance_qty)
                      (group_sum rows k waste_qty), p, c).
Proof.
  intros Hx. pose proof (build_aggs_perm rows) as Hp.
  unfold build_distributor_quarter_df in Hx. apply in_map_iff in Hx as [[[a p] c] [<- Hy]].
  assert (Ha : In a (aggregate rows)).
  { apply (Permutation_in _ Hp). apply in_map_iff. now exists (a, p, c). }
  unfold aggregate in Ha. apply in_map_iff in Ha as [k [Hk Hin]].
  exists k, p, c. split; [exact Hin|]. now rewrite Hk.
Qed.

(** Every row of the built table carries, as its four totals, the sums of
    the input rows of its group key, missing values skipped and the sum
    rounded to 2 decimals. *)
Theorem build_row_totals (rows : list Raw) (x : DQRow) :
  In x (build_distributor_quarter_df rows) ->
  let k := (dq_dist x, dq_state x, dq_year x, dq_quarter x) in
  total_deliveries x = group_sum rows k deliveries_qty /\
  total_returns x = group_sum rows k returns_qty /\
  total_waste_allowance x = group_sum rows k allowance_qty /\
  total_waste x = group_sum rows k waste_qty.
Proof.
  intros Hx. destruct (build_row_agg rows x Hx) as ([[[d s] y] q] & p & c & _ & ->).
  repeat split.
Qed.

Lemma build_row_totals_witness :
  exists x, In x (build_distributor_quarter_df ex_zero_prior) /\
  (let k := (dq_dist x, dq_state x, dq_year x, dq_quarter x) in
   total_deliveries x = group_sum ex_zero_prior k deliveries_qty /\
   total_returns x = group_sum ex_zero_prior k returns_qty /\
   total_waste_allowance x = group_sum ex_zero_prior k allowance_qty /\
   total_waste x = group_sum ex_zero_prior k waste_qty).
Proof.
  destruct (build_distributor_quarter_df ex_zero_prior) as [|x l] eqn:E;
    [vm_compute in E; discriminate|].
  exists x. rewrite <- E.
  assert (Hx : In x (build_distributor_quarter_df ex_zero_prior)) by (rewrite E; now left).
  split; [exact Hx|exact (build_row_totals ex_zero_prior x Hx)].
Defined.

Lemma aggregate_keyed (rows : list Raw) :
  aggregate rows =
  aggregate (filter (fun r => match gkey_of r with Some _ => true | None => false end) rows).
Proof.
  set (p := fun r => match gkey_of r with Some _ => true | None => false end).
  assert (Hk : group_keys rows = group_keys (filter p rows)).
  { unfold group_keys. f_equal. f_equal.
    induction rows as [|r rows IH]; simpl; [reflexivity|].
    unfold p at 1. destruct (gkey_of r) eqn:E; simpl; rewrite ?E; now rewrite IH. }
  assert (Hs : forall k f, group_sum rows k f = group_sum (filter p rows) k f).
  { intros k f. unfold group_sum. rewrite filter_filter_and.
    f_equal. f_equal. f_equal. apply filter_ext. intros r.
    unfold p. now destruct (gkey_of r). }
  unfold aggregate. rewrite <- Hk. apply map_ext. intros [[[d s] y] q].
  now rewrite !Hs.
Qed.

(** Input rows lacking a distributor, a state or a year (a month label
    that did not parse leaves the year missing) play no part in the built
    table: it is the table built from the other rows alone. *)
Theorem build_ignores_unkeyed_rows (rows : list Raw) :
  build_distributor_quarter_df rows =
  build_distributor_quarter_df
    (filter (fun r => match gkey_of r with Some _ => true | None => false end) rows).
Proof.
  assert (Hk : keyed_rows (filter (fun r => match gkey_of r with Some _ => true | None => false end) rows)
               = keyed_rows rows).
  { unfold keyed_rows. generalize (fun r : Raw => match gkey_of r with Some _ => true | None => false end).
    intros f. induction rows as [|r rows IH]; cbn; [reflexivity|].
    destruct (f r) eqn:E; cbn; rewrite ?E; congruence. }
  unfold build_distributor_quarter_df, dist_col_float, year_col_float.
  rewrite Hk. now rewrite <- aggregate_keyed.
Qed.

(* ================================================================= *)
(** ** [quarter_comparison] on the built table *)

Lemma NoDup_map_transfer {A B C : Type} (f : A -> B) (g : A -> C) (l : list A) :
  NoDup (map f l) ->
  (forall x y, In x l -> In y l -> g x = g y -> f x = f y) ->
  NoDup (map g l).
Proof.
  induction l as [|a l IH]; simpl; intros Hn Hfg; [constructor|].
  apply NoDup_cons_iff in Hn as [Ha Hl]. constructor.
  - intros Hin. apply in_map_iff in Hin as [y [Hy Hin]]. apply Ha.
    rewrite <- (Hfg y a) by (auto; now right). now apply in_map.
  - apply IH; [exact Hl|]. intros x y Hx Hy. apply Hfg; now right.
Qed.

Lemma map_flat_map {A B C : Type} (f : B -> C) (g : A -> list B) (l : list A) :
  map f (flat_map g l) = flat_map (fun x => map f (g x)) l.
Proof. induction l as [|a l IH]; simpl; [reflexivity|]. now rewrite map_app, IH. Qed.

Lemma NoDup_flat_map_single {A : Type} (h : A -> list A) (l : list A) :
  NoDup l -> (forall k, h k = [] \/ h k = [k]) -> NoDup (flat_map h l).
Proof.
  intros Hn Hh.
  assert (Hsub : forall l' x, In x (flat_map h l') -> In x l').
  { intros l' x Hx. apply in_flat_map in Hx as [k [Hk Hx]].
    destruct (Hh k) as [E|E]; rewrite E in Hx; [destruct Hx|destruct Hx as [<-|[]]; exact Hk]. }
  induction Hn as [|a l Ha Hl IH]; simpl; [constructor|].
  destruct (Hh a) as [E|E]; rewrite E; simpl; [exact IH|].
  constructor; [|exact IH]. intros Hin. apply Ha. exact (Hsub l a Hin).
Qed.

Lemma filter_none {A : Type} (f : A -> bool) (l : list A) :
  (forall x, In x l -> f x = false) -> filter f l = [].
Proof.
  induction l as [|a l IH]; simpl; intros H; [reflexivity|].
  rewrite (H a (or_introl eq_refl)). apply IH. intros x Hx. apply H. now right.
Qed.

Lemma filter_key_le1 (l : list DQRow) (k : Z) :
  NoDup (map dq_dist l) ->
  filter (fun r => Z.eqb (dq_dist r) k) l = [] \/
  exists r, filter (fun r => Z.eqb (dq_dist r) k) l = [r].
Proof.
  induction l as [|r l IH]; simpl; intros Hn; [now left|].
  apply NoDup_cons_iff in Hn as [Hr Hl].
  destruct (Z.eqb_spec (dq_dist r) k) as [<-|Hk]; [right; exists r|now apply IH].
  f_equal. apply filter_none. intros x Hx. apply Z.eqb_neq. intros E.
  apply Hr. rewrite <- E. now apply in_map.
Qed.

Lemma outer_merge_block_key (k : Z) (a b : list DQRow) (m : Z * option DQRow * option DQRow) :
  In m (match a, b with
        | [], _ => map (fun y => (k, None, Some y)) b
        | _, [] => map (fun x => (k, Some x, None)) a
        | _, _ => flat_map (fun x => map (fun y => (k, Some x, Some y)) b) a
        end) -> fst (fst m) = k.
Proof.
  intros Hm. destruct a as [|x xs], b as [|y ys]; cbv beta iota in Hm.
  - destruct Hm.
  - apply in_map_iff in Hm as [y' [<- _]]. reflexivity.
  - apply in_map_iff in Hm as [x' [<- _]]. reflexivity.
  - apply in_flat_map in Hm as [x' [_ Hm]]. apply in_map_iff in Hm as [y' [<- _]]. reflexivity.
Qed.

(** With at most one row per distributor on each side, the outer merge
    has one entry per distributor, all drawn from the two sides. *)
Lemma outer_merge_keys (l1 l2 : list DQRow) :
  NoDup (map dq_dist l1) -> NoDup (map dq_dist l2) ->
  NoDup (map (fun m => fst (fst m)) (outer_merge l1 l2)) /\
  (forall m, In m (outer_merge l1 l2) -> In (fst (fst m)) (map dq_dist l1 ++ map dq_dist l2)).
Proof.
  intros H1 H2. unfold outer_merge.
  destruct (dedup_go_spec Z.eqb Z.eqb_eq [] (map dq_dist l1 ++ map dq_dist l2)) as [Hn Hi].
  split.
  - rewrite map_flat_map. apply NoDup_flat_map_single.
    + eapply Permutation_NoDup; [symmetry; apply sort_by_perm|exact Hn].
    + intros k. destruct (filter_key_le1 l1 k H1) as [E1|[x E1]];
        destruct (filter_key_le1 l2 k H2) as [E2|[y E2]]; rewrite E1, E2; simpl; auto.
  - intros m Hm. apply in_flat_map in Hm as [k [Hk Hm]].
    rewrite (outer_merge_block_key _ _ _ _ Hm).
    apply (Permutation_in _ (sort_by_perm _ _)) in Hk. now apply Hi in Hk.
Qed.

Lemma qc_subset_nodup (rows : list Raw) (state : string) (yq : Z * string) (ds : list string) :
  NoDup (map dq_dist (qc_subset (state_rows (build_distributor_quarter_df rows) state) yq ds)).
Proof.
  unfold qc_subset, state_rows. apply NoDup_map_filter.
  assert (Hn : NoDup (map (fun r => (dq_dist r, dq_state r, dq_year r, dq_quarter r))
                          (build_distributor_quarter_df rows)))
    by (eapply Permutation_NoDup; [symmetry; apply build_keys_perm|apply group_keys_spec]).
  apply (NoDup_map_transfer (fun r => (dq_dist r, dq_state r, dq_year r, dq_quarter r)));
    [now do 2 apply NoDup_map_filter|].
  intros x y Hx Hy E.
  apply filter_In in Hx as [Hx Hx2], Hy as [Hy Hy2].
  apply filter_In in Hx as [_ Hx1], Hy as [_ Hy1].
  apply andb_prop in Hx2 as [Hx2 Hx3], Hy2 as [Hy2 Hy3].
  apply String.eqb_eq in Hx1, Hy1, Hx3, Hy3. apply Z.eqb_eq in Hx2, Hy2.
  congruence.
Qed.

Lemma qc_subset_requested (dq : list DQRow) (yq : Z * string) (ds : list string) (r : DQRow) :
  In r (qc_subset dq yq ds) -> In r dq /\ In (dq_id_str r) ds.
Proof.
  unfold qc_subset. intros Hr. apply filter_In in Hr as [Hr1 Hr].
  apply filter_In in Hr1 as [Hr1 _]. split; [exact Hr1|].
  apply existsb_exists in Hr as [s [Hs E]]. apply String.eqb_eq in E. now rewrite E.
Qed.

Lemma state_rows_in (dq : list DQRow) (state : string) (r : DQRow) :
  In r (state_rows dq state) -> In r dq.
Proof. unfold state_rows. intros H. now apply filter_In in H as [H _]. Qed.

(** On the built table, a successful [quarter_comparison] lists each
    distributor at most once, each from a row of the table whose id, as
    [astype(str)] prints it, is one of the requested ones; when the float
    ids are below [2^53] (no two of them print alike) it has at most two
    entries. *)
Theorem quarter_comparison_requested_once (rows : list Raw) (state qa qb d1 : string)
  (d2 : option string) (resp : QCResponse) :
  quarter_comparison (build_distributor_quarter_df rows) state qa qb d1 d2 = inr resp ->
  NoDup (map qc_distributor_id (qc_comparison resp)) /\
  (forall e, In e (qc_comparison resp) ->
     exists r, In r (build_distributor_quarter_df rows) /\ dq_dist r = qc_distributor_id e /\
               In (dq_id_str r) (qc_distributors d1 d2)) /\
  ((forall r, In r (build_distributor_quarter_df rows) ->
      dq_dist_is_float r = true -> Z.abs (dq_dist r) < 2 ^ 53) ->
   (List.length (qc_comparison resp) <= 2)%nat).
Proof.
  intros H.
  assert (Hm : NoDup (map qc_distributor_id (qc_comparison resp)) /\
               (forall e, In e (qc_comparison resp) ->
                  exists r, In r (build_distributor_quarter_df rows) /\
                            dq_dist r = qc_distributor_id e /\
                            In (dq_id_str r) (qc_distributors d1 d2))).
  { unfold quarter_comparison in H.
    destruct (state_rows (build_distributor_quarter_df rows) state) as [|r0 l0] eqn:Hs;
      [discriminate|]. rewrite <- Hs in H.
    destruct (parse_quarter qa) as [p1|]; [|discriminate].
    destruct (parse_quarter qb) as [p2|]; [|discriminate].
    cbv zeta in H.
    destruct (String.eqb qa qb).
    - destruct (qc_subset (state_rows (build_distributor_quarter_df rows) state) p1
                  (qc_distributors d1 d2)) as [|base rest] eqn:Eq1;
        injection H as <-; cbn [qc_comparison qc_empty map].
      + split; [constructor|intros _ []].
      + split; [constructor; [intros []|constructor]|].
        intros e [<-|[]]. cbn [qc_distributor_id].
        destruct (qc_subset_requested (state_rows (build_distributor_quarter_df rows) state) p1
                    (qc_distributors d1 d2) base)
          as [Hb1 Hb2]; [rewrite Eq1; now left|].
        exists base. split; [eapply state_rows_in; exact Hb1|split; [reflexivity|exact Hb2]].
    - set (l1 := qc_subset (state_rows (build_distributor_quarter_df rows) state) p1
                   (qc_distributors d1 d2)) in *.
      set (l2 := qc_subset (state_rows (build_distributor_quarter_df rows) state) p2
                   (qc_distributors d1 d2)) in *.
      destruct (outer_merge l1 l2) as [|m0 ms] eqn:Em; injection H as <-;
        cbn [qc_comparison qc_empty];
        [split; [constructor|intros _ []]|].
      change (merged_entry m0 :: map merged_entry ms) with (map merged_entry (m0 :: ms)).
      rewrite <- Em.
      destruct (outer_merge_keys l1 l2 (qc_subset_nodup _ _ _ _) (qc_subset_nodup _ _ _ _))
        as [Hn Hk].
      split.
      + rewrite map_map.
        rewrite (map_ext _ (fun m => fst (fst m))) by (intros [[k o1] o2]; reflexivity).
        exact Hn.
      + intros e He. apply in_map_iff in He as [[[k o1] o2] [<- Hin]].
        apply Hk in Hin. cbn [fst] in Hin. unfold merged_entry. cbn [qc_distributor_id].
        apply in_app_or in Hin as [Hin|Hin]; apply in_map_iff in Hin as [r [<- Hr]];
          apply qc_subset_requested in Hr as [Hr1 Hr2]; exists r;
          (split; [eapply state_rows_in; exact Hr1|split; [reflexivity|exact Hr2]]). }
  destruct Hm as [Hn Hr]. split; [exact Hn|split; [exact Hr|]].
  intros Hb.
  set (f := fun e => cell_str (dist_col_float rows) (qc_distributor_id e)).
  assert (Hf : forall e, In e (qc_comparison resp) ->
                 (dist_col_float rows = true -> Z.abs (qc_distributor_id e) < 2 ^ 53) /\
                 In (f e) (qc_distributors d1 d2)).
  { intros e He. destruct (Hr e He) as (r & Hr1 & Hr2 & Hr3).
    destruct (build_flags rows r Hr1) as [Hfl _].
    split.
    - intros Ht. rewrite <- Hr2. apply Hb; [exact Hr1|now rewrite Hfl].
    - unfold f. rewrite <- Hr2, <- Hfl. exact Hr3. }
  rewrite <- (length_map f).
  apply (Nat.le_trans _ (List.length (qc_distributors d1 d2))).
  - apply NoDup_incl_length.
    + apply (NoDup_map_transfer qc_distributor_id); [exact Hn|].
      intros x y Hx Hy E. unfold f in E.
      apply (cell_str_inj (dist_col_float rows) (dist_col_float rows)) in E;
        [exact E|apply (proj1 (Hf x Hx))|apply (proj1 (Hf y Hy))].
    + intros s Hs. apply in_map_iff in Hs as [e [<- He]]. exact (proj2 (Hf e He)).
  - unfold qc_distributors. destruct d2 as [s|]; [destruct (String.eqb s EmptyString)|];
      simpl; lia.
Qed.

Lemma quarter_comparison_requested_once_witness :
  exists resp,
  quarter_comparison (build_distributor_quarter_df ex_two_distributors)
    "TX" "2022 Q1" "2022 2022Q2" "1" (Some "2"%string) = inr resp /\
  (NoDup (map qc_distributor_id (qc_comparison resp)) /\
   (forall e, In e (qc_comparison resp) ->
      exists r, In r (build_distributor_quarter_df ex_two_distributors) /\
                dq_dist r = qc_distributor_id e /\
                In (dq_id_str r) (qc_distributors "1" (Some "2"%string))) /\
   ((forall r, In r (build_distributor_quarter_df ex_two_distributors) ->
       dq_dist_is_float r = true -> Z.abs (dq_dist r) < 2 ^ 53) ->
    (List.length (qc_comparison resp) <= 2)%nat)).
Proof.
  destruct (quarter_comparison (build_distributor_quarter_df ex_two_distributors)
              "TX" "2022 Q1" "2022 2022Q2" "1" (Some "2"%string)) as [e|resp] eqn:E;
    [vm_compute in E; discriminate|].
  exists resp. split; [reflexivity|].
  exact (quarter_comparison_requested_once ex_two_distributors _ _ _ _ _ resp E).
Defined.

(* ================================================================= *)
(** ** [distributor_status] is monotone *)

Lemma Qle_bool_false (a b : Q) : Qle_bool a b = false -> (b < a)%Q.
Proof.
  intros H. apply Qnot_le_lt. intros H'. apply Qle_bool_iff in H'. congruence.
Qed.

Ltac status_cases :=
  repeat match goal with
  | |- context [Qle_bool ?a ?b] =>
      let E := fresh "E" in
      destruct (Qle_bool a b) eqn:E;
      [apply Qle_bool_iff in E|apply Qle_bool_false in E]
  end.

(** A larger finite [pct_from_limit] never gives a less severe status,
    whatever the change; with [pct_from_limit] missing, a larger change
    never gives a less severe status; an infinite [pct_from_limit] is
    [High Risk] (+inf) or [Very Good] (-inf). *)
Theorem distributor_status_monotone :
  (forall (p p' : Q) (c c' : ext), (p <= p')%Q ->
     (status_rank (distributor_status (Fin p) c) <=
      status_rank (distributor_status (Fin p') c'))%nat) /\
  (forall c c' : Q, (c <= c')%Q ->
     (status_rank (distributor_status NaN (Fin c)) <=
      status_rank (distributor_status NaN (Fin c')))%nat) /\
  (forall c, distributor_status PInf c = HighRisk) /\
  (forall c, distributor_status NInf c = VeryGood).
Proof.
  split; [|split; [|split]].
  - intros p p' c c' H. unfold distributor_status, ext_geq, ext_ltq, Qltb. simpl.
    status_cases; simpl; try lia; exfalso; lra.
  - intros c c' H. unfold distributor_status, ext_gtq, ext_ltq, Qltb. simpl.
    status_cases; simpl; try lia; exfalso; lra.
  - intros c. reflexivity.
  - intros c. reflexivity.
Qed.

(* ================================================================= *)
(** ** [prepare_time_columns] *)






Lemma label_roundtrip_all :
  forallb (fun y => forallb (fun m => label_roundtrip_ok y m)
                      (map (fun n => 1 + Z.of_nat n) (seq 0 12)))
          (map (fun n => 1969 + Z.of_nat n) (seq 0 100)) = true.
Proof. vm_compute. reflexivity. Qed.

Lemma in_offset_seq (b x : Z) (len : nat) :
  b <= x < b + Z.of_nat len -> In x (map (fun n => b + Z.of_nat n) (seq 0 len)).
Proof.
  intros H. apply in_map_iff. exists (Z.to_nat (x - b)). split.
  - rewrite Z2Nat.id; lia.
  - apply in_seq. lia.
Qed.

(** Reading back a label the way the data writes it ([%b-%y], e.g.
    "Feb-23") gives its year and month again, for every year the
    two-digit format can denote (1969..2068) and every month. *)
Theorem prepare_time_columns_label_roundtrip (y m : Z) :
  1969 <= y <= 2068 -> 1 <= m <= 12 ->
  prepare_time (Some (month_label y m)) =
    (Some y, Some m, ("Q" ++ Z_to_str ((m - 1) / 3 + 1))%string).
Proof.
  intros Hy Hm.
  pose proof label_roundtrip_all as Hall.
  rewrite forallb_forall in Hall.
  specialize (Hall y (in_offset_seq 1969 y 100 ltac:(lia))).
  rewrite forallb_forall in Hall.
  specialize (Hall m (in_offset_seq 1 m 12 ltac:(lia))).
  unfold label_roundtrip_ok in Hall.
  destruct (prepare_time (Some (month_label y m))) as [[[y'|] [m'|]] q]; try discriminate.
  apply andb_prop in Hall as [Hall Hq]. apply andb_prop in Hall as [Hy' Hm'].
  apply Z.eqb_eq in Hy', Hm'. apply String.eqb_eq in Hq. subst. reflexivity.
Qed.

Lemma prepare_time_columns_label_roundtrip_witness :
  prepare_time (Some (month_label 2023 2)) = (Some 2023, Some 2, "Q1"%string).
Proof. apply (prepare_time_columns_label_roundtrip 2023 2); lia. Defined.

Lemma lower_upper_ascii (c : ascii) : lower_ascii (upper_ascii c) = lower_ascii c.
Proof. destruct c as [[] [] [] [] [] [] [] []]; reflexivity. Qed.

Lemma dash_upper_ascii (c : ascii) : Ascii.eqb (upper_ascii c) "-" = Ascii.eqb c "-".
Proof. destruct c as [[] [] [] [] [] [] [] []]; reflexivity. Qed.

Lemma digit_val_upper_ascii (c : ascii) : digit_val (upper_ascii c) = digit_val c.
Proof. destruct c as [[] [] [] [] [] [] [] []]; reflexivity. Qed.

(** Month names are read ignoring case: upper-casing an ASCII ["Months"]
    cell (e.g. "FEB-23" for "Feb-23") changes none of the columns
    [prepare_time_columns] adds. *)
Theorem prepare_time_columns_case_insensitive (s : string) :
  is_ascii_str s = true ->
  prepare_time (Some (py_upper s)) = prepare_time (Some s).
Proof.
  intros _. unfold prepare_time. f_equal.
  destruct s as [|a [|b [|c [|h [|d1 [|d2 [|e r]]]]]]]; try reflexivity.
  cbn [py_upper strptime_b_y].
  rewrite dash_upper_ascii, !lower_upper_ascii, !digit_val_upper_ascii.
  reflexivity.
Qed.

Lemma prepare_time_columns_case_insensitive_witness :
  is_ascii_str "Feb-23" = true /\
  prepare_time (Some (py_upper "Feb-23")) = prepare_time (Some "Feb-23"%string).
Proof.
  assert (H : is_ascii_str "Feb-23" = true) by reflexivity.
  split; [exact H|exact (prepare_time_columns_case_insensitive "Feb-23" H)].
Defined.

(* ================================================================= *)
(** ** [upload_dataset] *)

Lemma existsb_eqb_In (c : string) (l : list string) :
  existsb (String.eqb c) l = true <-> In c l.
Proof.
  rewrite existsb_exists. split.
  - intros [x [Hx E]]. apply String.eqb_eq in E. subst. exact Hx.
  - intros H. exists c. split; [exact H|apply String.eqb_refl].
Qed.

Lemma fold_add_col (l cols : list string) : NoDup l ->
  fold_left add_col l cols =
  cols ++ filter (fun c => negb (existsb (String.eqb c) cols)) l.
Proof.
  revert cols. induction l as [|x l IH]; intros cols Hnd.
  - simpl. rewrite app_nil_r. reflexivity.
  - inversion Hnd as [|? ? Hx Hnd']; subst. cbn [fold_left filter].
    rewrite IH by exact Hnd'. unfold add_col.
    destruct (existsb (String.eqb x) cols) eqn:Ex; simpl.
    + reflexivity.
    + rewrite <- app_assoc. simpl. f_equal. f_equal.
      apply filter_ext_in. intros c Hc.
      rewrite existsb_app. simpl.
      destruct (String.eqb c x) eqn:Ecx.
      * apply String.eqb_eq in Ecx. subst. contradiction.
      * rewrite orb_false_r. reflexivity.
Qed.

(** The columns of the stored table: the file's own, in their order, then
    the added time columns it did not already have. *)
Lemma prepare_cols_eq (cols : list string) :
  prepare_cols cols =
  cols ++ filter (fun c => negb (existsb (String.eqb c) cols))
                 ["Month_Parsed"; "year_only"; "month_only"; "quarter"]%string.
Proof.
  unfold prepare_cols. apply fold_add_col.
  repeat constructor; simpl; intuition discriminate.
Qed.

Lemma existsb_app_filter (c : string) (cols l : list string) :
  existsb (String.eqb c) (cols ++ filter (fun c' => negb (existsb (String.eqb c') cols)) l) =
  existsb (String.eqb c) cols || existsb (String.eqb c) l.
Proof.
  rewrite existsb_app.
  destruct (existsb (String.eqb c) cols) eqn:Ec; [reflexivity|]. simpl.
  induction l as [|x l IH]; [reflexivity|]. cbn [filter existsb].
  destruct (String.eqb c x) eqn:Ecx.
  - apply String.eqb_eq in Ecx. subst. rewrite Ec. cbn [negb existsb].
    rewrite String.eqb_refl. reflexivity.
  - destruct (negb (existsb (String.eqb x) cols)); cbn [existsb]; rewrite ?Ecx; exact IH.
Qed.

Lemma missing_cols_prepare (cols : list string) :
  missing_cols (prepare_cols cols) =
  filter (fun c => negb (existsb (String.eqb c) cols))
    ["Distributor ID"; "US States"; "Deliveries_Quantity"; "Returns_Quantity";
     "Waste_Allowance_Quantity"; "Waste_Quantity_Sum"]%string.
Proof.
  unfold missing_cols. rewrite prepare_cols_eq.
  rewrite (filter_ext _ (fun c => negb (existsb (String.eqb c) cols ||
                 existsb (String.eqb c) ["Month_Parsed"; "year_only"; "month_only"; "quarter"]%string)))
    by (intros c; rewrite existsb_app_filter; reflexivity).
  unfold required_cols. cbn [filter existsb String.eqb Ascii.eqb Bool.eqb andb].
  rewrite !orb_false_r, !orb_true_r. reflexivity.
Qed.

(** The outcomes of an upload.  A file without a "Months" column fails
    with a KeyError and changes nothing.  Otherwise the table is stored,
    with the file's columns followed by the time columns it lacked.  If
    none of the six data columns is missing, the distributor-quarter table
    is rebuilt from it and the response reports the row count and the
    columns.  If some are missing, the previous distributor-quarter table
    is kept and the 400 response lists exactly the missing data columns,
    in the order of [required_cols]. *)
Theorem upload_dataset_outcomes (st : AppState) (cols : list string) (rows : list InRow) :
  let cols' := cols ++ filter (fun c => negb (existsb (String.eqb c) cols))
                  ["Month_Parsed"; "year_only"; "month_only"; "quarter"]%string in
  let ms := filter (fun c => negb (existsb (String.eqb c) cols))
              ["Distributor ID"; "US States"; "Deliveries_Quantity"; "Returns_Quantity";
               "Waste_Allowance_Quantity"; "Waste_Quantity_Sum"]%string in
  (~ In "Months"%string cols -> upload_dataset st cols rows = (st, inl KeyError)) /\
  (In "Months"%string cols ->
     app_df (fst (upload_dataset st cols rows)) = Some (cols', prepare_time_columns rows) /\
     (ms = [] ->
        app_dq (fst (upload_dataset st cols rows)) =
          Some (build_distributor_quarter_df (prepare_time_columns rows)) /\
        snd (upload_dataset st cols rows) =
          inr ("Dataset uploaded successfully"%string, List.length rows, cols')) /\
     (ms <> [] ->
        app_dq (fst (upload_dataset st cols rows)) = app_dq st /\
        snd (upload_dataset st cols rows) =
          inl (HTTPException 400
                 ("Distributor-quarter build failed: Missing required columns: "
                  ++ py_list_repr ms)%string))).
Proof.
  cbv zeta. unfold upload_dataset. split.
  - intros H. destruct (existsb (String.eqb "Months") cols) eqn:E.
    + apply existsb_eqb_In in E. contradiction.
    + reflexivity.
  - intros H. apply existsb_eqb_In in H. rewrite H. cbn [negb].
    rewrite missing_cols_prepare, <- prepare_cols_eq.
    destruct (filter _ _) as [|m ms'] eqn:Ems; cbn [fst snd app_df app_dq].
    + split; [reflexivity|]. split; [|intros Hc; contradiction]. intros _. split; reflexivity.
    + split; [reflexivity|]. split; [discriminate|]. intros _. split; reflexivity.
Qed.

(** Whatever the upload does, the [/risk/distributor-trend] endpoint
    afterwards answers from the freshly built table when the upload
    succeeded, and exactly as before the upload when it failed. *)
Theorem upload_then_distributor_trend (st : AppState) (cols : list string)
  (rows : list InRow) (s : string) :
  match snd (upload_dataset st cols rows) with
  | inl _ => distributor_trend_endpoint (fst (upload_dataset st cols rows)) s =
             distributor_trend_endpoint st s
  | inr _ => distributor_trend_endpoint (fst (upload_dataset st cols rows)) s =
             distributor_trend (build_distributor_quarter_df (prepare_time_columns rows)) s
  end.
Proof.
  unfold upload_dataset.
  destruct (negb (existsb (String.eqb "Months") cols)); [reflexivity|].
  destruct (missing_cols (prepare_cols cols)); reflexivity.
Qed.

(* ================================================================= *)
(** ** [distributor_status_table] *)

Lemma forallb_false_ex {A : Type} (f : A -> bool) (l : list A) :
  forallb f l = false -> exists x, In x l /\ f x = false.
Proof.
  induction l as [|x l IH]; simpl; [discriminate|].
  destruct (f x) eqn:Ex; simpl.
  - intros H. destruct (IH H) as [y [Hy Ey]]. exists y. auto.
  - intros _. exists x. auto.
Qed.

Lemma inv_util_finite (ma : option Q) (d : Z) (a w : Q) :
  is_finite (inv_util ma (d, a, w)) =
  negb (Qeq_bool a 0 && match ma with Some m => Qeq_bool m 0 | None => true end).
Proof.
  unfold inv_util, repl0.
  destruct (Qeq_bool a 0) eqn:Ea; cbn [andb negb].
  - destruct ma as [m|]; [|reflexivity].
    cbn [ext_div]. unfold ediv. destruct (Qeq_bool m 0); [|reflexivity].
    destruct (Qcompare w 0); reflexivity.
  - cbn [ext_div]. unfold ediv. rewrite Ea. reflexivity.
Qed.

Lemma inv_row_utilization (fi : bool) (ma : option Q) (g : Z * Q * Q) :
  inv_utilization (inv_row fi ma g) = ext_round1 (inv_util ma g).
Proof. destruct g as [[d a] w]. reflexivity. Qed.

Lemma is_finite_round1 (x : ext) : is_finite (ext_round1 x) = is_finite x.
Proof. destruct x; reflexivity. Qed.

(** The table fails (a NaN or infinite utilization reaches the JSON
    encoder) exactly when some distributor's summed allowance is 0 and
    the median allowance it is replaced by is missing or 0 as well;
    otherwise the response has one row per distributor group. *)
Theorem distributor_status_table_outcome (df : list Raw) :
  (distributor_status_table df = inl ValueError <->
   exists d a w, In (d, a, w) (inv_groups df) /\ (a == 0)%Q /\
     forall m, median (map allowance_qty df) = Some m -> (m == 0)%Q) /\
  (forall rows, distributor_status_table df = inr rows ->
     Permutation rows (map (inv_row (inv_id_float df) (median (map allowance_qty df)))
                           (inv_groups df))).
Proof.
  unfold distributor_status_table.
  set (ma := median (map allowance_qty df)).
  set (cmp := fun g h => ext_desc_compare (inv_util ma g) (inv_util ma h)).
  assert (Hp : Permutation (map (inv_row (inv_id_float df) ma) (sort_by cmp (inv_groups df)))
                           (map (inv_row (inv_id_float df) ma) (inv_groups df)))
    by (apply Permutation_map, sort_by_perm).
  destruct (forallb _ _) eqn:F.
  - split.
    + split; [discriminate|]. intros [d [a [w [Hin [Ha Hm]]]]]. exfalso.
      assert (Hf : is_finite (inv_utilization (inv_row (inv_id_float df) ma (d, a, w))) = true).
      { rewrite forallb_forall in F. apply F.
        apply (Permutation_in _ (Permutation_sym Hp)). apply in_map. exact Hin. }
      rewrite inv_row_utilization, is_finite_round1, inv_util_finite in Hf.
      apply Qeq_bool_iff in Ha. rewrite Ha in Hf. cbn [andb negb] in Hf.
      destruct ma as [m|]; [|discriminate].
      rewrite (proj2 (Qeq_bool_iff m 0) (Hm m eq_refl)) in Hf. discriminate.
    + intros rows H. injection H as <-. exact Hp.
  - split; [|discriminate]. split; [intros _|reflexivity].
    apply forallb_false_ex in F as [r [Hr Fr]].
    apply (Permutation_in _ Hp) in Hr. apply in_map_iff in Hr as [[[d a] w] [<- Hin]].
    rewrite inv_row_utilization, is_finite_round1, inv_util_finite in Fr.
    apply negb_false_iff, andb_prop in Fr as [Ea Em].
    exists d, a, w. split; [exact Hin|]. split; [apply Qeq_bool_iff; exact Ea|].
    intros m Hm. fold ma in Hm. rewrite Hm in Em. apply Qeq_bool_iff. exact Em.
Qed.

Lemma Qle_bool_shift (c d x : Q) : Qle_bool c (x - d) = Qle_bool (c + d) x.
Proof.
  destruct (Qle_bool c (x - d)) eqn:E1, (Qle_bool (c + d) x) eqn:E2; try reflexivity;
    [apply Qle_bool_iff in E1; apply Qle_bool_false in E2
    |apply Qle_bool_false in E1; apply Qle_bool_iff in E2]; exfalso; lra.
Qed.

Lemma Qle_bool_Qeq (c x y : Q) : (x == y)%Q -> Qle_bool c x = Qle_bool c y.
Proof.
  intros H.
  destruct (Qle_bool c x) eqn:E1, (Qle_bool c y) eqn:E2; try reflexivity;
    [apply Qle_bool_iff in E1; apply Qle_bool_false in E2
    |apply Qle_bool_false in E1; apply Qle_bool_iff in E2]; exfalso; lra.
Qed.

Lemma inv_status_of_fin (p : Q) :
  inv_status_of (Fin p) =
  (if Qle_bool 120 p then "Exceeded" else if Qle_bool 100 p then "At Risk" else "OK")%string.
Proof.
  unfold inv_status_of, distributor_status, ext_geq, ext_ltq. cbn [isna negb].
  destruct (Qle_bool 120 p); [reflexivity|].
  destruct (Qle_bool 100 p); [reflexivity|].
  destruct (Qltb p 80); reflexivity.
Qed.

(** The status of a distributor with summed allowance [a] and summed
    waste [w] is always "Exceeded", "At Risk" or "OK".  With [a <> 0]
    the utilization is [w / a * 100] and, since [pct_from_limit] is the
    utilization minus 100, the status is "Exceeded" from 220% on and
    "At Risk" from 200% on.  With [a = 0] replaced by a nonzero median
    [m], the utilization is [w / m * 100] and equals [pct_from_limit], so
    the thresholds are 120% and 100%. *)
Theorem distributor_status_table_thresholds (ma : option Q) (d : Z) (a w : Q) :
  (forall p, In (inv_status_of p) ["Exceeded"; "At Risk"; "OK"]%string) /\
  (~ (a == 0)%Q ->
     inv_util ma (d, a, w) = Fin (w / a * 100) /\
     inv_status_of (inv_pfl ma (d, a, w)) =
       (if Qle_bool 220 (w / a * 100) then "Exceeded"
        else if Qle_bool 200 (w / a * 100) then "At Risk" else "OK")%string) /\
  ((a == 0)%Q -> forall m, ma = Some m -> ~ (m == 0)%Q ->
     inv_util ma (d, a, w) = Fin (w / m * 100) /\
     inv_status_of (inv_pfl ma (d, a, w)) =
       (if Qle_bool 120 (w / m * 100) then "Exceeded"
        else if Qle_bool 100 (w / m * 100) then "At Risk" else "OK")%string).
Proof.
  split; [|split].
  - intros p. unfold inv_status_of.
    destruct (distributor_status p NaN); simpl; tauto.
  - intros Ha. unfold inv_util, inv_pfl, repl0.
    destruct (Qeq_bool a 0) eqn:Ea; [apply Qeq_bool_iff in Ea; contradiction|].
    cbn [ext_div]. unfold ediv. rewrite Ea. cbn [ext_mulq]. split; [reflexivity|].
    rewrite inv_status_of_fin.
    assert (E : ((w - a) / a * 100 == w / a * 100 - 100)%Q) by (field; exact Ha).
    rewrite !(Qle_bool_Qeq _ _ _ E), !Qle_bool_shift. reflexivity.
  - intros Ha m -> Hm. unfold inv_util, inv_pfl, repl0.
    rewrite (proj2 (Qeq_bool_iff a 0) Ha). cbn [ext_div]. unfold ediv.
    destruct (Qeq_bool m 0) eqn:Em; [apply Qeq_bool_iff in Em; contradiction|].
    cbn [ext_mulq]. split; [reflexivity|].
    rewrite inv_status_of_fin.
    assert (E : ((w - a) / m * 100 == w / m * 100)%Q) by (rewrite Ha; field; exact Hm).
    rewrite !(Qle_bool_Qeq _ _ _ E). reflexivity.
Qed.

(* ================================================================= *)
(** ** [correlation_analysis]: range and outcomes *)

Lemma Z_round_half_even_bounds (x : Q) :
  (-100 <= x <= 100)%Q -> -100 <= Z_round_half_even x <= 100.
Proof.
  intros Hx. unfold Z_round_half_even.
  pose proof (Qfloor_le x) as H1. pose proof (Qlt_floor x) as H2.
  set (f := Qfloor x) in *. rewrite inject_Z_plus in H2.
  assert (Hf : -100 <= f <= 100).
  { split.
    - assert (-101 < f); [|lia].
      rewrite Zlt_Qlt. change (inject_Z (-101)) with (-101 # 1)%Q.
      change (inject_Z 1) with 1%Q in H2. lra.
    - rewrite Zle_Qle. change (inject_Z 100) with (100 # 1)%Q. lra. }
  destruct (Qcompare_spec (x - inject_Z f) (1 # 2)) as [E|E|E].
  - destruct (Z.even f); [lia|].
    assert (f < 100); [|lia].
    rewrite Zlt_Qlt. change (inject_Z 100) with (100 # 1)%Q.
    lra.
  - lia.
  - assert (f < 100); [|lia].
    rewrite Zlt_Qlt. change (inject_Z 100) with (100 # 1)%Q. lra.
Qed.

Lemma round2_bounds (q : Q) : (-1 <= q <= 1)%Q -> (-1 <= round2 q <= 1)%Q.
Proof.
  intros Hq. unfold round2. rewrite Qred_correct.
  assert (Hz : -100 <= Z_round_half_even (q * 100) <= 100)
    by (apply Z_round_half_even_bounds; lra).
  unfold Qle; simpl; lia.
Qed.

Lemma nancorr_entry_range (x y : list (option Q)) :
  nancorr_entry x y = NaN \/
  exists q, nancorr_entry x y = Fin q /\ (-1 <= q <= 1)%Q.
Proof.
  unfold nancorr_entry.
  destruct (nobs _ <? 1); [left; reflexivity|].
  destruct (Qeq_bool _ 0); [left; reflexivity|]. right.
  set (v := (covxy _ / _)%Q).
  unfold Qltb. destruct (Qle_bool v 1) eqn:E1; cbn [negb].
  - destruct (Qle_bool (-1) v) eqn:E2; cbn [negb].
    + apply Qle_bool_iff in E1, E2. exists v. split; [reflexivity|]. lra.
    + exists (-1)%Q. split; [reflexivity|]. lra.
  - exists 1%Q. split; [reflexivity|]. lra.
Qed.

Lemma in_corr_round (cs : list (list (option Q))) (row : list ext) (x : ext) :
  In row (corr_round cs) -> In x row ->
  exists i j, x = ext_round2 (nancorr_entry (nth (Nat.max i j) cs []) (nth (Nat.min i j) cs [])).
Proof.
  unfold corr_round, nancorr. rewrite map_map. intros Hr Hx.
  apply in_map_iff in Hr as [i [<- _]]. rewrite map_map in Hx.
  apply in_map_iff in Hx as [j [<- _]]. exists i, j. reflexivity.
Qed.

Lemma in_firstn_sub {A : Type} (n : nat) (l : list A) (x : A) :
  In x (firstn n l) -> In x l.
Proof.
  intros H. rewrite <- (firstn_skipn n l). apply in_or_app. left. exact H.
Qed.

Lemma in_relationships (names : list string) (m : list (list ext)) (r : Rel) :
  In r (relationships names m) ->
  exists i j, (i < List.length names)%nat /\ (j < List.length names)%nat /\
    value r = entry m i j /\ abs_value r = ext_abs (entry m i j).
Proof.
  unfold relationships. intros H.
  apply in_flat_map in H as [i [Hi H]]. apply in_flat_map in H as [j [Hj H]].
  apply in_seq in Hi, Hj.
  destruct (negb _); [|destruct H].
  destruct H as [<-|[]]. exists i, j. simpl. repeat split; lia.
Qed.

Lemma corr_round_entry_in (cs : list (list (option Q))) (i j : nat) :
  (i < List.length cs)%nat -> (j < List.length cs)%nat ->
  exists row, In row (corr_round cs) /\ In (entry (corr_round cs) i j) row.
Proof.
  intros Hi Hj. exists (nth i (corr_round cs) []). split.
  - apply nth_In. rewrite corr_round_length. exact Hi.
  - unfold entry. apply nth_In.
    rewrite corr_round_row, length_map, length_seq by exact Hi. exact Hj.
Qed.

(** Every entry of the rounded correlation matrix is NaN or a number in
    [-1, 1]: the clipping of [nancorr] and the rounding to two decimals
    never leave that range. *)
Theorem corr_matrix_entries_in_range (cs : list (list (option Q))) (row : list ext) (x : ext) :
  In row (corr_round cs) -> In x row ->
  x = NaN \/ exists q, x = Fin q /\ (-1 <= q <= 1)%Q.
Proof.
  intros Hr Hx. destruct (in_corr_round cs row x Hr Hx) as [i [j ->]].
  destruct (nancorr_entry_range (nth (Nat.max i j) cs []) (nth (Nat.min i j) cs []))
    as [E|[q [E Hq]]]; rewrite E; [left; reflexivity|right].
  exists (round2 q). split; [reflexivity|]. apply round2_bounds. exact Hq.
Qed.

Lemma corr_matrix_entries_in_range_witness :
  In (Fin (4 # 5)) (nth 0 (corr_round (map col_values (select_numeric ex_corr_abc))) []) /\
  (Fin (4 # 5) = NaN \/ exists q, Fin (4 # 5) = Fin q /\ (-1 <= q <= 1)%Q).
Proof.
  assert (Hx : In (Fin (4 # 5)) (nth 0 (corr_round (map col_values (select_numeric ex_corr_abc))) []))
    by (vm_compute; tauto).
  split; [exact Hx|].
  apply (corr_matrix_entries_in_range (map col_values (select_numeric ex_corr_abc))
           (nth 0 (corr_round (map col_values (select_numeric ex_corr_abc))) [])).
  - apply nth_In. vm_compute. lia.
  - exact Hx.
Defined.

(** The outcomes of the correlation endpoint.  With fewer than two int64
    or float64 columns it answers 400 "Not enough numeric features".  With
    at least two, of distinct names, it never fails with a KeyError: it
    returns the payload exactly when every entry of the rounded matrix is
    a number, and fails with a ValueError (a NaN reaching the JSON
    encoder) otherwise. *)
Theorem correlation_analysis_outcome (cols : list Column) :
  ((List.length (select_numeric cols) < 2)%nat ->
     correlation_analysis cols = inl (HTTPException 400 "Not enough numeric features")) /\
  ((2 <= List.length (select_numeric cols))%nat ->
   NoDup (map col_name (select_numeric cols)) ->
     ((exists p, correlation_analysis cols = inr p) <->
      forallb (forallb is_finite) (corr_round (map col_values (select_numeric cols))) = true) /\
     (forallb (forallb is_finite) (corr_round (map col_values (select_numeric cols))) = false ->
      correlation_analysis cols = inl ValueError)).
Proof.
  split.
  - intros H. unfold correlation_analysis.
    apply Nat.ltb_lt in H. rewrite H. reflexivity.
  - intros H2 Hnd.
    set (num := select_numeric cols) in *.
    set (names := map col_name num) in *.
    set (m := corr_round (map col_values num)).
    assert (Hlen : List.length (map col_values num) = List.length names)
      by (unfold names; rewrite !length_map; reflexivity).
    assert (Hne : relationships names m <> []).
    { assert (Hp := relationships_pair names m 0 1 Hnd).
      assert (Hn2 : (1 < List.length names)%nat) by (unfold names; rewrite length_map; lia).
      specialize (Hp ltac:(lia) Hn2 ltac:(lia)).
      intros E. rewrite E in Hp. discriminate. }
    assert (Hrel : forallb (forallb is_finite) m = true ->
                   forall r, In r (relationships names m) ->
                     is_finite (value r) && is_finite (abs_value r) = true).
    { intros Hf r Hr. apply in_relationships in Hr as [i [j [Hi [Hj [-> ->]]]]].
      rewrite <- Hlen in Hi, Hj.
      destruct (corr_round_entry_in _ i j Hi Hj) as [row [Hrow Hin]].
      rewrite forallb_forall in Hf. specialize (Hf row Hrow).
      rewrite forallb_forall in Hf. specialize (Hf _ Hin).
      fold m in Hf. destruct (entry m i j); try discriminate. reflexivity. }
    unfold correlation_analysis. fold num names m.
    assert (Hl : (List.length num <? 2)%nat = false) by (apply Nat.ltb_ge; exact H2).
    rewrite Hl.
    destruct (relationships names m) as [|r0 rs] eqn:Er; [contradiction|].
    rewrite <- Er in Hrel |- *.
    destruct (forallb (forallb is_finite) m) eqn:Ef.
    + cbn [andb].
      assert (Hb : forall l, incl l (relationships names m) ->
                     forallb (fun r => is_finite (value r) && is_finite (abs_value r)) l = true).
      { intros l Hl'. apply forallb_forall. intros r Hr. apply Hrel; [reflexivity|]. apply Hl'. exact Hr. }
      rewrite Hb.
      * split; [split; [reflexivity|intros _; eexists; reflexivity]|discriminate].
      * cbn [strong moderate inverse]. unfold head5.
        intros r Hr. apply in_app_or in Hr as [Hr|Hr]; [|apply in_app_or in Hr as [Hr|Hr]];
          apply (proj1 (filter_In _ _ _) (in_firstn_sub _ _ _ Hr)).
    + cbn [andb]. split; [split; [intros [p Hp]; discriminate|discriminate]|reflexivity].
Qed.

(* ================================================================= *)
(** ** [get_alerts]: alerts per distributor and state *)

Lemma ds_key_eqb_spec (a b : Z * string) : ds_key_eqb a b = true <-> a = b.
Proof.
  destruct a as [d s], b as [d' s']. unfold ds_key_eqb. simpl.
  rewrite andb_true_iff, Z.eqb_eq, String.eqb_eq.
  split; [intros [-> ->]; reflexivity|intros E; injection E as -> ->; auto].
Qed.

Lemma ds_groupby_keys_nodup (rows : list (Z * string * Raw)) (fx fy : Raw -> option Q) :
  NoDup (map (fun g => (g_dist g, g_state g)) (ds_groupby rows fx fy)).
Proof.
  unfold ds_groupby. rewrite map_map. cbn [g_dist g_state].
  rewrite (map_ext _ (fun k => k)) by (intros [d s]; reflexivity).
  rewrite map_id.
  apply (Permutation_NoDup (Permutation_sym (sort_by_perm _ _))).
  apply (dedup_go_spec ds_key_eqb ds_key_eqb_spec).
Qed.

Lemma NoDup_map_eq {A B : Type} (f : A -> B) (l : list A) (x y : A) :
  NoDup (map f l) -> In x l -> In y l -> f x = f y -> x = y.
Proof.
  induction l as [|a l IH]; intros Hn Hx Hy E; [destruct Hx|].
  simpl in Hn. apply NoDup_cons_iff in Hn as [Ha Hl].
  destruct Hx as [<-|Hx], Hy as [<-|Hy]; try reflexivity.
  - exfalso. apply Ha. rewrite E. apply in_map. exact Hy.
  - exfalso. apply Ha. rewrite <- E. apply in_map. exact Hx.
  - exact (IH Hl Hx Hy E).
Qed.

Lemma alert_part_nodup (gs : list DSGroup) (p : DSGroup -> bool) (mk : DSGroup -> Alert) (v : Severity) :
  NoDup (map (fun g => (g_dist g, g_state g)) gs) ->
  (forall g, distributor_id (mk g) = g_dist g /\ alert_state (mk g) = g_state g /\ severity (mk g) = v) ->
  NoDup (map (fun a => (distributor_id a, alert_state a, priority (severity a))) (map mk (filter p gs))).
Proof.
  intros Hn Hmk. rewrite map_map.
  apply (NoDup_map_transfer (fun g => (g_dist g, g_state g))).
  - apply NoDup_map_filter. exact Hn.
  - intros x y _ _ E. destruct (Hmk x) as [Hx1 [Hx2 _]], (Hmk y) as [Hy1 [Hy2 _]].
    injection E as E1 E2 _. congruence.
Qed.

Lemma in_alert_part (gs : list DSGroup) (p : DSGroup -> bool) (mk : DSGroup -> Alert) (a : Alert) :
  In a (map mk (filter p gs)) -> exists g, a = mk g /\ In g gs /\ p g = true.
Proof.
  intros H. apply in_map_iff in H as [g [<- H]]. apply filter_In in H as [H1 H2].
  exists g. auto.
Qed.

Ltac alert_parts_disjoint :=
  let k := fresh "k" in let H1 := fresh "H1" in let H2 := fresh "H2" in
  let g := fresh "g" in let a := fresh "a" in let E := fresh "E" in
  intros k H1 H2; rewrite map_map in H1; apply in_map_iff in H1 as [g [<- _]];
  rewrite <- ?map_app in H2; apply in_map_iff in H2 as [a [E H2]];
  repeat match goal with H : In _ (_ ++ _) |- _ => apply in_app_or in H as [H|H] end;
  apply in_map_iff in H2 as [? [<- _]]; cbn in E; injection E as _ _ E; discriminate.

(** Before the deduplication, the alert list holds at most one alert per
    distributor, state and severity, and no distributor-state pair gets
    both a HIGH alert (waste above allowance) and a LOW one (waste under
    60% of allowance). *)
Theorem alerts_one_per_pair_and_severity (df : list Raw) :
  NoDup (map (fun a => (distributor_id a, alert_state a, priority (severity a))) (alerts_of df)) /\
  (forall a b, In a (alerts_of df) -> In b (alerts_of df) ->
     distributor_id a = distributor_id b -> alert_state a = alert_state b ->
     ~ (severity a = HIGH /\ severity b = LOW)).
Proof.
  assert (Hoa : NoDup (map (fun g => (g_dist g, g_state g)) (over_allow (ds_rows df))))
    by (apply NoDup_map_filter, ds_groupby_keys_nodup).
  assert (Hrg : NoDup (map (fun g => (g_dist g, g_state g)) (returns_groups (ds_rows df))))
    by (apply NoDup_map_filter, ds_groupby_keys_nodup).
  split.
  - unfold alerts_of. rewrite !map_app.
    apply NoDup_app; [|apply NoDup_app|].
    + apply (alert_part_nodup _ _ _ HIGH); [exact Hoa|]. intros g; simpl; auto.
    + apply (alert_part_nodup _ _ _ MEDIUM); [exact Hrg|]. intros g; simpl; auto.
    + apply (alert_part_nodup _ _ _ LOW); [exact Hoa|]. intros g; simpl; auto.
    + alert_parts_disjoint.
    + alert_parts_disjoint.
  - intros a b Ha Hb Ed Es [Sa Sb]. unfold alerts_of in Ha, Hb.
    apply in_app_or in Ha as [Ha|Ha]; [|apply in_app_or in Ha as [Ha|Ha]];
      apply in_alert_part in Ha as [g [-> [Hg Pg]]]; cbn in Sa; try discriminate.
    apply in_app_or in Hb as [Hb|Hb]; [|apply in_app_or in Hb as [Hb|Hb]];
      apply in_alert_part in Hb as [g' [-> [Hg' Pg']]]; cbn in Sb; try discriminate.
    cbn in Ed, Es.
    assert (E : g = g').
    { apply (NoDup_map_eq _ _ _ _ Hoa Hg Hg'). cbn. congruence. }
    subst g'. unfold Qltb in Pg, Pg'. apply negb_true_iff, Qle_bool_false in Pg, Pg'.
    lra.
Qed.

(* ================================================================= *)
(** ** [top_risky_distributors] *)

Lemma build_pfl_fin (rows : list Raw) (r : DQRow) :
  In r (build_distributor_quarter_df rows) -> exists q, pct_from_limit r = Fin q.
Proof.
  intros Hin. destruct (build_row_pfl rows r Hin) as (a & c & Hp & _).
  rewrite Hp, pfl_of_value. destruct (_ || _); eauto.
Qed.

Lemma StronglySorted_app_rel {A : Type} (R : A -> A -> Prop) (l1 l2 : list A) :
  StronglySorted R (l1 ++ l2) -> forall x y, In x l1 -> In y l2 -> R x y.
Proof.
  induction l1 as [|a l1 IH]; intros Hs x y Hx Hy; [destruct Hx|].
  simpl in Hs. apply StronglySorted_inv in Hs as [Hs Hf].
  destruct Hx as [<-|Hx].
  - rewrite Forall_forall in Hf. apply Hf, in_or_app. right. exact Hy.
  - exact (IH Hs x y Hx Hy).
Qed.

(** The top-risky list of the distributor-quarter table has five entries,
    or all rows when there are fewer; each entry is a row of the table,
    with its status, and its [risk_pct] is the row's [pct_from_limit]
    rounded to one decimal, a number; and no row left out has a larger
    [pct_from_limit] than a listed one.  This holds for every ordering by
    descending [pct_from_limit], whichever way ties are broken. *)
Theorem top_risky_is_top5 (rows : list Raw) (l : list DQRow)
  (Hperm : Permutation (build_distributor_quarter_df rows) l)
  (Hsorted : StronglySorted (cmp_le pfl_desc) l) :
  List.length (top_risky_from l) = Nat.min 5 (List.length (build_distributor_quarter_df rows)) /\
  (forall e, In e (top_risky_from l) ->
     exists r p, In r (build_distributor_quarter_df rows) /\ pct_from_limit r = Fin p /\
       e = mkTop (dq_dist r) (dq_state r) (Fin (round1 p)) (status_str (dq_status r))) /\
  (forall r r', In r (build_distributor_quarter_df rows) -> ~ In r (firstn 5 l) ->
     In r' (firstn 5 l) ->
     exists p p', pct_from_limit r = Fin p /\ pct_from_limit r' = Fin p' /\ (p <= p')%Q).
Proof.
  split; [|split].
  - unfold top_risky_from. rewrite length_map, length_firstn.
    rewrite (Permutation_length Hperm). reflexivity.
  - intros e He. unfold top_risky_from in He.
    apply in_map_iff in He as [r [<- Hr]].
    apply in_firstn_sub in Hr. apply (Permutation_in _ (Permutation_sym Hperm)) in Hr.
    destruct (build_pfl_fin rows r Hr) as [p Hp].
    exists r, p. split; [exact Hr|]. split; [exact Hp|].
    unfold top_entry. rewrite Hp. reflexivity.
  - intros r r' Hr Hnot Hr'.
    assert (Hr'b : In r' (build_distributor_quarter_df rows)).
    { apply in_firstn_sub in Hr'. exact (Permutation_in _ (Permutation_sym Hperm) Hr'). }
    destruct (build_pfl_fin rows r Hr) as [p Hp].
    destruct (build_pfl_fin rows r' Hr'b) as [p' Hp'].
    exists p, p'. split; [exact Hp|]. split; [exact Hp'|].
    assert (Hl : In r (skipn 5 l)).
    { apply (Permutation_in _ Hperm) in Hr. rewrite <- (firstn_skipn 5 l) in Hr.
      apply in_app_or in Hr as [Hr|Hr]; [contradiction|exact Hr]. }
    rewrite <- (firstn_skipn 5 l) in Hsorted.
    pose proof (StronglySorted_app_rel _ _ _ Hsorted r' r Hr' Hl) as Hle.
    unfold cmp_le, pfl_desc in Hle. rewrite Hp, Hp' in Hle. cbn in Hle.
    apply Qnot_lt_le. intros Hlt. apply Hle.
    apply Qgt_alt. exact Hlt.
Qed.

Lemma top_risky_is_top5_witness :
  exists l, Permutation (build_distributor_quarter_df ex_two_distributors) l /\
    StronglySorted (cmp_le pfl_desc) l /\
    List.length (top_risky_from l) = 2%nat.
Proof.
  exists (sort_by pfl_desc (build_distributor_quarter_df ex_two_distributors)).
  assert (Hp : Permutation (build_distributor_quarter_df ex_two_distributors)
                 (sort_by pfl_desc (build_distributor_quarter_df ex_two_distributors)))
    by (apply Permutation_sym, sort_by_perm).
  assert (Hs : StronglySorted (cmp_le pfl_desc)
                 (sort_by pfl_desc (build_distributor_quarter_df ex_two_distributors))).
  { vm_compute. repeat constructor; intros H; discriminate H. }
  split; [exact Hp|]. split; [exact Hs|].
  rewrite (proj1 (top_risky_is_top5 ex_two_distributors _ Hp Hs)).
  vm_compute. reflexivity.
Defined.

(* ================================================================= *)
(** ** [risk_overview]: the high-risk distributors *)

Lemma Z_round_half_even_range (lo hi : Z) (x : Q) :
  (inject_Z lo <= x <= inject_Z hi)%Q -> lo <= Z_round_half_even x <= hi.
Proof.
  intros Hx. unfold Z_round_half_even.
  pose proof (Qfloor_le x) as H1. pose proof (Qlt_floor x) as H2.
  set (f := Qfloor x) in *. rewrite inject_Z_plus in H2.
  change (inject_Z 1) with 1%Q in H2.
  assert (Hf : lo <= f <= hi).
  { split.
    - assert (lo < f + 1); [|lia].
      rewrite Zlt_Qlt, inject_Z_plus. change (inject_Z 1) with 1%Q. lra.
    - rewrite Zle_Qle. lra. }
  destruct (Qcompare_spec (x - inject_Z f) (1 # 2)) as [E|E|E].
  - destruct (Z.even f); [lia|].
    assert (f < hi); [|lia]. rewrite Zlt_Qlt. lra.
  - lia.
  - assert (f < hi); [|lia]. rewrite Zlt_Qlt. lra.
Qed.

Lemma round1_range (q : Q) : (0 <= q <= 100)%Q -> (0 <= round1 q <= 100)%Q.
Proof.
  intros Hq. unfold round1. rewrite Qred_correct.
  assert (Hz : 0 <= Z_round_half_even (q * 10) <= 1000).
  { apply Z_round_half_even_range.
    change (inject_Z 0) with 0%Q. change (inject_Z 1000) with (1000 # 1)%Q. lra. }
  unfold Qle; simpl; lia.
Qed.

Lemma fold_ext_add_fin (l : list ext) (s : Q) :
  (forall x, In x l -> exists q, x = Fin q) -> exists q, fold_left ext_add l (Fin s) = Fin q.
Proof.
  revert s. induction l as [|x l IH]; intros s Hl; simpl; [eauto|].
  destruct (Hl x (or_introl eq_refl)) as [q ->]. cbn [ext_add].
  apply IH. intros y Hy. apply Hl. right. exact Hy.
Qed.

Lemma ext_mean_fin (l : list ext) :
  l <> [] -> (forall x, In x l -> exists q, x = Fin q) -> exists q, ext_mean l = Fin q.
Proof.
  intros Hne Hl. unfold ext_mean.
  assert (Hf : filter (fun x => negb (isna x)) l = l).
  { clear Hne. induction l as [|x l IH]; [reflexivity|]. cbn [filter].
    destruct (Hl x (or_introl eq_refl)) as [q ->]. cbn [isna negb]. f_equal.
    apply IH. intros y Hy. apply Hl. right. exact Hy. }
  rewrite Hf. destruct l as [|x l']; [contradiction|].
  destruct (fold_ext_add_fin (x :: l') 0 Hl) as [q Hq]. rewrite Hq.
  eexists. reflexivity.
Qed.

Lemma existsb_eqb_In_Z (z : Z) (l : list Z) : existsb (Z.eqb z) l = true -> In z l.
Proof.
  intros H. apply existsb_exists in H as [x [Hx E]]. apply Z.eqb_eq in E. subst. exact Hx.
Qed.

Lemma in_year_filter (years : list Z) (dq : list DQRow) (r : DQRow) :
  In r (year_filter years dq) -> In r dq /\ (years <> [] -> In (dq_year r) years).
Proof.
  unfold year_filter. destruct years as [|y ys].
  - intros H. split; [exact H|]. intros C. contradiction.
  - intros H. apply filter_In in H as [H E]. split; [exact H|]. intros _.
    apply existsb_eqb_In_Z. exact E.
Qed.

Lemma in_dist_risk (dq : list DQRow) (g : RiskGroup) :
  In g (dist_risk dq) ->
  exists r, In r dq /\ dq_dist r = rg_dist g /\ dq_state r = rg_state g /\
    rg_avg_pct_from_limit g =
      ext_mean (map pct_from_limit
                  (filter (fun r' => ds_key_eqb (rg_dist g, rg_state g) (dq_dist r', dq_state r')) dq)) /\
    In r (filter (fun r' => ds_key_eqb (rg_dist g, rg_state g) (dq_dist r', dq_state r')) dq).
Proof.
  unfold dist_risk. intros H. apply in_map_iff in H as [[d s] [<- Hk]].
  apply (Permutation_in _ (sort_by_perm _ _)) in Hk.
  apply (dedup_go_spec ds_key_eqb ds_key_eqb_spec) in Hk as [_ Hk].
  apply in_map_iff in Hk as [r [Er Hr]]. injection Er as Ed Es.
  exists r. cbn [rg_dist rg_state rg_avg_pct_from_limit fst snd].
  split; [exact Hr|]. split; [exact Ed|]. split; [exact Es|]. split; [reflexivity|].
  apply filter_In. split; [exact Hr|]. apply ds_key_eqb_spec. rewrite Ed, Es. reflexivity.
Qed.

(** For a distributor-quarter table as the upload builds it, the
    [high_risk_distributors] list of the overview has five entries, or one
    per (distributor, state) pair when there are fewer.  Every [risk_pct]
    is a number from 0 to 100, and the status is "High Risk" from 80 on,
    "Risk" from 60 on, otherwise "OK".  Every entry has a row of the
    table, in a selected year when a year filter is given.  No pair left
    out has a larger [risk_pct] than a listed one.  This holds for every
    ordering by descending [risk_pct]. *)
Theorem overview_high_risk_top5_in_range (rows : list Raw) (years : list Z)
  (l : list RiskGroup)
  (Hperm : Permutation (dist_risk (year_filter years (build_distributor_quarter_df rows))) l)
  (Hsorted : StronglySorted (cmp_le risk_pct_desc) l) :
  List.length (high_risk_from l) =
    Nat.min 5 (List.length (dist_risk (year_filter years (build_distributor_quarter_df rows)))) /\
  (forall e, In e (high_risk_from l) ->
     exists p, hr_risk_pct e = Fin p /\ (0 <= p <= 100)%Q /\
       hr_status e = (if Qle_bool 80 p then "High Risk"
                      else if Qle_bool 60 p then "Risk" else "OK")%string /\
       exists r, In r (build_distributor_quarter_df rows) /\
         dq_dist r = hr_dist e /\ dq_state r = hr_state e /\
         (years <> [] -> In (dq_year r) years)) /\
  (forall g g', In g l -> ~ In g (firstn 5 l) -> In g' (firstn 5 l) ->
     exists p p', risk_pct g = Fin p /\ risk_pct g' = Fin p' /\ (p <= p')%Q).
Proof.
  set (dq := build_distributor_quarter_df rows) in *.
  assert (Hfin : forall g, In g l ->
            (exists p, risk_pct g = Fin p /\ (0 <= p <= 100)%Q) /\
            exists r, In r dq /\ dq_dist r = rg_dist g /\ dq_state r = rg_state g /\
              (years <> [] -> In (dq_year r) years)).
  { intros g Hg. apply (Permutation_in _ (Permutation_sym Hperm)) in Hg.
    destruct (in_dist_risk _ _ Hg) as [r [Hr [Ed [Es [Havg Hrin]]]]].
    destruct (in_year_filter _ _ _ Hr) as [Hr' Hy].
    split; [|exists r; auto].
    assert (Hm : exists q, rg_avg_pct_from_limit g = Fin q).
    { rewrite Havg. apply ext_mean_fin.
      - intros E. apply map_eq_nil in E. rewrite E in Hrin. destruct Hrin.
      - intros x Hx. apply in_map_iff in Hx as [r' [<- Hr'']].
        apply filter_In in Hr'' as [Hr'' _].
        apply in_year_filter in Hr'' as [Hr'' _].
        exact (build_pfl_fin rows r' Hr''). }
    destruct Hm as [q Hq]. unfold risk_pct. rewrite Hq. cbn [ext_clip ext_round1].
    eexists. split; [reflexivity|]. apply round1_range.
    unfold Qltb. destruct (Qle_bool 0 q) eqn:E0; cbn [negb].
    - destruct (Qle_bool q 100) eqn:E1; cbn [negb].
      + apply Qle_bool_iff in E0, E1. lra.
      + lra.
    - lra. }
  split; [|split].
  - unfold high_risk_from. rewrite length_map, length_firstn.
    rewrite (Permutation_length Hperm). reflexivity.
  - intros e He. unfold high_risk_from in He.
    apply in_map_iff in He as [g [<- Hg]]. apply in_firstn_sub in Hg.
    destruct (Hfin g Hg) as [[p [Hp Hb]] [r Hr]].
    exists p. unfold high_risk_entry. cbn [hr_risk_pct hr_status hr_dist hr_state].
    rewrite Hp. split; [reflexivity|]. split; [exact Hb|]. split; [reflexivity|].
    exists r. exact Hr.
  - intros g g' Hg Hnot Hg'.
    destruct (Hfin g Hg) as [[p [Hp _]] _].
    destruct (Hfin g' (in_firstn_sub _ _ _ Hg')) as [[p' [Hp' _]] _].
    exists p, p'. split; [exact Hp|]. split; [exact Hp'|].
    assert (Hl : In g (skipn 5 l)).
    { rewrite <- (firstn_skipn 5 l) in Hg.
      apply in_app_or in Hg as [Hg|Hg]; [contradiction|exact Hg]. }
    rewrite <- (firstn_skipn 5 l) in Hsorted.
    pose proof (StronglySorted_app_rel _ _ _ Hsorted g' g Hg' Hl) as Hle.
    unfold cmp_le, risk_pct_desc in Hle. rewrite Hp, Hp' in Hle. cbn in Hle.
    apply Qnot_lt_le. intros Hlt. apply Hle. apply Qgt_alt. exact Hlt.
Qed.

Lemma overview_high_risk_top5_in_range_witness :
  exists l, Permutation (dist_risk (year_filter [2022] (build_distributor_quarter_df ex_two_distributors))) l /\
    StronglySorted (cmp_le risk_pct_desc) l /\
    List.length (high_risk_from l) = 2%nat.
Proof.
  exists (sort_by risk_pct_desc
            (dist_risk (year_filter [2022] (build_distributor_quarter_df ex_two_distributors)))).
  assert (Hp : Permutation (dist_risk (year_filter [2022] (build_distributor_quarter_df ex_two_distributors)))
                 (sort_by risk_pct_desc
                    (dist_risk (year_filter [2022] (build_distributor_quarter_df ex_two_distributors)))))
    by (apply Permutation_sym, sort_by_perm).
  assert (Hs : StronglySorted (cmp_le risk_pct_desc)
                 (sort_by risk_pct_desc
                    (dist_risk (year_filter [2022] (build_distributor_quarter_df ex_two_distributors))))).
  { vm_compute. repeat constructor; intros H; discriminate H. }
  split; [exact Hp|]. split; [exact Hs|].
  rewrite (proj1 (overview_high_risk_top5_in_range ex_two_distributors [2022] _ Hp Hs)).
  vm_compute. reflexivity.
Defined.

(* ================================================================= *)
(** ** [inventory_overview] *)

(** The KPI overview: a state counts as high-risk exactly when its
    summed allowance is not 0 and its waste reaches 80% of it, so a state
    with zero allowance is never counted, whatever its waste; the count
    is at most the number of distinct states; and the utilization rate is
    0 when the total allowance is not positive. *)
Theorem inventory_overview_edge_cases (df : list Raw) :
  ov_high_risk_states (inventory_overview df) =
    List.length (filter (fun g => let '(_, w, a) := g in
                                  negb (Qeq_bool a 0) && Qle_bool 80 (w / a * 100))
                        (state_risk df)) /\
  (ov_high_risk_states (inventory_overview df) <= List.length (state_risk df))%nat /\
  List.length (state_risk df) =
    List.length (dedup_by String.eqb (flat_map (fun r => match us_state r with
                                                         | Some s => [s] | None => [] end) df)) /\
  ((col_sum0 allowance_qty df <= 0)%Q -> ov_utilization_rate (inventory_overview df) = round1 0).
Proof.
  split; [|split; [|split]].
  - unfold inventory_overview. cbn [ov_high_risk_states]. f_equal.
    apply filter_ext. intros [[s w] a]. unfold state_usage.
    destruct (Qeq_bool a 0) eqn:Ea; cbn [ext_div ext_mulq ext_geq negb andb]; [reflexivity|].
    unfold ediv. rewrite Ea. reflexivity.
  - unfold inventory_overview. cbn [ov_high_risk_states]. apply filter_length_le.
  - unfold state_risk. rewrite length_map. apply Permutation_length, sort_by_perm.
  - intros H. unfold inventory_overview. cbn [ov_utilization_rate].
    unfold Qltb. destruct (Qle_bool (col_sum0 allowance_qty df) 0) eqn:E; [reflexivity|].
    apply Qle_bool_false in E. lra.
Qed.

(* ================================================================= *)
(** ** Upload, then the distributor-quarter table *)


